(** * twitterbot_x: the scheduling and rate-budget core, embedded in Rocq

    A shallow embedding of the Python sources [main.py], [twitter_client.py],
    [ai_client.py], [mention_processor.py] and [config.py], followed by the
    properties of the specification that were checked against it and by
    further properties of the code.

    Conventions of the embedding.
    - An instant ([time.time()], a [datetime]) and a duration are integers
      ([Z]) counting seconds; the order and the additions of the source are
      kept, the rounding of floats is not modelled.
    - A Python [str] holding text is the list of its code points ([list N]);
      [len], slicing and [+] are [length], [firstn] and [++].  Ids, user
      names, endpoints and dictionary keys are [string]s.
    - The dedup set is a [gset string].
    - Awaited calls run to completion one after the other (there is a single
      task), so a coroutine is a function that threads the state it mutates.
    - An exception is an explicit result: [Raised], or [None] where noted.
    - What the program does to the outside (sleeping, logging, calling the
      platform) is appended to a trace of events. *)

From Stdlib Require Import ZArith NArith Lia List Bool Ascii String Sorted.
From stdpp Require Import base numbers list strings gmap sets.
Import ListNotations.

Open Scope Z_scope.

(** * Part I: the embedding *)

(** ** config.py *)

Module Config.

Definition DEFAULT_MENTION_AGE_LIMIT : Z := 180.
Definition MAIN_LOOP_DELAY : Z := 250.
Definition ERROR_DELAY : Z := 300.
Definition MAX_RETRIES : Z := 3.
Definition TWEET_MAX_LENGTH : Z := 280.
Definition ACCOUNTS_TO_MONITOR : list string := ["wachmc"%string].
Definition ACCOUNTS_TO_RETWEET : list string := ["wachmc"%string].
Definition HASHTAGS_TO_MONITOR : list string := ["#alephium"%string].
Definition MIN_LIKES_THRESHOLD : Z := 25.

End Config.

(** ** Values, events and the world shared by the modules *)

Module Runtime.

(** A decoded JSON payload.  [JNull] is Python's [None]; an object is the
    dict it decodes to, kept as an association list whose first binding of a
    key is the dict's value. Numbers are integers. *)
#[warnings="-register-all"]
Inductive Json :=
| JNull
| JBool (b : bool)
| JNum (z : Z)
| JStr (s : string)
| JArr (items : list Json)
| JObj (fields : list (string * Json)).

(** Python's truth value of a decoded payload. *)
Definition truthy (j : Json) : bool :=
  match j with
  | JNull => false
  | JBool b => b
  | JNum z => negb (z =? 0)
  | JStr s => match s with EmptyString => false | String _ _ => true end
  | JArr items => match items with [] => false | _ => true end
  | JObj fields => match fields with [] => false | _ => true end
  end.

(** [d.get(key)] on the association list. *)
Fixpoint dict_get (key : string) (fields : list (string * Json)) : option Json :=
  match fields with
  | [] => None
  | (k, v) :: rest => if String.eqb k key then Some v else dict_get key rest
  end.

(** [needle in hay] for two [str]. *)
Fixpoint contains (needle hay : string) : bool :=
  String.prefix needle hay
  || match hay with
     | EmptyString => false
     | String _ hay' => contains needle hay'
     end.

(** [s.lower()] on the ASCII letters. *)
Definition lower_ascii (a : ascii) : ascii :=
  let n := N_of_ascii a in
  if ((65 <=? n) && (n <=? 90))%N then ascii_of_N (n + 32) else a.

Fixpoint lower (s : string) : string :=
  match s with
  | EmptyString => EmptyString
  | String a s' => String (lower_ascii a) (lower s')
  end.

(** The result of a call that may raise. *)
Inductive Result (A : Type) :=
| Ret (a : A)
| Raised.
Arguments Ret {A} a.
Arguments Raised {A}.

(** The [created_at] field of an item: absent, not an ISO date, or an instant. *)
Inductive Created :=
| NoDate
| BadDate
| Date (at_ : Z).

(** The [username] key of an item: absent, present with value [None], or a name. *)
Inductive Username :=
| NoName
| NoneName
| Name (s : string).

(** A mention or tweet dict, with the keys the scheduler reads. *)
Record Tweet := mkTweet {
  id : string;
  created_at : Created;
  username : Username
}.

Inductive Method := GET | POST | UNSUPPORTED.

Inductive Level := DEBUG | INFO | WARNING | ERROR.

Inductive Event :=
| EvSleep (seconds : Z)
| EvLog (level : Level)
| EvHttp (method : Method) (endpoint : string)
| EvGetUserId
| EvLatestMentionId
| EvGetMentions
| EvGetUserTweets (user : string)
| EvSearch (query : string)
| EvMetrics (tweet_id : string)
| EvRetweet (tweet_id : string)
| EvProcessMention (item : Tweet).

(** The outside: the clock and what has happened so far, oldest first. *)
Record World := mkWorld {
  clock : Z;
  trace : list Event
}.

Definition record (e : Event) (w : World) : World :=
  mkWorld (clock w) (trace w ++ [e]).

Definition log (l : Level) (w : World) : World := record (EvLog l) w.

Definition advance (d : Z) (w : World) : World :=
  mkWorld (clock w + d) (trace w).

(** [await asyncio.sleep(d)] *)
Definition sleep (d : Z) (w : World) : World :=
  advance d (record (EvSleep d) w).

End Runtime.

(** ** main.py: class RateLimiter *)

Module RateLimiter.

(** [self.requests] is a deque: [popleft] takes the head, [append] adds at
    the end. *)
Record t := mk {
  requests_per_window : Z;
  window_seconds : Z;
  requests : list Z
}.

Definition init (requests_per_window window_seconds : Z) : t :=
  mk requests_per_window window_seconds [].

(** [while self.requests and self.requests[0] <= now - self.window_seconds:
       self.requests.popleft()] *)
Fixpoint popleft_expired (now w : Z) (q : list Z) : list Z :=
  match q with
  | r :: q' => if r <=? now - w then popleft_expired now w q' else q
  | [] => []
  end.

(** One call of [acquire].  [now] is the first reading of the clock; the
    second reading, the one that is recorded, is [now], plus the time slept,
    plus [lag], the time the call took beyond its sleep.  The result is
    [None] when [self.requests[0]] raises IndexError; otherwise the new
    limiter, the time slept and the instant recorded. *)
Definition acquire (rl : t) (now lag : Z) : option (t * Z * Z) :=
  let w := window_seconds rl in
  let q := popleft_expired now w (requests rl) in
  if requests_per_window rl <=? Z.of_nat (length q) then
    match q with
    | [] => None
    | r0 :: _ =>
        let wait_time := r0 + w - now in
        let slept := if 0 <? wait_time then wait_time else 0 in
        let recorded := now + slept + lag in
        Some (mk (requests_per_window rl) w (q ++ [recorded]), slept, recorded)
    end
  else
    let recorded := now + lag in
    Some (mk (requests_per_window rl) w (q ++ [recorded]), 0, recorded).

(** A sequential run of [acquire] calls.  Each call comes with [gap], the
    time between the return of the previous call and this call's first
    clock reading, and with its [lag].  [admitted] is the history of all
    recorded instants (the deque forgets the expired ones). *)
Fixpoint run (rl : t) (clock : Z) (sched : list (Z * Z)) (admitted : list Z)
  : option (t * Z * list Z) :=
  match sched with
  | [] => Some (rl, clock, admitted)
  | (gap, lag) :: rest =>
      match acquire rl (clock + gap) lag with
      | None => None
      | Some (rl', _, recorded) => run rl' recorded rest (admitted ++ [recorded])
      end
  end.

(** The schedule of a clock that never runs backwards. *)
Definition monotone (sched : list (Z * Z)) : Prop :=
  Forall (fun gl => 0 <= fst gl /\ 0 <= snd gl) sched.

(** The window of length [w] that opens at [t]: the instants [e] with
    [t < e <= t + w].  It is half-open like the limiter's own trailing
    window, which an entry [r <= now - w] has left. *)
Definition in_window (t w e : Z) : bool := (t <? e) && (e <=? t + w).

Definition admitted_in_window (t w : Z) (admitted : list Z) : nat :=
  length (List.filter (in_window t w) admitted).

(** The same count over the closed interval [t <= e <= t + w]. *)
Definition admitted_in_closed (t w : Z) (admitted : list Z) : nat :=
  length (List.filter (fun e => (t <=? e) && (e <=? t + w)) admitted).

(** Number of recorded instants later than [bound]. *)
Definition later_than (bound : Z) (l : list Z) : nat :=
  length (List.filter (fun e => bound <? e) l).

(** What holds between two calls: the limiter [rl], the clock [clk] at the
    return of the last call and the history [log] of recorded instants. *)
Record Inv (c w : Z) (rl : t) (clk : Z) (log : list Z) : Prop := {
  inv_capacity : requests_per_window rl = c;
  inv_window : window_seconds rl = w;
  inv_log : exists gone, log = gone ++ requests rl
                         /\ Forall (fun r => r <= clk - w) gone;
  inv_len : forall now, clk <= now ->
              Z.of_nat (length (popleft_expired now w (requests rl))) <= c;
  inv_budget : forall t, Z.of_nat (admitted_in_window t w log) <= c
}.

End RateLimiter.

(** ** twitter_client.py: class TwitterClient *)

Module TwitterClient.
Import Runtime.

(** The [x-rate-limit-reset] header of a response: absent, not an integer
    literal, or the epoch second at which the budget resets. *)
Inductive ResetHeader :=
| Absent
| Unparsable
| Reset (epoch : Z).

(** A response of the platform; [body] is [None] when [response.json()]
    raises. *)
Record Response := mkResponse {
  status_code : Z;
  rate_limit_reset : ResetHeader;
  body : option Json
}.

(** What [self.oauth.get] / [self.oauth.post] does: raise, or return. *)
Inductive Sent :=
| ConnectionError
| Received (r : Response).

(** The platform as the client sees it: the answer to a call may depend on
    everything that has happened so far. *)
Definition Transport := Method -> string -> World -> Sent.

(** How one attempt ends, following the body of the [try]. *)
Inductive Outcome :=
| Ok (payload : Json)
| RateLimited (reset_time : option Z)
| Failed.

(** [response.raise_for_status()] raises on 4xx and 5xx. *)
Definition raise_for_status (r : Response) : bool :=
  (400 <=? status_code r) && (status_code r <? 600).

Definition classify (s : Sent) : Outcome :=
  match s with
  | ConnectionError => Failed
  | Received r =>
      if status_code r =? 429 then
        match rate_limit_reset r with
        | Unparsable => Failed
        | Absent => RateLimited None
        | Reset epoch => RateLimited (Some epoch)
        end
      else if raise_for_status r then Failed
      else match body r with
           | None => Failed
           | Some payload => Ok payload
           end
  end.

(** [_make_request], one unit of [fuel] per execution of its body: the
    result is [None] when the fuel does not suffice, otherwise the value
    returned ([JNull] for Python's [None]) and the world after it. *)
Fixpoint _make_request (transport : Transport) (fuel : nat)
    (method : Method) (endpoint : string) (retry_count : Z) (w : World)
  : option (Json * World) :=
  match fuel with
  | O => None
  | S fuel' =>
      let on_exception (w : World) :=
        let w := log ERROR w in
        if retry_count <? Config.MAX_RETRIES then
          let sleep_time := 2 ^ retry_count in
          let w := log INFO w in
          let w := sleep sleep_time w in
          _make_request transport fuel' method endpoint (retry_count + 1) w
        else Some (JNull, w) in
      match method with
      | UNSUPPORTED => on_exception w
      | _ =>
          let sent := transport method endpoint w in
          let w := record (EvHttp method endpoint) w in
          match classify sent with
          | RateLimited reset =>
              let reset_time :=
                match reset with
                | Some epoch => epoch
                | None => clock w + 900
                end in
              let current_time := clock w in
              let sleep_time := Z.max (reset_time - current_time) 60 in
              let w := log WARNING w in
              let w := sleep sleep_time w in
              _make_request transport fuel' method endpoint 0 w
          | Failed => on_exception w
          | Ok payload => Some (payload, w)
          end
      end
  end.

(** The client object: [self.user_id], [JNull] for [None]. *)
Record Client := mkClient {
  user_id : Json
}.

(** [response and 'data' in response], then [response['data']['id']]. *)
Definition extract_user_id (response : Json) : Result (option Json) :=
  match response with
  | JObj fields =>
      match dict_get "data" fields with
      | None => Ret None
      | Some (JObj data) =>
          match dict_get "id" data with
          | Some v => Ret (Some v)
          | None => Raised
          end
      | Some _ => Raised
      end
  | JArr items =>
      if existsb (fun j => match j with
                           | JStr s => String.eqb s "data"
                           | _ => false
                           end) items
      then Raised else Ret None
  | JStr s => if contains "data" s then Raised else Ret None
  | JBool b => if b then Raised else Ret None
  | JNum z => if z =? 0 then Ret None else Raised
  | JNull => Ret None
  end.

(** [get_user_id]: the value returned (or the exception), the client and
    the world after the call; [None] when the fuel does not suffice. *)
Definition get_user_id (transport : Transport) (fuel : nat)
    (c : Client) (w : World) : option (Result Json * Client * World) :=
  if truthy (user_id c) then Some (Ret (user_id c), c, w)
  else
    match _make_request transport fuel GET "/users/me" 0 w with
    | None => None
    | Some (response, w') =>
        match extract_user_id response with
        | Raised => Some (Raised, c, w')
        | Ret None => Some (Ret JNull, c, w')
        | Ret (Some v) => Some (Ret v, mkClient v, w')
        end
    end.

(** The events of one failed attempt. *)
Definition failed_attempt (method : Method) (endpoint : string) : list Event :=
  match method with
  | UNSUPPORTED => [EvLog ERROR]
  | _ => [EvHttp method endpoint; EvLog ERROR]
  end.

(** Every attempt of the call ends in the [except] branch. *)
Definition always_fails (transport : Transport) (method : Method) (endpoint : string)
    (after : World) : Prop :=
  method = UNSUPPORTED
  \/ forall w, (length (trace after) <= length (trace w))%nat ->
               classify (transport method endpoint w) = Failed.

(** What a call that fails four times does after [before]. *)
Definition four_failures (method : Method) (endpoint : string) (before : list Event)
  : list Event :=
  before ++ failed_attempt method endpoint ++ [EvLog INFO; EvSleep 1]
         ++ failed_attempt method endpoint ++ [EvLog INFO; EvSleep 2]
         ++ failed_attempt method endpoint ++ [EvLog INFO; EvSleep 4]
         ++ failed_attempt method endpoint.

Definition http_calls (events : list Event) : nat :=
  length (List.filter (fun e => match e with EvHttp _ _ => true | _ => false end) events).

(** The world after a 429 answer has been handled: the call is recorded,
    the warning logged and the wait slept. *)
Definition after_rate_limit (method : Method) (endpoint : string)
    (reset_time : Z) (w : World) : World :=
  sleep (Z.max (reset_time - clock w) 60)
    (log WARNING (record (EvHttp method endpoint) w)).

(** A platform that answers the first call to [/users/me] with an empty id
    and every later one with the id 42. *)
Definition empty_then_42 : Transport :=
  fun _ _ w =>
    let id_value := match trace w with [] => JStr EmptyString | _ => JStr "42" end in
    Received (mkResponse 200 Absent (Some (JObj [("data"%string, JObj [("id"%string, id_value)])]))).

(** A platform that answers 429 once, with a reset 30 seconds ahead of the
    clock 1000, and then with an empty object. *)
Definition limited_once : Transport :=
  fun _ _ w =>
    match trace w with
    | [] => Received (mkResponse 429 (Reset 1030) None)
    | _ => Received (mkResponse 200 Absent (Some (JObj [])))
    end.

(** A platform that cannot be reached. *)
Definition unreachable : Transport := fun _ _ _ => ConnectionError.

End TwitterClient.

(** ** ai_client.py: class AIClient *)

Module AIClient.
Import Runtime.

(** Text: the code points of a Python [str]. *)
Definition str := list N.

(** The code points of a literal written in UTF-8. *)
Fixpoint utf8_from (s : string) (pending : nat) (acc : N) : str :=
  match s with
  | EmptyString => []
  | String a s' =>
      let b := N_of_ascii a in
      match pending with
      | O =>
          if (b <? 128)%N then b :: utf8_from s' 0 0%N
          else if (b <? 224)%N then utf8_from s' 1 (b - 192)%N
          else if (b <? 240)%N then utf8_from s' 2 (b - 224)%N
          else utf8_from s' 3 (b - 240)%N
      | S O => (acc * 64 + (b - 128))%N :: utf8_from s' 0 0%N
      | S k => utf8_from s' k (acc * 64 + (b - 128))%N
      end
  end.

Definition utf8 (s : string) : str := utf8_from s 0 0%N.

(** *** The fragment of [re] that [clean_response] uses

    A pattern is a sequence of items; an item is a set of code points with
    a quantifier, and may be the capture group 1.  Quantifiers are greedy
    and give back one code point at a time, as in [re]. *)

Inductive Class :=
| Char (c : N)
| NotChar (c : N)
| OneOf (cs : list N)
| Digit
| Space.

Inductive Quant := Once | OneOrMore | ZeroOrMore.

Record Item := mkItem {
  cls : Class;
  quant : Quant;
  captured : bool
}.

Definition Pattern := list Item.

(** The replacement: [''], [r'\1'] or a literal. *)
Inductive Repl :=
| Drop
| Group1
| Lit (s : str).

Definition expand (r : Repl) (group1 : str) : str :=
  match r with
  | Drop => []
  | Group1 => group1
  | Lit s => s
  end.

Definition lit (c : N) : Item := mkItem (Char c) Once false.
Definition digits : Item := mkItem Digit OneOrMore false.
Definition spaces : Item := mkItem Space OneOrMore false.

(** [r'【\d+:\d+†[^】]+】'] *)
Definition footnote : Pattern :=
  [lit 12304; digits; lit 58; digits; lit 8224;
   mkItem (NotChar 12305) OneOrMore false; lit 12305].

(** [r'\*\*([^*]+)\*\*'] *)
Definition bold : Pattern :=
  [lit 42; lit 42; mkItem (NotChar 42) OneOrMore true; lit 42; lit 42].

(** [r'\*([^*]+)\*'] *)
Definition italic : Pattern :=
  [lit 42; mkItem (NotChar 42) OneOrMore true; lit 42].

(** [r'\d+\.\s+'] *)
Definition numbered : Pattern := [digits; lit 46; spaces].

(** [r'[-•]\s+'] *)
Definition bullet : Pattern := [mkItem (OneOf [45%N; 8226%N]) Once false; spaces].

(** [r'```[^`]*```'] *)
Definition code_block : Pattern :=
  [lit 96; lit 96; lit 96; mkItem (NotChar 96) ZeroOrMore false;
   lit 96; lit 96; lit 96].

(** [r'`([^`]+)`'] *)
Definition inline_code : Pattern :=
  [lit 96; mkItem (NotChar 96) OneOrMore true; lit 96].

(** [r'#+\s+'] *)
Definition heading : Pattern := [mkItem (Char 35) OneOrMore false; spaces].

(** [r'\[([^\]]+)\]\([^)]+\)'] *)
Definition link : Pattern :=
  [lit 91; mkItem (NotChar 93) OneOrMore true; lit 93; lit 40;
   mkItem (NotChar 41) OneOrMore false; lit 41].

(** [r'>\s+'] *)
Definition blockquote : Pattern := [lit 62; spaces].

(** [r'\s+'] *)
Definition whitespace : Pattern := [spaces].

Section Unicode.

(** The interpreter's Unicode tables beyond ASCII: the decimal digits
    (category Nd) and the whitespace of [str.isspace]. *)
Variables unicode_Nd unicode_White : N -> bool.

(** [\d] *)
Definition is_digit (c : N) : bool :=
  if (c <? 128)%N then (48 <=? c)%N && (c <=? 57)%N else unicode_Nd c.

(** [\s]: in ASCII, tab to carriage return, the separators 0x1C to 0x1F and
    the space. *)
Definition is_space (c : N) : bool :=
  if (c <? 128)%N then ((9 <=? c)%N && (c <=? 13)%N) || ((28 <=? c)%N && (c <=? 32)%N)
  else unicode_White c.

Definition member (k : Class) (x : N) : bool :=
  match k with
  | Char c => N.eqb x c
  | NotChar c => negb (N.eqb x c)
  | OneOf cs => existsb (N.eqb x) cs
  | Digit => is_digit x
  | Space => is_space x
  end.

(** Length of the longest prefix of [s] inside the class [k]. *)
Fixpoint run_length (k : Class) (s : str) : nat :=
  match s with
  | x :: s' => if member k x then S (run_length k s') else O
  | [] => O
  end.

(** Try the continuation [k] after [n] code points, then after [n - 1], ...
    down to [least].  The result is the text of group 1 and what follows
    the match. *)
Fixpoint backtrack (k : str -> option (str * str)) (capt : bool) (s : str)
    (least n : nat) : option (str * str) :=
  if (n <? least)%nat then None
  else
    match k (skipn n s) with
    | Some (g, rest) => Some (if capt then firstn n s else g, rest)
    | None =>
        match n with
        | O => None
        | S n' => backtrack k capt s least n'
        end
    end.

(** Match [p] at the start of [s]. *)
Fixpoint match_here (p : Pattern) (s : str) : option (str * str) :=
  match p with
  | [] => Some ([], s)
  | it :: p' =>
      match quant it with
      | Once =>
          match s with
          | x :: s' =>
              if member (cls it) x then
                match match_here p' s' with
                | Some (g, rest) => Some (if captured it then [x] else g, rest)
                | None => None
                end
              else None
          | [] => None
          end
      | OneOrMore =>
          backtrack (match_here p') (captured it) s 1 (run_length (cls it) s)
      | ZeroOrMore =>
          backtrack (match_here p') (captured it) s 0 (run_length (cls it) s)
      end
  end.

(** [re.sub] for a pattern that matches no empty text: replace the leftmost
    match, go on after it.  Every step consumes a code point, so [length s]
    units of fuel are enough. *)
Fixpoint sub_from (fuel : nat) (p : Pattern) (r : Repl) (s : str) : str :=
  match fuel with
  | O => s
  | S fuel' =>
      match s with
      | [] => []
      | x :: s' =>
          match match_here p s with
          | Some (g, rest) => expand r g ++ sub_from fuel' p r rest
          | None => x :: sub_from fuel' p r s'
          end
      end
  end.

Definition re_sub (p : Pattern) (r : Repl) (s : str) : str :=
  sub_from (length s) p r s.

Fixpoint lstrip (s : str) : str :=
  match s with
  | x :: s' => if is_space x then lstrip s' else s
  | [] => []
  end.

(** [s.strip()] *)
Definition strip (s : str) : str := rev (lstrip (rev (lstrip s))).

Definition clean_response (text : str) : str :=
  match text with
  | [] => []
  | _ =>
      let cleaned := re_sub footnote Drop text in
      let cleaned := re_sub bold Group1 cleaned in
      let cleaned := re_sub italic Group1 cleaned in
      let cleaned := re_sub numbered Drop cleaned in
      let cleaned := re_sub bullet Drop cleaned in
      let cleaned := re_sub code_block Drop cleaned in
      let cleaned := re_sub inline_code Group1 cleaned in
      let cleaned := re_sub heading Drop cleaned in
      let cleaned := re_sub link Group1 cleaned in
      let cleaned := re_sub blockquote Drop cleaned in
      let cleaned := re_sub whitespace (Lit [32%N]) cleaned in
      strip cleaned
  end.

(** [if len(cleaned_response) > Config.TWEET_MAX_LENGTH:
       cleaned_response = cleaned_response[:Config.TWEET_MAX_LENGTH-3] + "..."] *)
Definition truncate (cleaned_response : str) : str :=
  if Config.TWEET_MAX_LENGTH <? Z.of_nat (length cleaned_response) then
    firstn (Z.to_nat (Config.TWEET_MAX_LENGTH - 3)) cleaned_response ++ utf8 "..."
  else cleaned_response.

(** One element of [message.content]. *)
Record Content := mkContent {
  ctype : string;
  text_value : str
}.

Record Message := mkMessage {
  role : string;
  content : list Content
}.

(** What a poll of the run returns: an exception or a status. *)
Inductive Poll :=
| PollRaised
| Status (s : string).

(** What the backend does during one [get_response]: whether creating the
    thread or the run raises, the answers to the successive polls, and the
    listing of the messages. *)
Record Backend := mkBackend {
  create_raises : bool;
  polls : nat -> Poll;
  messages : Result (list Message)
}.

(** [_wait_for_run]: [Some true] when the run completed, [Some false] when
    the method returns [None], [None] when [fuel] polls see no end. *)
Fixpoint _wait_for_run (fuel : nat) (polls : nat -> Poll) (i : nat) : option bool :=
  match fuel with
  | O => None
  | S fuel' =>
      match polls i with
      | PollRaised => Some false
      | Status s =>
          if String.eqb s "completed" then Some true
          else if String.eqb s "failed" || String.eqb s "expired"
                  || String.eqb s "cancelled" then Some false
          else if String.eqb s "requires_action" then Some false
          else _wait_for_run fuel' polls (S i)
      end
  end.

(** The loop over [messages.data[0].content]. *)
Fixpoint first_text (contents : list Content) : option str :=
  match contents with
  | [] => None
  | c :: rest =>
      if String.eqb (ctype c) "text"
      then Some (truncate (clean_response (text_value c)))
      else first_text rest
  end.

(** [get_response]: [Some (Some reply)], [Some None] for Python's [None],
    [None] when the polling does not end within [fuel]. *)
Definition get_response (b : Backend) (fuel : nat) : option (option str) :=
  if create_raises b then Some None
  else
    match _wait_for_run fuel (polls b) 0 with
    | None => None
    | Some false => Some None
    | Some true =>
        match messages b with
        | Raised => Some None
        | Ret [] => Some None
        | Ret (m :: _) =>
            if String.eqb (role m) "assistant" then Some (first_text (content m))
            else Some None
        end
    end.

End Unicode.

(** A table that is [b1], [b2], [b3] on the three code points of the
    example beyond ASCII and [false] elsewhere. *)
Definition table3 (b1 b2 b3 : bool) (c : N) : bool :=
  if (c =? 12304)%N then b1
  else if (c =? 8224)%N then b2
  else if (c =? 12305)%N then b3
  else false.

(** The code points of the example and of ASCII. *)
Definition in_scope (c : N) : bool :=
  (c <? 128)%N || (c =? 12304)%N || (c =? 8224)%N || (c =? 12305)%N.

End AIClient.

(** ** mention_processor.py and main.py: the scheduler *)

Module Bot.
Import Runtime.

(** [MentionProcessor]: the fields that [get_mentions] reads and writes. *)
Record Processor := mkProcessor {
  p_user_id : Json;
  last_mention_id : Json;
  mention_age_limit_minutes : Z
}.

(** [MentionProcessor(mention_age_limit_minutes=...)]; the default of the
    constructor when no limit is given. *)
Definition new_processor (limit : option Z) : Processor :=
  mkProcessor JNull JNull
    (match limit with
     | Some minutes => minutes
     | None => Config.DEFAULT_MENTION_AGE_LIMIT
     end).

Inductive Task := mentions | accounts | hashtags.

(** A dict with the three keys ['mentions'], ['accounts'], ['hashtags']. *)
Record PerTask := mkPerTask {
  of_mentions : Z;
  of_accounts : Z;
  of_hashtags : Z
}.

Definition lookup_task (k : Task) (d : PerTask) : Z :=
  match k with
  | mentions => of_mentions d
  | accounts => of_accounts d
  | hashtags => of_hashtags d
  end.

Definition store_task (k : Task) (v : Z) (d : PerTask) : PerTask :=
  match k with
  | mentions => mkPerTask v (of_accounts d) (of_hashtags d)
  | accounts => mkPerTask (of_mentions d) v (of_hashtags d)
  | hashtags => mkPerTask (of_mentions d) (of_accounts d) v
  end.

Record TwitterBot := mkBot {
  processor : Processor;
  user_tweets_limiter : RateLimiter.t;
  mentions_limiter : RateLimiter.t;
  search_limiter : RateLimiter.t;
  retweet_limiter : RateLimiter.t;
  processed_tweets : gset string;
  last_processed_time : PerTask
}.

(** [self.check_intervals], set in [__init__] and never written again. *)
Definition check_intervals : PerTask := mkPerTask 180 900 1800.

(** [TwitterBot.__init__] *)
Definition new_bot (p : Processor) : TwitterBot :=
  mkBot p (RateLimiter.init 10 900) (RateLimiter.init 5 900)
    (RateLimiter.init 5 900) (RateLimiter.init 3 900) ∅ (mkPerTask 0 0 0).

Inductive Limiter := UserTweets | Mentions | Search | Retweets.

Definition get_limiter (l : Limiter) (b : TwitterBot) : RateLimiter.t :=
  match l with
  | UserTweets => user_tweets_limiter b
  | Mentions => mentions_limiter b
  | Search => search_limiter b
  | Retweets => retweet_limiter b
  end.

Definition set_limiter (l : Limiter) (rl : RateLimiter.t) (b : TwitterBot) : TwitterBot :=
  match l with
  | UserTweets =>
      mkBot (processor b) rl (mentions_limiter b) (search_limiter b)
        (retweet_limiter b) (processed_tweets b) (last_processed_time b)
  | Mentions =>
      mkBot (processor b) (user_tweets_limiter b) rl (search_limiter b)
        (retweet_limiter b) (processed_tweets b) (last_processed_time b)
  | Search =>
      mkBot (processor b) (user_tweets_limiter b) (mentions_limiter b) rl
        (retweet_limiter b) (processed_tweets b) (last_processed_time b)
  | Retweets =>
      mkBot (processor b) (user_tweets_limiter b) (mentions_limiter b)
        (search_limiter b) rl (processed_tweets b) (last_processed_time b)
  end.

Definition set_processor (p : Processor) (b : TwitterBot) : TwitterBot :=
  mkBot p (user_tweets_limiter b) (mentions_limiter b) (search_limiter b)
    (retweet_limiter b) (processed_tweets b) (last_processed_time b).

Definition set_processed (s : gset string) (b : TwitterBot) : TwitterBot :=
  mkBot (processor b) (user_tweets_limiter b) (mentions_limiter b)
    (search_limiter b) (retweet_limiter b) s (last_processed_time b).

Definition set_last (k : Task) (v : Z) (b : TwitterBot) : TwitterBot :=
  mkBot (processor b) (user_tweets_limiter b) (mentions_limiter b)
    (search_limiter b) (retweet_limiter b) (processed_tweets b)
    (store_task k v (last_processed_time b)).

(** The state the coroutines thread: the bot and the outside. *)
Record State := mkState {
  bot : TwitterBot;
  world : World
}.

(** The collaborators of the scheduler.  An answer may depend on everything
    that has happened so far; [elapse] is the time an awaited call takes (for
    a sleep, the time beyond the duration asked for).  Only [get_user_id]
    can raise: the other methods of the client catch every exception. *)
Record Env := mkEnv {
  elapse : World -> N;
  tc_get_user_id : World -> Result Json;
  tc_get_latest_mention_id : World -> Json;
  tc_get_mentions : World -> list Tweet;
  tc_get_user_tweets : string -> World -> list Tweet;
  tc_search_tweets : string -> World -> list Tweet;
  tc_get_tweet_metrics : string -> World -> option (option Z);
  tc_retweet : string -> World -> bool
}.

(** A coroutine: it returns or raises, and leaves a state either way. *)
Definition M (A : Type) : Type := State -> Result A * State.

Definition ret {A} (a : A) : M A := fun s => (Ret a, s).

Definition raise {A} : M A := fun s => (Raised, s).

Definition bind {A B} (m : M A) (k : A -> M B) : M B :=
  fun s =>
    match m s with
    | (Ret a, s') => k a s'
    | (Raised, s') => (Raised, s')
    end.

(** [try: m except Exception: handler] *)
Definition catch {A} (m : M A) (handler : M A) : M A :=
  fun s =>
    match m s with
    | (Ret a, s') => (Ret a, s')
    | (Raised, s') => handler s'
    end.

Notation "x <- m ;; k" := (bind m (fun x => k))
  (at level 100, m at next level, right associativity).
Notation "m ;; k" := (bind m (fun _ => k))
  (at level 100, right associativity).

Definition get_bot : M TwitterBot := fun s => (Ret (bot s), s).

Definition modify (f : TwitterBot -> TwitterBot) : M unit :=
  fun s => (Ret tt, mkState (f (bot s)) (world s)).

Definition outside (f : World -> World) : M unit :=
  fun s => (Ret tt, mkState (bot s) (f (world s))).

(** [time.time()], [datetime.now(timezone.utc)] *)
Definition now : M Z := fun s => (Ret (clock (world s)), s).

Definition logger (l : Level) : M unit := outside (log l).

(** [self.processed_tweets.add(tweet_id)] *)
Definition add_processed (tweet_id : string) : M unit :=
  modify (fun b => set_processed ({[tweet_id]} ∪ processed_tweets b) b).

(** [username in accounts] *)
Definition listed (name : string) (accounts : list string) : bool :=
  existsb (String.eqb name) accounts.

(** [main.py]: [is_tweet_recent(mention['created_at'])], with the default
    [max_age_minutes = 5]. *)
Definition is_tweet_recent (c : Created) (now_ : Z) : Result bool :=
  match c with
  | Date at_ => Ret (now_ - at_ <=? 5 * 60)
  | _ => Raised
  end.

(** The test of [process_hashtags] on the author:
    [any(username.lower() in tweet.get('username', '').lower() for ...)]. *)
Definition from_monitored (t : Tweet) : Result bool :=
  match Config.ACCOUNTS_TO_MONITOR with
  | [] => Ret false
  | _ =>
      match username t with
      | NoneName => Raised
      | NoName =>
          Ret (existsb (fun u => contains (lower u) EmptyString) Config.ACCOUNTS_TO_MONITOR)
      | Name s =>
          Ret (existsb (fun u => contains (lower u) (lower s)) Config.ACCOUNTS_TO_MONITOR)
      end
  end.

(** [float(tweet_id)] on a decimal numeral, the form of the platform's ids;
    [None] (ValueError) on any other string. *)
Fixpoint numeral_from (acc : Z) (s : string) : option Z :=
  match s with
  | EmptyString => Some acc
  | String a s' =>
      let n := Z.of_N (N_of_ascii a) in
      if (48 <=? n) && (n <=? 57) then numeral_from (10 * acc + (n - 48)) s' else None
  end.

Definition float_of_id (tweet_id : string) : option Z :=
  match tweet_id with
  | EmptyString => None
  | _ => numeral_from 0 tweet_id
  end.

(** The condition of the set comprehension of [cleanup_processed_tweets]. *)
Definition kept (current_time : Z) (tweet_id : string) : bool :=
  match float_of_id tweet_id with
  | Some v => current_time - v <? 3600
  | None => false
  end.

(** The minimum intervals written in the three task methods. *)
Definition min_interval (k : Task) : Z :=
  match k with
  | mentions => 180
  | accounts => 900
  | hashtags => 900
  end.

Section WithEnv.

Variable env : Env.

(** An awaited call to a collaborator: it is recorded, answers from the
    world it is made in, and takes some time. *)
Definition call {A} (e : Event) (answer : World -> A) : M A :=
  fun s =>
    let w := world s in
    let w1 := record e w in
    (Ret (answer w), mkState (bot s) (advance (Z.of_N (elapse env w1)) w1)).

(** [await asyncio.sleep(d)] *)
Definition sleep_for (d : Z) : M unit :=
  fun s =>
    let w1 := sleep d (world s) in
    (Ret tt, mkState (bot s) (advance (Z.of_N (elapse env w1)) w1)).

(** [await self.<limiter>.acquire()] *)
Definition acquire (l : Limiter) : M unit :=
  fun s =>
    let w := world s in
    match RateLimiter.acquire (get_limiter l (bot s)) (clock w) (Z.of_N (elapse env w)) with
    | None => (Raised, s)
    | Some (rl, slept, recorded) =>
        let w1 := if 0 <? slept then record (EvSleep slept) (log INFO w) else w in
        (Ret tt, mkState (set_limiter l rl (bot s)) (mkWorld recorded (trace w1)))
    end.

(** [MentionProcessor.process_mention]: it catches every exception. *)
Definition process_mention (t : Tweet) : M unit :=
  call (EvProcessMention t) (fun _ => tt).

(** [MentionProcessor.initialize] *)
Definition initialize : M unit :=
  b <- get_bot ;;
  if truthy (p_user_id (processor b)) then ret tt
  else
    r <- call EvGetUserId (tc_get_user_id env) ;;
    match r with
    | Raised => raise
    | Ret uid =>
        latest <- call EvLatestMentionId (tc_get_latest_mention_id env) ;;
        modify (fun b =>
          set_processor
            (mkProcessor uid latest (mention_age_limit_minutes (processor b))) b)
    end.

(** The loop of [get_mentions] over the fetched mentions; it raises when
    [fromisoformat] does. *)
Fixpoint filter_recent (now_ limit : Z) (fetched : list Tweet) : M (list Tweet) :=
  match fetched with
  | [] => ret []
  | mention :: rest =>
      match created_at mention with
      | NoDate => filter_recent now_ limit rest
      | BadDate => raise
      | Date at_ =>
          if now_ - at_ <=? limit * 60 then
            filtered <- filter_recent now_ limit rest ;;
            ret (mention :: filtered)
          else logger INFO ;; filter_recent now_ limit rest
      end
  end.

(** [MentionProcessor.get_mentions] *)
Definition get_mentions : M (list Tweet) :=
  initialize ;;
  b <- get_bot ;;
  if negb (truthy (p_user_id (processor b))) then logger ERROR ;; ret []
  else
    catch
      (fetched <- call EvGetMentions (tc_get_mentions env) ;;
       match fetched with
       | [] => ret []
       | _ =>
           t <- now ;;
           filtered <- filter_recent t (mention_age_limit_minutes (processor b)) fetched ;;
           match filtered with
           | [] => ret []
           | first :: _ =>
               logger INFO ;;
               modify (fun b =>
                 set_processor
                   (mkProcessor (p_user_id (processor b)) (JStr (id first))
                      (mention_age_limit_minutes (processor b))) b) ;;
               ret filtered
           end
       end)
      (logger ERROR ;; ret []).

(** [for mention in mentions[:3]: ...] *)
Fixpoint mentions_loop (items : list Tweet) : M unit :=
  match items with
  | [] => ret tt
  | mention :: rest =>
      b <- get_bot ;;
      if bool_decide (id mention ∈ processed_tweets b) then mentions_loop rest
      else
        t <- now ;;
        match is_tweet_recent (created_at mention) t with
        | Raised => raise
        | Ret false => mentions_loop rest
        | Ret true =>
            process_mention mention ;;
            add_processed (id mention) ;;
            sleep_for 5 ;;
            mentions_loop rest
        end
  end.

Definition mentions_body : M unit :=
  acquire Mentions ;;
  fetched <- get_mentions ;;
  logger INFO ;;
  mentions_loop (firstn 3 fetched) ;;
  t <- now ;;
  modify (set_last mentions t).

Definition process_mentions : M unit :=
  t <- now ;;
  b <- get_bot ;;
  if t - lookup_task mentions (last_processed_time b) <? 180 then logger INFO
  else mentions_body.

(** [for tweet in tweets: ...] of [process_accounts] *)
Fixpoint account_tweets_loop (user : string) (two_hours_ago : Z) (tweets : list Tweet)
  : M unit :=
  match tweets with
  | [] => ret tt
  | tweet :: rest =>
      b <- get_bot ;;
      if bool_decide (id tweet ∈ processed_tweets b)
      then account_tweets_loop user two_hours_ago rest
      else
        match created_at tweet with
        | Date at_ =>
            if at_ <=? two_hours_ago
            then logger INFO ;; account_tweets_loop user two_hours_ago rest
            else
              (if listed user Config.ACCOUNTS_TO_MONITOR
               then logger INFO ;; process_mention tweet
               else ret tt) ;;
              (if listed user Config.ACCOUNTS_TO_RETWEET
               then
                 logger INFO ;;
                 acquire Retweets ;;
                 success <- call (EvRetweet (id tweet)) (tc_retweet env (id tweet)) ;;
                 if success : bool then ret tt else logger WARNING
               else ret tt) ;;
              add_processed (id tweet) ;;
              sleep_for 15 ;;
              account_tweets_loop user two_hours_ago rest
        | _ => raise
        end
  end.

(** The body of the [try] for one account. *)
Definition check_account (user : string) : M unit :=
  logger INFO ;;
  acquire UserTweets ;;
  tweets <- call (EvGetUserTweets user) (tc_get_user_tweets env user) ;;
  match tweets with
  | [] => logger INFO
  | _ =>
      current_time <- now ;;
      account_tweets_loop user (current_time - 2 * 3600) tweets ;;
      sleep_for 30
  end.

Fixpoint accounts_loop (users : list string) : M unit :=
  match users with
  | [] => ret tt
  | user :: rest =>
      catch (check_account user) (logger ERROR ;; sleep_for 30) ;;
      accounts_loop rest
  end.

Definition accounts_body : M unit :=
  logger INFO ;;
  accounts_loop (Config.ACCOUNTS_TO_MONITOR ++ Config.ACCOUNTS_TO_RETWEET) ;;
  t <- now ;;
  modify (set_last accounts t).

Definition process_accounts : M unit :=
  t <- now ;;
  b <- get_bot ;;
  if t - lookup_task accounts (last_processed_time b) <? 900 then logger INFO
  else accounts_body.

(** [for tweet in tweets: ...] of [process_hashtags]; the [break] ends the
    loop. *)
Fixpoint hashtag_tweets_loop (processed_count : Z) (tweets : list Tweet) : M unit :=
  match tweets with
  | [] => ret tt
  | tweet :: rest =>
      b <- get_bot ;;
      if bool_decide (id tweet ∈ processed_tweets b)
      then hashtag_tweets_loop processed_count rest
      else
        match from_monitored tweet with
        | Raised => raise
        | Ret true => hashtag_tweets_loop processed_count rest
        | Ret false =>
            acquire UserTweets ;;
            metrics <- call (EvMetrics (id tweet)) (tc_get_tweet_metrics env (id tweet)) ;;
            count <-
              match metrics with
              | None => ret processed_count
              | Some likes =>
                  let like_count := match likes with Some n => n | None => 0 end in
                  logger INFO ;;
                  if Config.MIN_LIKES_THRESHOLD <=? like_count then
                    logger INFO ;;
                    process_mention tweet ;;
                    add_processed (id tweet) ;;
                    ret (processed_count + 1)
                  else logger INFO ;; ret processed_count
              end ;;
            if 3 <=? count then ret tt
            else sleep_for 10 ;; hashtag_tweets_loop count rest
        end
  end.

Fixpoint hashtags_loop (tags : list string) : M unit :=
  match tags with
  | [] => ret tt
  | hashtag :: rest =>
      logger INFO ;;
      acquire Search ;;
      let query := (hashtag +:+ " -is:retweet -is:reply lang:en")%string in
      tweets <- call (EvSearch query) (tc_search_tweets env query) ;;
      logger INFO ;;
      hashtag_tweets_loop 0 tweets ;;
      sleep_for 10 ;;
      hashtags_loop rest
  end.

Definition hashtags_body : M unit :=
  logger INFO ;;
  hashtags_loop Config.HASHTAGS_TO_MONITOR ;;
  t <- now ;;
  modify (set_last hashtags t).

Definition process_hashtags : M unit :=
  t <- now ;;
  b <- get_bot ;;
  if t - lookup_task hashtags (last_processed_time b) <? 900 then logger INFO
  else hashtags_body.

(** [cleanup_processed_tweets]: [float(tweet_id)] raises on an id that is
    not a number. *)
Definition cleanup_processed_tweets : M unit :=
  current_time <- now ;;
  b <- get_bot ;;
  if forallb (fun i => match float_of_id i with Some _ => true | None => false end)
       (elements (processed_tweets b))
  then
    modify (set_processed
              (filter (fun i => kept current_time i = true) (processed_tweets b)))
  else raise.

(** [should_process] *)
Definition should_process (k : Task) : M bool :=
  current_time <- now ;;
  b <- get_bot ;;
  let last_time := lookup_task k (last_processed_time b) in
  let interval := lookup_task k check_intervals in
  if current_time - last_time <? interval then logger INFO ;; ret false
  else ret true.

Definition process_task (k : Task) : M unit :=
  match k with
  | mentions => process_mentions
  | accounts => process_accounts
  | hashtags => process_hashtags
  end.

Definition task_body (k : Task) : M unit :=
  match k with
  | mentions => mentions_body
  | accounts => accounts_body
  | hashtags => hashtags_body
  end.

(** One [if await bot.should_process(...)] block of [main]. *)
Definition tick_task (k : Task) : M unit :=
  go <- should_process k ;;
  if go : bool then
    logger INFO ;;
    process_task k ;;
    t <- now ;;
    modify (set_last k t)
  else ret tt.

(** One iteration of the [while True] of [main]. *)
Definition tick : M unit :=
  catch
    (tick_task mentions ;;
     tick_task accounts ;;
     tick_task hashtags ;;
     cleanup_processed_tweets ;;
     logger INFO ;;
     sleep_for 60)
    (logger ERROR ;; sleep_for Config.ERROR_DELAY).

(** The first [ticks] iterations of the loop of [main]. *)
Fixpoint main (ticks : nat) : M unit :=
  match ticks with
  | O => ret tt
  | S n => tick ;; main n
  end.

End WithEnv.

(** The events of a trace that process an item. *)
Definition processed_events (events : list Event) : list Tweet :=
  omap (fun e => match e with EvProcessMention t => Some t | _ => None end) events.




(** The ids that a run of events replies to or retweets. *)
Definition handled_ids (events : list Event) : list string :=
  omap (fun e => match e with
                 | EvProcessMention t => Some (id t)
                 | EvRetweet i => Some i
                 | _ => None
                 end) events.

(** A step that leaves the dedup set as it is and handles no id but [i]. *)
Definition only_handles (i : option string) (s s' : State) : Prop :=
  exists evs, trace (world s') = trace (world s) ++ evs
    /\ processed_tweets (bot s') = processed_tweets (bot s)
    /\ Forall (fun x => i = Some x) (handled_ids evs).

Definition only_run {A} (i : option string) (m : M A) : Prop :=
  forall s r s', m s = (r, s') -> only_handles i s s'.

(** A step that handles no id of the dedup set it starts from, and drops
    nothing from the set. *)
Definition guarded_step (s s' : State) : Prop :=
  exists evs, trace (world s') = trace (world s) ++ evs
    /\ processed_tweets (bot s) ⊆ processed_tweets (bot s')
    /\ Forall (fun x => x ∉ processed_tweets (bot s)) (handled_ids evs).

Definition guarded_from {A} (s : State) (m : M A) : Prop :=
  forall r s', m s = (r, s') -> guarded_step s s'.

Definition guarded_run {A} (m : M A) : Prop := forall s, guarded_from s m.

(** A quiet platform: nothing to fetch, every call immediate. *)
Definition quiet : Env :=
  mkEnv (fun _ => 0%N) (fun _ => Ret (JStr "7")) (fun _ => JNull)
    (fun _ => []) (fun _ _ => []) (fun _ _ => []) (fun _ _ => None) (fun _ _ => true).

(** Four mentions at the clock 1700000000: two fresh ones, one of ten
    minutes and one more fresh one; every call takes a second. *)
Definition four_mentions : list Tweet :=
  [mkTweet "1001" (Date 1699999990) (Name "ann");
   mkTweet "1002" (Date 1699999980) (Name "bob");
   mkTweet "1003" (Date 1699999400) (Name "cat");
   mkTweet "1004" (Date 1699999995) (Name "dan")].

Definition busy : Env :=
  mkEnv (fun _ => 1%N) (fun _ => Ret (JStr "7")) (fun _ => JNull)
    (fun _ => four_mentions) (fun _ _ => []) (fun _ _ => [])
    (fun _ _ => None) (fun _ _ => true).

(** A new bot at the clock 1700000000. *)
Definition fresh_state : State :=
  mkState (new_bot (new_processor None)) (mkWorld 1700000000 []).

End Bot.

(** ** main.py: the order of the deque of a limiter *)


Module RateLimiterOrder.
Import RateLimiter.

(** What the deque and the history look like between two calls, beside
    [Inv]: the history is in the order of the clock and not ahead of it, and
    the deque holds at most one entry more than the capacity. *)
Record Ordered (c : Z) (rl : t) (clk : Z) (log : list Z) : Prop := {
  ord_sorted : StronglySorted Z.le log;
  ord_past : Forall (fun r => r <= clk) log;
  ord_length : Z.of_nat (length (requests rl)) <= c + 1
}.

End RateLimiterOrder.

(** ** twitter_client.py: the methods built on [_make_request] *)

Module Gateway.
Import Runtime TwitterClient.

(** [key in container]: a key of a dict, an element of a list, a part of a
    [str]; TypeError on [None], a [bool] or a number. *)
Definition py_in (key : string) (container : Json) : Result bool :=
  match container with
  | JObj fields => Ret (match dict_get key fields with Some _ => true | None => false end)
  | JArr items =>
      Ret (existsb (fun j => match j with
                             | JStr s => String.eqb s key
                             | _ => false
                             end) items)
  | JStr s => Ret (contains key s)
  | _ => Raised
  end.

(** [d.get(key, default)]; AttributeError when [d] is no dict. *)
Definition py_get (key : string) (default : Json) (d : Json) : Result Json :=
  match d with
  | JObj fields =>
      Ret (match dict_get key fields with Some v => v | None => default end)
  | _ => Raised
  end.

(** [response.get('data', {}).get(field, default) if response else default] *)
Definition data_field (field : string) (default : Json) (response : Json)
  : Result Json :=
  if truthy response then
    match py_get "data" (JObj []) response with
    | Ret data => py_get field default data
    | Raised => Raised
    end
  else Ret default.

(** The shape shared by [get_user_id_by_username], [is_user_verified],
    [get_tweet_metrics] and [get_tweet_thread]: a GET, the field of the
    payload, and the default with a logged error when an exception is
    caught. *)
Definition lookup_field (transport : Transport) (fuel : nat) (endpoint : string)
    (field : string) (default : Json) (w : World) : option (Json * World) :=
  match _make_request transport fuel GET endpoint 0 w with
  | None => None
  | Some (response, w') =>
      match data_field field default response with
      | Ret v => Some (v, w')
      | Raised => Some (default, log ERROR w')
      end
  end.

Definition get_user_id_by_username (transport : Transport) (fuel : nat)
    (username : string) : World -> option (Json * World) :=
  lookup_field transport fuel ("/users/by/username/" +:+ username) "id" JNull.

Definition is_user_verified (transport : Transport) (fuel : nat)
    (user_id : string) : World -> option (Json * World) :=
  lookup_field transport fuel ("/users/" +:+ user_id) "verified" (JBool false).

Definition get_tweet_metrics (transport : Transport) (fuel : nat)
    (tweet_id : string) : World -> option (Json * World) :=
  lookup_field transport fuel ("/tweets/" +:+ tweet_id) "public_metrics" JNull.

Definition get_tweet_thread (transport : Transport) (fuel : nat)
    (tweet_id : string) : World -> option (Json * World) :=
  lookup_field transport fuel ("/tweets/" +:+ tweet_id) "conversation_id" JNull.

(** [bool(response and 'data' in response)] *)
Definition has_data (response : Json) : Result bool :=
  if truthy response then py_in "data" response else Ret false.

(** [create_tweet]; the text and the reply target go into the body of the
    request, which the world does not record. *)
Definition create_tweet (transport : Transport) (fuel : nat) (w : World)
  : option (bool * World) :=
  match _make_request transport fuel POST "/tweets" 0 w with
  | None => None
  | Some (response, w') =>
      match has_data response with
      | Ret b => Some (b, w')
      | Raised => Some (false, log ERROR w')
      end
  end.

(** The end of [retweet]: the two tests on the response. *)
Definition retweet_outcome (response : Json) (w : World) : Result bool * World :=
  if truthy response then
    match py_in "data" response with
    | Raised => (Raised, w)
    | Ret true => (Ret true, log INFO w)
    | Ret false =>
        match py_in "errors" response with
        | Raised => (Raised, w)
        | Ret true => (Ret false, log ERROR w)
        | Ret false => (Ret false, w)
        end
    end
  else (Ret false, w).

Section Formatting.

(** [f'{value}']: the text of a value inside an f-string. *)
Variable py_format : Json -> string.

(** The shape shared by [retweet], [unretweet], [like_tweet] and
    [unlike_tweet]: the user id first, [False] without it, then one request
    on an endpoint made from it; an exception is caught, logged and gives
    [False]. *)
Definition with_user_id (transport : Transport) (fuel : nat)
    (c : Client) (w : World)
    (request : string -> World -> option (Result bool * World))
  : option (bool * Client * World) :=
  match get_user_id transport fuel c w with
  | None => None
  | Some (Raised, c1, w1) => Some (false, c1, log ERROR w1)
  | Some (Ret uid, c1, w1) =>
      if truthy uid then
        match request (py_format uid) w1 with
        | None => None
        | Some (Ret b, w2) => Some (b, c1, w2)
        | Some (Raised, w2) => Some (false, c1, log ERROR w2)
        end
      else Some (false, c1, w1)
  end.

Definition retweet (transport : Transport) (fuel : nat) (c : Client) (w : World)
    (tweet_id : string) : option (bool * Client * World) :=
  with_user_id transport fuel c w (fun uid w1 =>
    match _make_request transport fuel POST ("/users/" +:+ uid +:+ "/retweets") 0 w1 with
    | None => None
    | Some (response, w2) => Some (retweet_outcome response w2)
    end).

Definition like_tweet (transport : Transport) (fuel : nat) (c : Client) (w : World)
    (tweet_id : string) : option (bool * Client * World) :=
  with_user_id transport fuel c w (fun uid w1 =>
    match _make_request transport fuel POST ("/users/" +:+ uid +:+ "/likes") 0 w1 with
    | None => None
    | Some (response, w2) => Some (has_data response, w2)
    end).

(** ['DELETE'] is neither ['GET'] nor ['POST']. *)
Definition unretweet (transport : Transport) (fuel : nat) (c : Client) (w : World)
    (tweet_id : string) : option (bool * Client * World) :=
  with_user_id transport fuel c w (fun uid w1 =>
    match _make_request transport fuel UNSUPPORTED
            ("/users/" +:+ uid +:+ "/retweets/" +:+ tweet_id) 0 w1 with
    | None => None
    | Some (response, w2) => Some (has_data response, w2)
    end).

Definition unlike_tweet (transport : Transport) (fuel : nat) (c : Client) (w : World)
    (tweet_id : string) : option (bool * Client * World) :=
  with_user_id transport fuel c w (fun uid w1 =>
    match _make_request transport fuel UNSUPPORTED
            ("/users/" +:+ uid +:+ "/likes/" +:+ tweet_id) 0 w1 with
    | None => None
    | Some (response, w2) => Some (has_data response, w2)
    end).

End Formatting.

(** An event that is no call to the platform, or the call [method endpoint]. *)
Definition at_most_call (method : Method) (endpoint : string) (e : Event) : Prop :=
  match e with
  | EvHttp m ep => m = method /\ ep = endpoint /\ m <> UNSUPPORTED
  | _ => True
  end.

(** Total of the sleeps recorded in a run of events. *)
Fixpoint slept_total (events : list Event) : Z :=
  match events with
  | [] => 0
  | EvSleep d :: rest => d + slept_total rest
  | _ :: rest => slept_total rest
  end.

(** The events of one execution of the body that ends in the [except]
    branch and retries. *)
Definition retried (method : Method) (endpoint : string) (retry_count : Z)
  : list Event :=
  failed_attempt method endpoint ++ [EvLog INFO; EvSleep (2 ^ retry_count)].


(** A platform that answers every call with the id 7. *)
Definition id_7 : Transport :=
  fun _ _ _ =>
    Received (mkResponse 200 Absent
                (Some (JObj [("data"%string, JObj [("id"%string, JStr "7")])]))).

(** The text of a [str] value; other values do not occur in the examples. *)
Definition format_str (j : Json) : string :=
  match j with
  | JStr s => s
  | _ => EmptyString
  end.

End Gateway.

(** ** ai_client.py: the shape of a reply and the polling *)

Module Replies.
Import Runtime AIClient.

(** The statuses on which [_wait_for_run] returns. *)
Definition terminal (s : string) : bool :=
  String.eqb s "completed"
  || (String.eqb s "failed" || String.eqb s "expired" || String.eqb s "cancelled")
  || String.eqb s "requires_action".

(** A poll after which the loop sleeps and polls again. *)
Definition pending (p : Poll) : bool :=
  match p with
  | PollRaised => false
  | Status s => negb (terminal s)
  end.

(** A poll that ends the loop with the run. *)
Definition completed (p : Poll) : bool :=
  match p with
  | PollRaised => false
  | Status s => String.eqb s "completed"
  end.

(** A run that stays in progress. *)
Definition in_progress : nat -> Poll := fun _ => Status "in_progress".

(** A run that is queued, then in progress, then completed. *)
Definition third_poll_completes (i : nat) : Poll :=
  match i with
  | O => Status "queued"
  | S O => Status "in_progress"
  | _ => Status "completed"
  end.

Section Unicode.

Variable unicode_White : N -> bool.

(** Text in which whitespace occurs only as single spaces between other
    code points. *)
Record normalised (s : str) : Prop := {
  only_spaces : forall c, In c s -> is_space unicode_White c = true -> c = 32%N;
  no_run : forall before x y rest,
      s = before ++ x :: y :: rest ->
      is_space unicode_White x = true -> is_space unicode_White y = false;
  no_lead : forall x rest, s = x :: rest -> is_space unicode_White x = false;
  no_trail : forall before x, s = before ++ [x] -> is_space unicode_White x = false
}.

(** The same for a text that may begin or end with a space. *)
Fixpoint spaced (after_space : bool) (s : str) : bool :=
  match s with
  | [] => true
  | x :: s' =>
      if is_space unicode_White x
      then (x =? 32)%N && negb after_space && spaced true s'
      else spaced false s'
  end.

Definition starts_without_space (s : str) : Prop :=
  match s with
  | x :: _ => is_space unicode_White x = false
  | [] => True
  end.

(** The two properties that hold inside a text, whatever its ends. *)
Definition tidy (s : str) : Prop :=
  (forall c, In c s -> is_space unicode_White c = true -> c = 32%N)
  /\ (forall before x y rest,
        s = before ++ x :: y :: rest ->
        is_space unicode_White x = true -> is_space unicode_White y = false).

End Unicode.

End Replies.

(** ** main.py: relations between the states of a run *)

Module Runs.
Import Runtime Bot.

(** Every run of [m], whether it returns or raises, takes a state to one
    that is related to it by [R]. *)
Definition respects (R : State -> State -> Prop) {A} (m : M A) : Prop :=
  forall s r s', m s = (r, s') -> R s s'.

(** The clock does not run backwards. *)
Definition clock_le (s s' : State) : Prop :=
  clock (world s) <= clock (world s').

(** The processor has no user id, the mentions task is due, and its
    limiter has a budget. *)
Definition starved (s : State) : Prop :=
  truthy (p_user_id (processor (bot s))) = false
  /\ 0 < RateLimiter.requests_per_window (mentions_limiter (bot s))
  /\ 180 <= clock (world s) - lookup_task mentions (last_processed_time (bot s)).

(** An event of a bot that only waits: a sleep, a log line, or the lookup
    of the user id. *)
Definition only_waits (e : Event) : Prop :=
  match e with
  | EvSleep _ | EvLog _ | EvGetUserId => True
  | _ => False
  end.

(** From [s] to [s'] the bot has only waited: nothing was fetched, handled
    or stamped. *)
Definition idle_step (s s' : State) : Prop :=
  processor (bot s') = processor (bot s)
  /\ last_processed_time (bot s') = last_processed_time (bot s)
  /\ processed_tweets (bot s') = processed_tweets (bot s)
  /\ RateLimiter.requests_per_window (mentions_limiter (bot s'))
     = RateLimiter.requests_per_window (mentions_limiter (bot s))
  /\ clock (world s) <= clock (world s')
  /\ exists evs, trace (world s') = trace (world s) ++ evs
                 /\ Forall only_waits evs.

(** A platform on which the lookup of the user id raises (its payload has
    [data] without [id]); every call takes a second. *)
Definition no_user_id : Env :=
  mkEnv (fun _ => 1%N) (fun _ => Raised) (fun _ => JNull)
    (fun _ => four_mentions) (fun _ _ => four_mentions) (fun _ _ => four_mentions)
    (fun _ _ => Some (Some 100)) (fun _ _ => true).






(** An event that replies to or retweets an item does so for an item
    satisfying [P]. *)
Definition acts_only_on (P : Tweet -> Prop) (e : Event) : Prop :=
  match e with
  | EvProcessMention t => P t
  | EvRetweet i => exists t, id t = i /\ P t
  | _ => True
  end.

Definition acts (P : Tweet -> Prop) (s s' : State) : Prop :=
  exists evs, trace (world s') = trace (world s) ++ evs
              /\ Forall (acts_only_on P) evs.



(** The test of [MentionProcessor.get_mentions] on one mention: it has a
    [created_at], not older than [limit] minutes at [now_]. *)
Definition within (now_ limit : Z) (mention : Tweet) : bool :=
  match created_at mention with
  | Date at_ => now_ - at_ <=? limit * 60
  | _ => false
  end.

Definition readable (mention : Tweet) : Prop := created_at mention <> BadDate.

(** The four mentions, the second with a date that cannot be read. *)
Definition garbled : Env :=
  mkEnv (fun _ => 1%N) (fun _ => Ret (JStr "7")) (fun _ => JNull)
    (fun _ => [mkTweet "1001" (Date 1699999990) (Name "ann");
               mkTweet "1002" BadDate (Name "bob");
               mkTweet "1003" (Date 1699999400) (Name "cat");
               mkTweet "1004" (Date 1699999995) (Name "dan")])
    (fun _ _ => []) (fun _ _ => []) (fun _ _ => None) (fun _ _ => true).

(** A platform that gives no user id, and does not raise. *)
Definition anonymous : Env :=
  mkEnv (fun _ => 1%N) (fun _ => Ret JNull) (fun _ => JNull)
    (fun _ => four_mentions) (fun _ _ => []) (fun _ _ => [])
    (fun _ _ => None) (fun _ _ => true).

(** A state whose processor knows its user id. *)
Definition initialized_state : State :=
  mkState (new_bot (mkProcessor (JStr "7") JNull Config.DEFAULT_MENTION_AGE_LIMIT))
    (mkWorld 1700000000 []).

(** The budgets and the windows of the four limiters are the same. *)
Definition same_budgets (s s' : State) : Prop :=
  forall l,
    RateLimiter.requests_per_window (get_limiter l (bot s'))
    = RateLimiter.requests_per_window (get_limiter l (bot s))
    /\ RateLimiter.window_seconds (get_limiter l (bot s'))
       = RateLimiter.window_seconds (get_limiter l (bot s)).

(** A dedup set with a small id and an id of the platform, at the clock
    1700000000. *)
Definition two_ids : State :=
  mkState (set_processed {[ "1001"%string; "1871234567890123456"%string ]}
             (new_bot (new_processor None)))
    (mkWorld 1700000000 []).

End Runs.

(** * Part II: properties *)

(** ** The rate limiter *)

Module RateLimiterFacts.
Import RateLimiter.

Lemma later_than_app bound l1 l2 :
  later_than bound (l1 ++ l2) = (later_than bound l1 + later_than bound l2)%nat.
Proof. unfold later_than. now rewrite List.filter_app, length_app. Qed.

Lemma later_than_le_length bound l : (later_than bound l <= length l)%nat.
Proof.
  unfold later_than. induction l as [|e l IH]; simpl; [lia|].
  destruct (bound <? e); simpl; lia.
Qed.

Lemma later_than_none bound l :
  Forall (fun r => r <= bound) l -> later_than bound l = 0%nat.
Proof.
  unfold later_than. induction 1 as [|e l He _ IH]; simpl; [reflexivity|].
  destruct (Z.ltb_spec bound e); [lia | exact IH].
Qed.

Lemma later_than_mono b b' l :
  b <= b' -> (later_than b' l <= later_than b l)%nat.
Proof.
  intros Hb. unfold later_than. induction l as [|e l IH]; simpl; [lia|].
  destruct (Z.ltb_spec b' e), (Z.ltb_spec b e); simpl; lia.
Qed.

Lemma window_le_later_than t w l :
  (admitted_in_window t w l <= later_than t l)%nat.
Proof.
  unfold admitted_in_window, later_than, in_window.
  induction l as [|e l IH]; simpl; [lia|].
  destruct (t <? e); simpl; [destruct (e <=? t + w); simpl; lia | lia].
Qed.

Lemma admitted_in_window_app t w l1 l2 :
  admitted_in_window t w (l1 ++ l2)
  = (admitted_in_window t w l1 + admitted_in_window t w l2)%nat.
Proof. unfold admitted_in_window. now rewrite List.filter_app, length_app. Qed.

(** The loop pops a prefix of expired entries and nothing else. *)
Lemma popleft_expired_split now w q :
  exists gone, q = gone ++ popleft_expired now w q
               /\ Forall (fun r => r <= now - w) gone.
Proof.
  induction q as [|r q IH]; simpl.
  - exists []. split; [reflexivity | constructor].
  - destruct (Z.leb_spec r (now - w)) as [Hr|Hr].
    + destruct IH as (gone & Hq & Hg). exists (r :: gone). split.
      * simpl. now rewrite <- Hq.
      * now constructor.
    + exists []. split; [reflexivity | constructor].
Qed.

Lemma popleft_expired_length now w q :
  (length (popleft_expired now w q) <= length q)%nat.
Proof.
  induction q as [|r q IH]; simpl; [lia|].
  destruct (r <=? now - w); simpl; lia.
Qed.

Lemma Inv_init c w clk : 0 < c -> Inv c w (init c w) clk [].
Proof.
  intros Hc. constructor; simpl; try reflexivity.
  - exists []. split; [reflexivity | constructor].
  - intros; lia.
  - intros; unfold admitted_in_window; simpl; lia.
Qed.

Lemma Forall_le_weaken (b b' : Z) l :
  b <= b' -> Forall (fun r => r <= b) l -> Forall (fun r => r <= b') l.
Proof.
  intros Hb Hl. induction Hl as [|r l Hr _ IH]; constructor; [lia | exact IH].
Qed.

(** Appending [recorded] keeps the budget when at most [c - 1] earlier
    instants are later than [recorded - w]. *)
Lemma budget_append c w log recorded :
  (forall t, Z.of_nat (admitted_in_window t w log) <= c) ->
  Z.of_nat (later_than (recorded - w) log) <= c - 1 ->
  forall t, Z.of_nat (admitted_in_window t w (log ++ [recorded])) <= c.
Proof.
  intros Hold Hrecent t. rewrite admitted_in_window_app.
  unfold admitted_in_window at 2, in_window. simpl.
  destruct (Z.ltb_spec t recorded) as [Ht|Ht]; simpl.
  - destruct (Z.leb_spec recorded (t + w)) as [Hw|Hw]; simpl.
    + pose proof (window_le_later_than t w log).
      pose proof (later_than_mono (recorded - w) t log ltac:(lia)). lia.
    + specialize (Hold t). lia.
  - specialize (Hold t). lia.
Qed.

(** One call from a state that satisfies the invariant: it returns, it has
    slept for [max(wait_time, 0)] at most once, it has appended the instant
    it recorded, and the invariant holds again. *)
Lemma acquire_step c w rl clk log gap lag :
  0 < c -> 0 <= gap -> 0 <= lag -> Inv c w rl clk log ->
  exists rl' slept recorded,
    acquire rl (clk + gap) lag = Some (rl', slept, recorded)
    /\ recorded = clk + gap + slept + lag /\ 0 <= slept
    /\ requests rl' = popleft_expired (clk + gap) w (requests rl) ++ [recorded]
    /\ Inv c w rl' recorded (log ++ [recorded]).
Proof.
  intros Hc Hgap Hlag [Hcap Hwin (gone & Hlog & Hgone) Hlen Hbud].
  unfold acquire. rewrite Hcap, Hwin.
  set (now := clk + gap).
  destruct (popleft_expired_split now w (requests rl)) as (exp & Hq & Hexp).
  pose proof (Hlen now ltac:(lia)) as Hk.
  set (q := popleft_expired now w (requests rl)) in *.
  assert (Hold : forall b, now - w <= b -> later_than b log = later_than b q).
  { intros b Hb. rewrite Hlog, Hq, !later_than_app.
    rewrite (later_than_none b gone), (later_than_none b exp); [lia | |].
    - eapply Forall_le_weaken; [|exact Hexp]. lia.
    - eapply Forall_le_weaken; [|exact Hgone]. lia. }
  assert (Hgone' : forall b, now <= b ->
            exists gone', log = gone' ++ q /\ Forall (fun r => r <= b - w) gone').
  { intros b Hb. exists (gone ++ exp). split.
    - rewrite Hlog, Hq. now rewrite <- !app_assoc.
    - apply Forall_app. split; eapply Forall_le_weaken; eauto; lia. }
  destruct (Z.leb_spec c (Z.of_nat (length q))) as [Hfull|Hfree].
  - destruct q as [|r0 tl] eqn:Eq; [simpl in Hfull; lia|].
    set (slept := if 0 <? r0 + w - now then r0 + w - now else 0).
    assert (Hs : 0 <= slept /\ r0 + w - now <= slept).
    { unfold slept. destruct (Z.ltb_spec 0 (r0 + w - now)); lia. }
    exists (mk c w ((r0 :: tl) ++ [now + slept + lag])), slept, (now + slept + lag).
    split; [reflexivity|]. split; [unfold now; lia|]. split; [lia|].
    split; [reflexivity|].
    constructor; simpl; try reflexivity.
    + destruct (Hgone' (now + slept + lag) ltac:(lia)) as (g & Hg1 & Hg2).
      exists g. split; [|exact Hg2]. rewrite Hg1. now rewrite <- app_assoc.
    + intros now' Hnow'. destruct (Z.leb_spec r0 (now' - w)); [|lia].
      pose proof (popleft_expired_length now' w (tl ++ [now + slept + lag])) as Hl.
      rewrite length_app in Hl. simpl in *. lia.
    + apply budget_append; [exact Hbud|].
      rewrite Hold by lia. unfold later_than. simpl.
      destruct (Z.ltb_spec (now + slept + lag - w) r0); [lia|].
      pose proof (later_than_le_length (now + slept + lag - w) tl) as Hl.
      unfold later_than in Hl. simpl in *. lia.
  - exists (mk c w (q ++ [now + lag])), 0, (now + lag).
    split; [reflexivity|]. split; [unfold now; lia|]. split; [lia|].
    split; [reflexivity|].
    constructor; simpl; try reflexivity.
    + destruct (Hgone' (now + lag) ltac:(lia)) as (g & Hg1 & Hg2).
      exists g. split; [|exact Hg2]. rewrite Hg1. now rewrite <- app_assoc.
    + intros now' Hnow'.
      pose proof (popleft_expired_length now' w (q ++ [now + lag])) as Hl.
      rewrite length_app in Hl. simpl in *. lia.
    + apply budget_append; [exact Hbud|].
      rewrite Hold by lia.
      pose proof (later_than_le_length (now + lag - w) q). lia.
Qed.

Lemma run_Inv c w sched :
  0 < c -> monotone sched ->
  forall rl clk log, Inv c w rl clk log ->
  exists rl' clk' log',
    run rl clk sched log = Some (rl', clk', log')
    /\ length log' = (length log + length sched)%nat
    /\ Inv c w rl' clk' log'.
Proof.
  intros Hc Hm. induction Hm as [|[gap lag] rest [Hg Hl] _ IH];
    intros rl clk log HI; simpl in *.
  - exists rl, clk, log. split; [reflexivity|]. split; [lia | exact HI].
  - destruct (acquire_step c w rl clk log gap lag Hc Hg Hl HI)
      as (rl1 & slept & rec & Hacq & _ & _ & _ & HI1).
    rewrite Hacq. destruct (IH _ _ _ HI1) as (rl' & clk' & log' & Hrun & Hlen & HI').
    exists rl', clk', log'. split; [exact Hrun|]. split; [|exact HI'].
    rewrite Hlen, length_app. simpl. lia.
Qed.

(** C1. A limiter built with capacity [c > 0] and window [w > 0] and used by
    one caller after the other: every sequence of [acquire] calls returns,
    each call records exactly one instant, and no window of length [w]
    (half-open, as the limiter's own) holds more than [c] recorded instants.
    From the state reached, one more call returns after a sleep that is
    never negative, appends the instant it recorded to the deque, and the
    budget holds with that instant included. *)
Theorem acquire_never_exceeds_budget (c w clock0 : Z) (sched : list (Z * Z)) :
  0 < c -> 0 < w -> monotone sched ->
  exists rl clk admitted,
    run (init c w) clock0 sched [] = Some (rl, clk, admitted)
    /\ length admitted = length sched
    /\ (forall t, Z.of_nat (admitted_in_window t w admitted) <= c)
    /\ (forall gap lag, 0 <= gap -> 0 <= lag ->
        exists rl' slept recorded,
          acquire rl (clk + gap) lag = Some (rl', slept, recorded)
          /\ recorded = clk + gap + slept + lag /\ 0 <= slept
          /\ requests rl' = popleft_expired (clk + gap) w (requests rl) ++ [recorded]
          /\ forall t, Z.of_nat (admitted_in_window t w (admitted ++ [recorded])) <= c).
Proof.
  intros Hc _ Hm.
  destruct (run_Inv c w sched Hc Hm (init c w) clock0 [] (Inv_init c w clock0 Hc))
    as (rl & clk & admitted & Hrun & Hlen & HI).
  exists rl, clk, admitted. split; [exact Hrun|]. split; [exact Hlen|].
  split; [exact (inv_budget _ _ _ _ _ HI)|].
  intros gap lag Hg Hl.
  destruct (acquire_step c w rl clk admitted gap lag Hc Hg Hl HI)
    as (rl' & slept & rec & Hacq & Hrec & Hs & Hreq & HI').
  exists rl', slept, rec. repeat split; try assumption.
  exact (inv_budget _ _ _ _ _ HI').
Qed.

(** Three calls in a row on a limiter of capacity 2 and window 10. *)
Lemma acquire_never_exceeds_budget_witness :
  0 < 2 /\ 0 < 10 /\ monotone [(0, 0); (0, 0); (1, 0)]
  /\ exists rl clk admitted,
    run (init 2 10) 0 [(0, 0); (0, 0); (1, 0)] [] = Some (rl, clk, admitted)
    /\ length admitted = 3%nat
    /\ (forall t, Z.of_nat (admitted_in_window t 10 admitted) <= 2)
    /\ (forall gap lag, 0 <= gap -> 0 <= lag ->
        exists rl' slept recorded,
          acquire rl (clk + gap) lag = Some (rl', slept, recorded)
          /\ recorded = clk + gap + slept + lag /\ 0 <= slept
          /\ requests rl' = popleft_expired (clk + gap) 10 (requests rl) ++ [recorded]
          /\ forall t, Z.of_nat (admitted_in_window t 10 (admitted ++ [recorded])) <= 2).
Proof.
  assert (Hm : monotone [(0, 0); (0, 0); (1, 0)]).
  { repeat constructor; simpl; lia. }
  split; [lia|]. split; [lia|]. split; [exact Hm|].
  apply (acquire_never_exceeds_budget 2 10 0 [(0, 0); (0, 0); (1, 0)]); [lia | lia | exact Hm].
Defined.

(** The third call above finds the budget used up and sleeps until the
    oldest instant leaves the window. *)
Example run_sleeps_when_full :
  run (init 2 10) 0 [(0, 0); (0, 0); (1, 0)] []
  = Some (mk 2 10 [0; 0; 10], 10, [0; 0; 10]).
Proof. reflexivity. Qed.

(** With capacity 0 the first call raises IndexError on the empty deque. *)
Example acquire_capacity_zero : acquire (init 0 10) 0 0 = None.
Proof. reflexivity. Qed.

(** The bound is one of half-open windows: a closed interval of length [w]
    can hold an instant at each of its two ends. *)
Example closed_interval_holds_both_ends :
  run (init 1 10) 0 [(0, 0); (0, 0)] [] = Some (mk 1 10 [0; 10], 10, [0; 10])
  /\ admitted_in_closed 0 10 [0; 10] = 2%nat
  /\ admitted_in_window 0 10 [0; 10] = 1%nat.
Proof. repeat split. Qed.

End RateLimiterFacts.

(** ** The backoff requester *)

Module TwitterClientFacts.
Import Runtime TwitterClient.

Lemma length_trace_record e w :
  length (trace (record e w)) = S (length (trace w)).
Proof. unfold record. simpl. rewrite length_app. simpl. lia. Qed.

Lemma length_trace_sleep d w :
  length (trace (sleep d w)) = S (length (trace w)).
Proof. unfold sleep, advance. simpl. apply length_trace_record. Qed.

Lemma length_trace_log l w :
  length (trace (log l w)) = S (length (trace w)).
Proof. apply length_trace_record. Qed.

(** One failed attempt with retries left: the error is logged, the call
    sleeps [2 ^ retry_count] seconds and runs again with the counter
    incremented. *)
Lemma failed_attempt_retries transport fuel method endpoint retry_count w :
  method = UNSUPPORTED \/ classify (transport method endpoint w) = Failed ->
  retry_count < Config.MAX_RETRIES ->
  exists w1,
    _make_request transport (S fuel) method endpoint retry_count w
    = _make_request transport fuel method endpoint (retry_count + 1) w1
    /\ trace w1 = trace w ++ failed_attempt method endpoint
                          ++ [EvLog INFO; EvSleep (2 ^ retry_count)]
    /\ clock w1 = clock w + 2 ^ retry_count.
Proof.
  intros Hf Hrc. apply Z.ltb_lt in Hrc.
  destruct method; simpl;
    try (destruct Hf as [Hf|Hf]; [discriminate Hf|]; rewrite Hf); rewrite Hrc;
    eexists; (split; [reflexivity|]); simpl; rewrite <- ?app_assoc; split; reflexivity.
Qed.

(** The last failed attempt: the error is logged and [None] returned. *)
Lemma failed_attempt_gives_up transport fuel method endpoint retry_count w :
  method = UNSUPPORTED \/ classify (transport method endpoint w) = Failed ->
  Config.MAX_RETRIES <= retry_count ->
  exists w1,
    _make_request transport (S fuel) method endpoint retry_count w = Some (JNull, w1)
    /\ trace w1 = trace w ++ failed_attempt method endpoint
    /\ clock w1 = clock w.
Proof.
  intros Hf Hrc. apply Z.ltb_ge in Hrc.
  destruct method; simpl;
    try (destruct Hf as [Hf|Hf]; [discriminate Hf|]; rewrite Hf); rewrite Hrc;
    eexists; (split; [reflexivity|]); simpl; rewrite <- ?app_assoc; split; reflexivity.
Qed.

Lemma always_fails_here transport method endpoint after w :
  always_fails transport method endpoint after ->
  (length (trace after) <= length (trace w))%nat ->
  method = UNSUPPORTED \/ classify (transport method endpoint w) = Failed.
Proof. intros [H|H] Hl; [left; exact H | right; apply H; exact Hl]. Qed.

(** A call whose attempts all fail: four attempts, sleeps of 1, 2 and 4
    seconds between them, then [None]. *)
Lemma four_failures_then_none transport method endpoint w fuel :
  always_fails transport method endpoint w ->
  (4 <= fuel)%nat ->
  exists w',
    _make_request transport fuel method endpoint 0 w = Some (JNull, w')
    /\ trace w' = four_failures method endpoint (trace w)
    /\ clock w' = clock w + 7.
Proof.
  intros Hall Hfuel.
  destruct fuel as [|[|[|[|fuel]]]]; try lia.
  destruct (failed_attempt_retries transport (S (S (S fuel))) method endpoint 0 w)
    as (w1 & E1 & T1 & K1);
    [eapply always_fails_here; [exact Hall | lia] | unfold Config.MAX_RETRIES; lia |].
  destruct (failed_attempt_retries transport (S (S fuel)) method endpoint 1 w1)
    as (w2 & E2 & T2 & K2);
    [eapply always_fails_here; [exact Hall | rewrite T1, length_app; lia]
    | unfold Config.MAX_RETRIES; lia |].
  destruct (failed_attempt_retries transport (S fuel) method endpoint 2 w2)
    as (w3 & E3 & T3 & K3);
    [eapply always_fails_here; [exact Hall | rewrite T2, T1, !length_app; lia]
    | unfold Config.MAX_RETRIES; lia |].
  destruct (failed_attempt_gives_up transport fuel method endpoint 3 w3)
    as (w4 & E4 & T4 & K4);
    [eapply always_fails_here; [exact Hall | rewrite T3, T2, T1, !length_app; lia]
    | unfold Config.MAX_RETRIES; lia |].
  exists w4. split.
  - change (0 + 1) with 1 in E1. change (1 + 1) with 2 in E2.
    change (2 + 1) with 3 in E3.
    rewrite E1, E2, E3. exact E4.
  - split.
    + rewrite T4, T3, T2, T1. unfold four_failures.
      rewrite <- !app_assoc. reflexivity.
    + rewrite K4, K3, K2, K1. simpl. lia.
Qed.

(** C2. A request whose every attempt fails with a generic error is
    attempted four times in all (the first attempt and [MAX_RETRIES = 3]
    retries), sleeps [2 ^ 0], [2 ^ 1] and [2 ^ 2] seconds before the
    retries, and returns [None]; it does not raise and needs no more than
    four executions of the body. *)
Theorem make_request_four_attempts_then_none
    (transport : Transport) (method : Method) (endpoint : string)
    (w : World) (fuel : nat) :
  (method = UNSUPPORTED
   \/ forall w', classify (transport method endpoint w') = Failed) ->
  (4 <= fuel)%nat ->
  exists w',
    _make_request transport fuel method endpoint 0 w = Some (JNull, w')
    /\ trace w' = trace w
         ++ failed_attempt method endpoint ++ [EvLog INFO; EvSleep (2 ^ 0)]
         ++ failed_attempt method endpoint ++ [EvLog INFO; EvSleep (2 ^ 1)]
         ++ failed_attempt method endpoint ++ [EvLog INFO; EvSleep (2 ^ 2)]
         ++ failed_attempt method endpoint
    /\ (method <> UNSUPPORTED ->
        http_calls (trace w') = (http_calls (trace w) + 4)%nat)
    /\ Config.MAX_RETRIES = 3.
Proof.
  intros Hall Hfuel.
  destruct (four_failures_then_none transport method endpoint w fuel) as (w' & E & T & _).
  - destruct Hall as [H|H]; [left; exact H | right; intros w0 _; apply H].
  - exact Hfuel.
  - exists w'. split; [exact E|]. split; [exact T|]. split; [|reflexivity].
    intros Hm. rewrite T. unfold four_failures, http_calls.
    rewrite !List.filter_app, !length_app.
    destruct method; [| |congruence]; simpl; lia.
Qed.

(** A GET on a platform that cannot be reached. *)
Lemma make_request_four_attempts_then_none_witness :
  (GET = UNSUPPORTED
   \/ forall w', classify (unreachable GET "/users/me" w') = Failed)
  /\ (4 <= 4)%nat
  /\ exists w',
    _make_request unreachable 4 GET "/users/me" 0 (mkWorld 0 []) = Some (JNull, w')
    /\ trace w' = trace (mkWorld 0 [])
         ++ failed_attempt GET "/users/me" ++ [EvLog INFO; EvSleep (2 ^ 0)]
         ++ failed_attempt GET "/users/me" ++ [EvLog INFO; EvSleep (2 ^ 1)]
         ++ failed_attempt GET "/users/me" ++ [EvLog INFO; EvSleep (2 ^ 2)]
         ++ failed_attempt GET "/users/me"
    /\ (GET <> UNSUPPORTED ->
        http_calls (trace w') = (http_calls (trace (mkWorld 0 [])) + 4)%nat)
    /\ Config.MAX_RETRIES = 3.
Proof.
  assert (H : GET = UNSUPPORTED
              \/ forall w', classify (unreachable GET "/users/me" w') = Failed).
  { right. intros w'. reflexivity. }
  split; [exact H|]. split; [lia|].
  apply (make_request_four_attempts_then_none unreachable GET "/users/me"
           (mkWorld 0 []) 4 H). lia.
Defined.

Example unreachable_trace :
  _make_request unreachable 4 GET "/users/me" 0 (mkWorld 0 [])
  = Some (JNull,
          mkWorld 7
            [EvHttp GET "/users/me"; EvLog ERROR; EvLog INFO; EvSleep 1;
             EvHttp GET "/users/me"; EvLog ERROR; EvLog INFO; EvSleep 2;
             EvHttp GET "/users/me"; EvLog ERROR; EvLog INFO; EvSleep 4;
             EvHttp GET "/users/me"; EvLog ERROR]).
Proof. reflexivity. Qed.

(** Three units of fuel are not enough for it. *)
Example unreachable_needs_four :
  _make_request unreachable 3 GET "/users/me" 0 (mkWorld 0 []) = None.
Proof. reflexivity. Qed.

(** C3. A request that receives 429 with a reset time sleeps
    [max(reset_time - now, 60)] seconds, which is 60 when the reset is 30
    seconds ahead, and then runs the same call once more with the retry
    counter back at 0, whatever the counter was: when that attempt succeeds
    its payload is returned after two calls to the platform in all, and
    when every later attempt fails the four attempts of a fresh call are
    still made. *)
Theorem rate_limit_wait_then_one_fresh_attempt
    (transport : Transport) (method : Method) (endpoint : string)
    (retry_count reset_time : Z) (w : World) :
  method <> UNSUPPORTED ->
  classify (transport method endpoint w) = RateLimited (Some reset_time) ->
  let wait := Z.max (reset_time - clock w) 60 in
  let w1 := after_rate_limit method endpoint reset_time w in
  60 <= wait
  /\ (reset_time = clock w + 30 -> wait = 60)
  /\ trace w1 = trace w ++ [EvHttp method endpoint; EvLog WARNING; EvSleep wait]
  /\ clock w1 = clock w + wait
  /\ (forall fuel,
        _make_request transport (S fuel) method endpoint retry_count w
        = _make_request transport fuel method endpoint 0 w1)
  /\ (forall fuel payload,
        classify (transport method endpoint w1) = Ok payload ->
        _make_request transport (S (S fuel)) method endpoint retry_count w
        = Some (payload, record (EvHttp method endpoint) w1))
  /\ (forall fuel,
        always_fails transport method endpoint w1 -> (5 <= fuel)%nat ->
        exists w',
          _make_request transport fuel method endpoint retry_count w = Some (JNull, w')
          /\ trace w' = four_failures method endpoint (trace w1)).
Proof.
  intros Hm H429 wait w1.
  assert (Hstep : forall fuel,
            _make_request transport (S fuel) method endpoint retry_count w
            = _make_request transport fuel method endpoint 0 w1).
  { intros fuel. destruct method; [| |congruence]; simpl; rewrite H429; reflexivity. }
  split; [unfold wait; lia|]. split; [unfold wait; lia|].
  split.
  { unfold w1, after_rate_limit, sleep, advance, log, record. simpl.
    rewrite <- !app_assoc. reflexivity. }
  split; [reflexivity|]. split; [exact Hstep|]. split.
  - intros fuel payload Hok. rewrite Hstep.
    destruct method; [| |congruence]; simpl; rewrite Hok; reflexivity.
  - intros fuel Hall Hfuel. destruct fuel as [|fuel]; [lia|].
    rewrite Hstep.
    destruct (four_failures_then_none transport method endpoint w1 fuel Hall)
      as (w' & E & T & _); [lia|].
    exists w'. split; assumption.
Qed.

(** A platform that answers 429 at the clock 1000 with a reset at 1030, to a
    call that had used up its retries. *)
Lemma rate_limit_wait_then_one_fresh_attempt_witness :
  GET <> UNSUPPORTED
  /\ classify (limited_once GET "/users/me" (mkWorld 1000 [])) = RateLimited (Some 1030)
  /\ _make_request limited_once 2 GET "/users/me" 3 (mkWorld 1000 [])
     = Some (JObj [],
             mkWorld 1060 [EvHttp GET "/users/me"; EvLog WARNING; EvSleep 60;
                           EvHttp GET "/users/me"]).
Proof.
  assert (Hm : GET <> UNSUPPORTED) by discriminate.
  assert (H429 : classify (limited_once GET "/users/me" (mkWorld 1000 []))
                 = RateLimited (Some 1030)) by reflexivity.
  split; [exact Hm|]. split; [exact H429|].
  destruct (rate_limit_wait_then_one_fresh_attempt limited_once GET "/users/me"
              3 1030 (mkWorld 1000 []) Hm H429) as (_ & _ & _ & _ & _ & Hok & _).
  exact (Hok 0%nat (JObj []) eq_refl).
Defined.

(** C10, as the code has it. Once a call of [get_user_id] has returned an
    id that is true in Python's sense (not [None], not empty), every later
    call returns that id and leaves the client and the world as they are:
    no request is made, not even with no fuel at all. *)
Theorem get_user_id_caches_truthy_id
    (transport : Transport) (fuel : nat) (c c' : Client) (w w' : World) (v : Json) :
  get_user_id transport fuel c w = Some (Ret v, c', w') ->
  truthy v = true ->
  forall fuel'' w'',
    get_user_id transport fuel'' c' w'' = Some (Ret v, c', w'').
Proof.
  unfold get_user_id. intros Hcall Hv fuel'' w''.
  destruct (truthy (user_id c)) eqn:Hc.
  - injection Hcall as <- <- <-. rewrite Hc. reflexivity.
  - destruct (_make_request transport fuel GET "/users/me" 0 w) as [[response w1]|];
      [|discriminate].
    destruct (extract_user_id response) as [[v0|]|]; try discriminate.
    + injection Hcall as <- <- <-. simpl. rewrite Hv. reflexivity.
    + injection Hcall as <- <- <-. discriminate Hv.
Qed.

(** The platform answers with the id 42; the second call asks nothing. *)
Lemma get_user_id_caches_truthy_id_witness :
  get_user_id empty_then_42 1 (mkClient JNull) (mkWorld 0 [EvLog INFO])
  = Some (Ret (JStr "42"), mkClient (JStr "42"),
          mkWorld 0 [EvLog INFO; EvHttp GET "/users/me"])
  /\ truthy (JStr "42") = true
  /\ forall fuel'' w'',
       get_user_id empty_then_42 fuel'' (mkClient (JStr "42")) w''
       = Some (Ret (JStr "42"), mkClient (JStr "42"), w'').
Proof.
  split; [reflexivity|]. split; [reflexivity|].
  exact (get_user_id_caches_truthy_id empty_then_42 1 (mkClient JNull) _
           (mkWorld 0 [EvLog INFO]) _ (JStr "42") eq_refl eq_refl).
Defined.

(** C10 as stated fails for an id that is not [None] but false in Python's
    sense: the platform answers the first call with the empty id, which is
    returned; the second call asks the platform again and returns another
    id. *)
Lemma get_user_id_empty_id_is_fetched_again :
  exists c1 w1 c2 w2,
    get_user_id empty_then_42 1 (mkClient JNull) (mkWorld 0 [])
    = Some (Ret (JStr EmptyString), c1, w1)
    /\ JStr EmptyString <> JNull
    /\ get_user_id empty_then_42 1 c1 w1 = Some (Ret (JStr "42"), c2, w2)
    /\ JStr "42" <> JStr EmptyString
    /\ http_calls (trace w1) = 1%nat
    /\ http_calls (trace w2) = 2%nat.
Proof.
  do 4 eexists. split; [reflexivity|]. split; [discriminate|].
  split; [reflexivity|]. split; [discriminate|]. split; reflexivity.
Qed.

End TwitterClientFacts.

(** ** The AI responder *)

Module AIClientFacts.
Import Runtime AIClient.

(** *** The reply is cut to the length of a tweet *)



(** [get_response] returns the cut, cleaned text of the assistant's first
    text content once the run has completed. *)
Lemma get_response_returns_cut_reply nd ws polls data raw rest_contents rest_messages :
  polls 0%nat = Status "completed" ->
  data = mkMessage "assistant" (mkContent "text" raw :: rest_contents) :: rest_messages ->
  get_response nd ws (mkBackend false polls (Ret data)) 1
  = Some (Some (truncate (clean_response nd ws raw))).
Proof. intros Hp ->. unfold get_response. simpl. rewrite Hp. reflexivity. Qed.

(** *** [clean_response] looks at the tables only where the text does *)

Section Agreement.

Variables nd ws nd' ws' : N -> bool.
Variable D : N -> Prop.
Hypothesis digits_agree : forall c, D c -> is_digit nd c = is_digit nd' c.
Hypothesis spaces_agree : forall c, D c -> is_space ws c = is_space ws' c.

Lemma member_agrees k x : D x -> member nd ws k x = member nd' ws' k x.
Proof. intros Hx. destruct k; simpl; auto. Qed.

Lemma run_length_agrees k s :
  Forall D s -> run_length nd ws k s = run_length nd' ws' k s.
Proof.
  induction 1 as [|x s Hx _ IH]; simpl; [reflexivity|].
  rewrite (member_agrees k x Hx), IH. reflexivity.
Qed.

Lemma backtrack_agrees (k k' : str -> option (str * str)) capt s least n :
  (forall s', Forall D s' -> k s' = k' s') ->
  Forall D s ->
  backtrack k capt s least n = backtrack k' capt s least n.
Proof.
  intros Hk Hs. induction n as [|n IH]; simpl;
    rewrite (Hk _ (Forall_drop _ _ _ Hs)).
  - reflexivity.
  - rewrite IH. reflexivity.
Qed.

Lemma match_here_agrees p :
  forall s, Forall D s -> match_here nd ws p s = match_here nd' ws' p s.
Proof.
  induction p as [|it p IH]; intros s Hs; simpl; [reflexivity|].
  destruct (quant it).
  - destruct Hs as [|x s Hx Hs]; [reflexivity|].
    rewrite (member_agrees _ x Hx), (IH s Hs). reflexivity.
  - rewrite (run_length_agrees _ s Hs). apply backtrack_agrees; assumption.
  - rewrite (run_length_agrees _ s Hs). apply backtrack_agrees; assumption.
Qed.

Lemma backtrack_stays (k : str -> option (str * str)) capt s least n g rest :
  (forall s' g' rest', Forall D s' -> k s' = Some (g', rest') ->
                       Forall D g' /\ Forall D rest') ->
  Forall D s ->
  backtrack k capt s least n = Some (g, rest) ->
  Forall D g /\ Forall D rest.
Proof.
  intros Hk Hs. induction n as [|n IH]; simpl.
  - destruct (0 <? least)%nat; [discriminate|].
    destruct (k (drop 0 s)) as [[g' rest']|] eqn:E; [|discriminate].
    intros [= <- <-]. destruct (Hk _ _ _ (Forall_drop _ _ _ Hs) E) as [Hg Hr].
    split; [|exact Hr]. destruct capt; [constructor | exact Hg].
  - destruct (S n <? least)%nat; [discriminate|].
    destruct (k (drop (S n) s)) as [[g' rest']|] eqn:E; [|exact IH].
    intros [= <- <-]. destruct (Hk _ _ _ (Forall_drop _ _ _ Hs) E) as [Hg Hr].
    split; [|exact Hr]. destruct capt; [apply Forall_take; exact Hs | exact Hg].
Qed.

Lemma match_here_stays p :
  forall s g rest, Forall D s -> match_here nd ws p s = Some (g, rest) ->
                   Forall D g /\ Forall D rest.
Proof.
  induction p as [|it p IH]; intros s g rest Hs; simpl.
  - intros [= <- <-]. split; [constructor | exact Hs].
  - destruct (quant it).
    + destruct Hs as [|x s Hx Hs]; [discriminate|].
      destruct (member nd ws (cls it) x); [|discriminate].
      destruct (match_here nd ws p s) as [[g' rest']|] eqn:E; [|discriminate].
      intros [= <- <-]. destruct (IH _ _ _ Hs E) as [Hg Hr].
      split; [|exact Hr]. destruct (captured it); [repeat constructor; exact Hx | exact Hg].
    + apply backtrack_stays; assumption.
    + apply backtrack_stays; assumption.
Qed.

Lemma sub_from_agrees p r fuel :
  Forall D (expand r []) ->
  forall s, Forall D s ->
    sub_from nd ws fuel p r s = sub_from nd' ws' fuel p r s
    /\ Forall D (sub_from nd ws fuel p r s).
Proof.
  intros Hr. induction fuel as [|fuel IH]; intros s Hs; simpl; [split; trivial|].
  destruct Hs as [|x s Hx Hs]; [split; [reflexivity | constructor]|].
  rewrite <- (match_here_agrees p (x :: s)) by (constructor; assumption).
  destruct (match_here nd ws p (x :: s)) as [[g rest]|] eqn:E.
  - destruct (match_here_stays p _ _ _ (Forall_cons_2 _ _ _ Hx Hs) E) as [Hg Hrest].
    destruct (IH rest Hrest) as [E' H']. rewrite E'. split; [reflexivity|].
    apply Forall_app. split; [|rewrite <- E'; exact H'].
    destruct r; simpl in *; [constructor | exact Hg | exact Hr].
  - destruct (IH s Hs) as [E' H']. rewrite E'. split; [reflexivity|].
    constructor; [exact Hx | rewrite <- E'; exact H'].
Qed.

Lemma re_sub_agrees p r s :
  Forall D (expand r []) -> Forall D s ->
  re_sub nd ws p r s = re_sub nd' ws' p r s /\ Forall D (re_sub nd ws p r s).
Proof. intros Hr Hs. unfold re_sub. apply sub_from_agrees; assumption. Qed.

Lemma lstrip_agrees s :
  Forall D s -> lstrip ws s = lstrip ws' s /\ Forall D (lstrip ws s).
Proof.
  induction 1 as [|x s Hx Hs IH]; simpl; [split; [reflexivity | constructor]|].
  rewrite <- (spaces_agree x Hx). destruct (is_space ws x); [exact IH|].
  split; [reflexivity | constructor; assumption].
Qed.

Lemma strip_agrees s : Forall D s -> strip ws s = strip ws' s.
Proof.
  intros Hs. unfold strip. destruct (lstrip_agrees s Hs) as [E H]. rewrite <- E.
  assert (Hrev : Forall D (rev (lstrip ws s))) by (apply Forall_rev; exact H).
  destruct (lstrip_agrees _ Hrev) as [E' _]. rewrite E'. reflexivity.
Qed.

Lemma clean_response_agrees text :
  D 32%N -> Forall D text ->
  clean_response nd ws text = clean_response nd' ws' text.
Proof.
  intros Hsp Ht. unfold clean_response. destruct text as [|x text]; [reflexivity|].
  assert (Hdrop : Forall D (expand Drop [])) by constructor.
  assert (Hgrp : Forall D (expand Group1 [])) by constructor.
  assert (Hlit : Forall D (expand (Lit [32%N]) [])) by (repeat constructor; exact Hsp).
  repeat match goal with
  | |- context [re_sub nd ws ?p ?r ?s] =>
      let E := fresh "E" in let H := fresh "H" in
      destruct (re_sub_agrees p r s) as [E H];
      [assumption | assumption | rewrite E in *; clear E]
  end.
  apply strip_agrees. assumption.
Qed.

End Agreement.

Lemma forallb_true_Forall (f : N -> bool) (l : list N) :
  forallb f l = true -> Forall (fun c => f c = true) l.
Proof.
  induction l as [|x l IH]; simpl; intros H; [constructor|].
  apply andb_true_iff in H as [Hx Hl]. constructor; [exact Hx | exact (IH Hl)].
Qed.

Lemma example_in_scope :
  Forall (fun c => in_scope c = true)
    (utf8 "**Hi** there【4:0†note.txt】 [link](http://x)").
Proof. apply forallb_true_Forall. vm_compute. reflexivity. Qed.

Lemma table3_digit nd c :
  in_scope c = true ->
  is_digit nd c = is_digit (table3 (nd 12304%N) (nd 8224%N) (nd 12305%N)) c.
Proof.
  unfold in_scope, is_digit, table3. intros H.
  destruct (N.ltb_spec c 128); [reflexivity|].
  destruct (N.eqb_spec c 12304); [subst; reflexivity|].
  destruct (N.eqb_spec c 8224); [subst; reflexivity|].
  destruct (N.eqb_spec c 12305); [subst; reflexivity|].
  destruct (N.ltb_spec c 128); [lia | discriminate H].
Qed.

Lemma table3_space ws c :
  in_scope c = true ->
  is_space ws c = is_space (table3 (ws 12304%N) (ws 8224%N) (ws 12305%N)) c.
Proof.
  unfold in_scope, is_space, table3. intros H.
  destruct (N.ltb_spec c 128); [reflexivity|].
  destruct (N.eqb_spec c 12304); [subst; reflexivity|].
  destruct (N.eqb_spec c 8224); [subst; reflexivity|].
  destruct (N.eqb_spec c 12305); [subst; reflexivity|].
  destruct (N.ltb_spec c 128); [lia | discriminate H].
Qed.

Lemma example_cleaned_table3 b1 b2 b3 b4 b5 b6 :
  clean_response (table3 b1 b2 b3) (table3 b4 b5 b6)
    (utf8 "**Hi** there【4:0†note.txt】 [link](http://x)")
  = utf8 "Hi there link".
Proof. destruct b1, b2, b3, b4, b5, b6; vm_compute; reflexivity. Qed.

(** C8. [clean_response] turns the example of the specification into
    ["Hi there link"], whatever the Unicode tables say beyond ASCII: the
    footnote is removed, the bold and the link markup give way to their
    text, and the whitespace is a single space between words. *)
Theorem clean_response_example (unicode_Nd unicode_White : N -> bool) :
  clean_response unicode_Nd unicode_White
    (utf8 "**Hi** there【4:0†note.txt】 [link](http://x)")
  = utf8 "Hi there link".
Proof.
  exact (eq_trans
           (clean_response_agrees unicode_Nd unicode_White _ _
              (fun c => in_scope c = true)
              (table3_digit unicode_Nd) (table3_space unicode_White) _
              eq_refl example_in_scope)
           (example_cleaned_table3
              (unicode_Nd 12304%N) (unicode_Nd 8224%N) (unicode_Nd 12305%N)
              (unicode_White 12304%N) (unicode_White 8224%N)
              (unicode_White 12305%N))).
Qed.

(** The steps of the example, with empty tables. *)
Example clean_response_steps :
  let none := fun _ : N => false in
  re_sub none none footnote Drop
    (utf8 "**Hi** there【4:0†note.txt】 [link](http://x)")
  = utf8 "**Hi** there [link](http://x)"
  /\ re_sub none none bold Group1 (utf8 "**Hi** there [link](http://x)")
     = utf8 "Hi there [link](http://x)"
  /\ re_sub none none link Group1 (utf8 "Hi there [link](http://x)")
     = utf8 "Hi there link".
Proof. repeat split; vm_compute; reflexivity. Qed.

(** The literal of the example, code point by code point. *)
Example example_code_points :
  utf8 "**Hi** there【4:0†note.txt】 [link](http://x)"
  = [42; 42; 72; 105; 42; 42; 32; 116; 104; 101; 114; 101; 12304; 52; 58; 48;
     8224; 110; 111; 116; 101; 46; 116; 120; 116; 12305; 32; 91; 108; 105; 110;
     107; 93; 40; 104; 116; 116; 112; 58; 47; 47; 120; 41]%N.
Proof. vm_compute. reflexivity. Qed.

End AIClientFacts.

(** ** The scheduler *)

Module BotFacts.
Import Runtime Bot.

(** *** Task gating *)

Lemma process_task_skips env k s :
  clock (world s) - lookup_task k (last_processed_time (bot s)) < min_interval k ->
  process_task env k s = (Ret tt, mkState (bot s) (log INFO (world s))).
Proof.
  intros H. destruct k; simpl in H; apply Z.ltb_lt in H;
    unfold process_task, process_mentions, process_accounts, process_hashtags,
      bind, now, get_bot; simpl; rewrite H; reflexivity.
Qed.

Lemma process_task_runs env k s :
  min_interval k <= clock (world s) - lookup_task k (last_processed_time (bot s)) ->
  process_task env k s = task_body env k s.
Proof.
  intros H. destruct k; simpl in H; apply Z.ltb_ge in H;
    unfold process_task, process_mentions, process_accounts, process_hashtags,
      bind, now, get_bot; simpl; rewrite H; reflexivity.
Qed.

Lemma should_process_false env k s :
  clock (world s) - lookup_task k (last_processed_time (bot s))
    < lookup_task k check_intervals ->
  tick_task env k s = (Ret tt, mkState (bot s) (log INFO (world s))).
Proof.
  intros H. apply Z.ltb_lt in H.
  unfold tick_task, should_process, bind, now, get_bot. simpl. rewrite H. reflexivity.
Qed.

Lemma min_interval_le_check_interval k :
  min_interval k <= lookup_task k check_intervals.
Proof. destruct k; simpl; lia. Qed.

(** C4. On every tick and for each of the three tasks, less than the
    minimum interval (180 s for mentions, 900 s for accounts, 900 s for
    hashtags) since the task's last run means that the task is skipped:
    the task method and the block of the main loop that calls it return at
    once, having logged the skip and changed nothing else.  The task method
    runs its body when the interval has elapsed. *)
Theorem task_body_runs_only_after_min_interval (env : Env) (k : Task) (s : State) :
  let elapsed := clock (world s) - lookup_task k (last_processed_time (bot s)) in
  let skipped := (Ret tt, mkState (bot s) (log INFO (world s))) in
  min_interval mentions = 180 /\ min_interval accounts = 900
  /\ min_interval hashtags = 900
  /\ (elapsed < min_interval k ->
      process_task env k s = skipped /\ tick_task env k s = skipped)
  /\ (min_interval k <= elapsed -> process_task env k s = task_body env k s).
Proof.
  intros elapsed skipped. repeat (split; [reflexivity|]). split.
  - intros H. split; [apply process_task_skips; exact H|].
    apply should_process_false. pose proof (min_interval_le_check_interval k).
    unfold elapsed in H. lia.
  - apply process_task_runs.
Qed.

(** A bot whose three tasks ran 100 s ago. *)
Lemma task_body_runs_only_after_min_interval_witness :
  let b := set_last mentions 1699999900
             (set_last accounts 1699999900
                (set_last hashtags 1699999900 (bot fresh_state))) in
  let s := mkState b (world fresh_state) in
  clock (world s) - lookup_task accounts (last_processed_time (bot s))
    < min_interval accounts
  /\ process_task quiet accounts s = (Ret tt, mkState b (mkWorld 1700000000 [EvLog INFO]))
  /\ tick_task quiet accounts s = (Ret tt, mkState b (mkWorld 1700000000 [EvLog INFO])).
Proof.
  intros b s.
  assert (H : clock (world s) - lookup_task accounts (last_processed_time (bot s))
              < min_interval accounts) by (vm_compute; reflexivity).
  split; [exact H|].
  exact (proj1 (proj2 (proj2 (proj2
           (task_body_runs_only_after_min_interval quiet accounts s)))) H).
Defined.

(** In the main loop the gate of the hashtags task is the 1800 s of
    [check_intervals]: between 900 s and 1800 s after its last run the task
    method would run its body, and the loop does not call it. *)
Lemma hashtags_gate_of_the_loop env s :
  let elapsed := clock (world s) - lookup_task hashtags (last_processed_time (bot s)) in
  900 <= elapsed < 1800 ->
  tick_task env hashtags s = (Ret tt, mkState (bot s) (log INFO (world s)))
  /\ process_hashtags env s = hashtags_body env s.
Proof.
  intros elapsed H. split.
  - apply should_process_false. unfold elapsed in H. simpl in *. lia.
  - apply (process_task_runs env hashtags). unfold elapsed in H. simpl in *. lia.
Qed.

(** *** The accounts task *)

Lemma accounts_loop_returns env users :
  forall s, exists s', accounts_loop env users s = (Ret tt, s').
Proof.
  induction users as [|user rest IH]; intros s; simpl.
  - exists s. reflexivity.
  - unfold bind at 1. unfold catch.
    destruct (check_account env user s) as [[[]|] s1].
    + apply IH.
    + unfold bind, logger, outside, sleep_for. simpl. apply IH.
Qed.

(** A run of the body returns and leaves the clock in [last_processed_time]. *)
Lemma accounts_body_completes env s :
  exists s1,
    accounts_body env s = (Ret tt, s1)
    /\ lookup_task accounts (last_processed_time (bot s1)) = clock (world s1).
Proof.
  unfold accounts_body, bind, logger, outside. cbv beta.
  match goal with
  | |- context [accounts_loop env ?users ?st] =>
      destruct (accounts_loop_returns env users st) as (s' & E); rewrite E
  end.
  unfold now, modify. eexists. split; reflexivity.
Qed.

(** C9. The accounts task has completed a run at the instant [t], the
    clock of the state [s1] it left, and [t] is its last run in
    [last_processed_time].  Called again at an instant less than 900 s after
    [t], in any state whose last run of the task is [t] (or later, as when
    the main loop has stamped it once more), it runs none of its body:
    nothing is fetched or processed, the only event is the log of the skip,
    and the bot ([last_processed_time], the dedup set, the limiters) is
    unchanged. *)
Theorem accounts_task_again_within_900_is_noop (env : Env) (s : State) :
  900 <= clock (world s) - lookup_task accounts (last_processed_time (bot s)) ->
  exists s1,
    process_accounts env s = (Ret tt, s1)
    /\ lookup_task accounts (last_processed_time (bot s1)) = clock (world s1)
    /\ forall s2 : State,
         clock (world s1) <= lookup_task accounts (last_processed_time (bot s2)) ->
         clock (world s2) - clock (world s1) < 900 ->
         process_accounts env s2 = (Ret tt, mkState (bot s2) (log INFO (world s2)))
         /\ trace (log INFO (world s2)) = trace (world s2) ++ [EvLog INFO].
Proof.
  intros Hopen.
  destruct (accounts_body_completes env s) as (s1 & Hbody & Hlast).
  exists s1. split.
  - rewrite <- Hbody. apply (process_task_runs env accounts). exact Hopen.
  - split; [exact Hlast|]. intros s2 Hlast2 Hsoon. split; [|reflexivity].
    apply (process_task_skips env accounts). cbn [min_interval]. lia.
Qed.

(** The first tick of a new bot on a quiet platform, and a second call 899
    seconds later. *)
Lemma accounts_task_again_within_900_is_noop_witness :
  let s := mkState (new_bot (new_processor None)) (mkWorld 1700000000 []) in
  900 <= clock (world s) - lookup_task accounts (last_processed_time (bot s))
  /\ exists s1,
       process_accounts quiet s = (Ret tt, s1)
       /\ process_accounts quiet (mkState (bot s1) (mkWorld (clock (world s1) + 899) []))
          = (Ret tt, mkState (bot s1) (mkWorld (clock (world s1) + 899) [EvLog INFO])).
Proof.
  intros s.
  assert (Hopen : 900 <= clock (world s)
                         - lookup_task accounts (last_processed_time (bot s))).
  { vm_compute. discriminate. }
  split; [exact Hopen|].
  destruct (accounts_task_again_within_900_is_noop quiet s Hopen)
    as (s1 & Hrun & Hlast & Hagain).
  exists s1. split; [exact Hrun|].
  apply (Hagain (mkState (bot s1) (mkWorld (clock (world s1) + 899) []))).
  - cbn [bot]. rewrite Hlast. lia.
  - cbn [world clock]. lia.
Defined.



(** *** The mentions task *)





Lemma bind_inv {A B} (m : M A) (k : A -> M B) s r s' :
  bind m k s = (r, s') ->
  (exists a s1, m s = (Ret a, s1) /\ k a s1 = (r, s'))
  \/ (r = Raised /\ m s = (Raised, s')).
Proof.
  unfold bind. destruct (m s) as [[a|] s1].
  - intros H. left. exists a, s1. split; [reflexivity | exact H].
  - intros [= <- <-]. right. split; reflexivity.
Qed.























(** The age that decides is the five minutes of [is_tweet_recent]: the third
    mention above is within the limit of 180 minutes and is passed over. *)
Example mention_of_ten_minutes_is_passed_over :
  let third := mkTweet "1003" (Date 1699999400) (Name "cat") in
  In third (firstn 3 four_mentions)
  /\ ~ In third (processed_events (trace (world (snd (process_mentions busy fresh_state)))))
  /\ is_tweet_recent (created_at third) 1700000000 = Ret false.
Proof.
  cbv zeta. split; [right; right; left; reflexivity|]. split; [|reflexivity].
  vm_compute. intros [H|[H|[]]]; discriminate H.
Qed.

(** *** No task handles an id that is in the dedup set *)

Lemma handled_ids_app a b : handled_ids (a ++ b) = handled_ids a ++ handled_ids b.
Proof. unfold handled_ids. apply omap_app. Qed.

Lemma only_handles_refl i s : only_handles i s s.
Proof. exists []. rewrite app_nil_r. repeat split. constructor. Qed.

Lemma only_handles_trans i s1 s2 s3 :
  only_handles i s1 s2 -> only_handles i s2 s3 -> only_handles i s1 s3.
Proof.
  intros (e1 & T1 & P1 & F1) (e2 & T2 & P2 & F2). exists (e1 ++ e2).
  split; [rewrite T2, T1, app_assoc; reflexivity|]. split; [congruence|].
  rewrite handled_ids_app. apply Forall_app. split; assumption.
Qed.

Lemma guarded_step_refl s : guarded_step s s.
Proof.
  exists []. rewrite app_nil_r. split; [reflexivity|].
  split; [intros x Hx; exact Hx | constructor].
Qed.

Lemma guarded_step_trans s1 s2 s3 :
  guarded_step s1 s2 -> guarded_step s2 s3 -> guarded_step s1 s3.
Proof.
  intros (e1 & T1 & P1 & F1) (e2 & T2 & P2 & F2). exists (e1 ++ e2).
  split; [rewrite T2, T1, app_assoc; reflexivity|].
  split; [intros x Hx; apply P2, P1, Hx|].
  rewrite handled_ids_app. apply Forall_app. split; [exact F1|].
  eapply Forall_impl; [exact F2|]. intros x Hx Hc. apply Hx, P1, Hc.
Qed.

Lemma only_handles_guarded i s s' :
  only_handles i s s' ->
  (forall x, i = Some x -> x ∉ processed_tweets (bot s)) ->
  guarded_step s s'.
Proof.
  intros (evs & T & P & F) Hi. exists evs. split; [exact T|].
  split; [rewrite P; intros x Hx; exact Hx|].
  eapply Forall_impl; [exact F|]. intros x Hx. apply Hi. exact Hx.
Qed.

Lemma only_bind {A B} i (m : M A) (k : A -> M B) :
  only_run i m -> (forall a, only_run i (k a)) -> only_run i (bind m k).
Proof.
  intros Hm Hk s r s' H. apply bind_inv in H as [(a & s1 & H1 & H2)|[_ H1]].
  - eapply only_handles_trans; [eapply Hm; exact H1 | eapply Hk; exact H2].
  - eapply Hm; exact H1.
Qed.

Lemma guarded_bind {A B} (m : M A) (k : A -> M B) :
  guarded_run m -> (forall a, guarded_run (k a)) -> guarded_run (bind m k).
Proof.
  intros Hm Hk s r s' H. apply bind_inv in H as [(a & s1 & H1 & H2)|[_ H1]].
  - eapply guarded_step_trans; [eapply Hm; exact H1 | eapply Hk; exact H2].
  - eapply Hm; exact H1.
Qed.

(** After a step that handles at most the unseen id [x] and keeps the set,
    what follows is still in front of the same set. *)
Lemma only_then_guarded {A B} x (m : M A) (k : A -> M B) s :
  only_run (Some x) m ->
  x ∉ processed_tweets (bot s) ->
  (forall a s1, processed_tweets (bot s1) = processed_tweets (bot s) ->
                guarded_from s1 (k a)) ->
  guarded_from s (bind m k).
Proof.
  intros Hm Hx Hk r s' H.
  assert (Hg : forall s1, only_handles (Some x) s s1 -> guarded_step s s1).
  { intros s1 H1. apply (only_handles_guarded _ _ _ H1). intros y [= <-]. exact Hx. }
  apply bind_inv in H as [(a & s1 & H1 & H2)|[_ H1]].
  - pose proof (Hm _ _ _ H1) as Ho. eapply guarded_step_trans; [exact (Hg _ Ho)|].
    destruct Ho as (_ & _ & P & _). exact (Hk a s1 P _ _ H2).
  - exact (Hg _ (Hm _ _ _ H1)).
Qed.

Lemma only_run_guarded {A} (m : M A) : only_run None m -> guarded_run m.
Proof.
  intros Hm s r s' H. apply (only_handles_guarded None); [exact (Hm _ _ _ H)|].
  intros x [=].
Qed.

Lemma only_ret {A} i (a : A) : only_run i (ret a).
Proof. intros s r s' [= <- <-]. apply only_handles_refl. Qed.

Lemma only_raise {A} i : only_run i (@raise A).
Proof. intros s r s' [= <- <-]. apply only_handles_refl. Qed.

Lemma only_get_bot i : only_run i get_bot.
Proof. intros s r s' [= <- <-]. apply only_handles_refl. Qed.

Lemma only_now i : only_run i now.
Proof. intros s r s' [= <- <-]. apply only_handles_refl. Qed.

Lemma only_logger i l : only_run i (logger l).
Proof.
  intros s r s' [= <- <-]. exists [EvLog l]. repeat split. constructor.
Qed.

Lemma only_sleep_for env i d : only_run i (sleep_for env d).
Proof.
  intros s r s' [= <- <-]. exists [EvSleep d]. repeat split. constructor.
Qed.

Lemma only_call env {A} i e (answer : World -> A) :
  Forall (fun x => i = Some x) (handled_ids [e]) -> only_run i (call env e answer).
Proof. intros He s r s' [= <- <-]. exists [e]. repeat split. exact He. Qed.

Lemma only_acquire env i l : only_run i (acquire env l).
Proof.
  intros s r s'. unfold acquire.
  destruct (RateLimiter.acquire _ _ _) as [[[rl slept] recorded]|]; intros [= <- <-].
  - destruct (0 <? slept); simpl.
    + exists [EvLog INFO; EvSleep slept]. rewrite <- app_assoc.
      split; [reflexivity|]. split; [destruct l; reflexivity | constructor].
    + exists []. rewrite app_nil_r.
      split; [reflexivity|]. split; [destruct l; reflexivity | constructor].
  - apply only_handles_refl.
Qed.

Lemma only_modify i f :
  (forall b, processed_tweets (f b) = processed_tweets b) -> only_run i (modify f).
Proof.
  intros Hf s r s' [= <- <-]. exists []. simpl. rewrite app_nil_r.
  split; [reflexivity|]. split; [apply Hf | constructor].
Qed.

Lemma guarded_add_processed i : guarded_run (add_processed i).
Proof.
  intros s r s' [= <- <-]. exists []. simpl. rewrite app_nil_r.
  split; [reflexivity|]. split; [apply union_subseteq_r | constructor].
Qed.

Ltac only_cases :=
  repeat first
    [ progress (intros)
    | apply only_bind
    | apply only_ret | apply only_raise | apply only_get_bot | apply only_now
    | apply only_logger | apply only_sleep_for | apply only_acquire
    | apply only_call; repeat constructor
    | apply only_modify; intros; reflexivity
    | match goal with
      | |- only_run _ (if ?c then _ else _) => destruct c
      | |- only_run _ (match ?x with _ => _ end) => destruct x
      end ].

Lemma only_catch {A} i (m handler : M A) :
  only_run i m -> only_run i handler -> only_run i (catch m handler).
Proof.
  intros Hm Hh s r s'. unfold catch. destruct (m s) as [[a|] s1] eqn:E.
  - intros [= <- <-]. exact (Hm _ _ _ E).
  - intros H. eapply only_handles_trans; [exact (Hm _ _ _ E) | exact (Hh _ _ _ H)].
Qed.

Lemma only_filter_recent i now_ limit fetched :
  only_run i (filter_recent now_ limit fetched).
Proof. induction fetched as [|mention rest IH]; simpl; only_cases; exact IH. Qed.

Lemma only_get_mentions env : only_run None (get_mentions env).
Proof.
  unfold get_mentions, initialize. only_cases; apply only_catch; only_cases;
    apply only_filter_recent.
Qed.

Lemma guarded_mentions_loop env items : guarded_run (mentions_loop env items).
Proof.
  induction items as [|mention rest IH]; intros s r s' H.
  - injection H as <- <-. apply guarded_step_refl.
  - simpl in H. unfold bind at 1, get_bot at 1 in H.
    destruct (bool_decide (id mention ∈ processed_tweets (bot s))) eqn:Eseen;
      [exact (IH _ _ _ H)|].
    apply bool_decide_eq_false in Eseen.
    unfold bind at 1, now at 1 in H.
    destruct (is_tweet_recent (created_at mention) (clock (world s))) as [[|]|].
    + revert r s' H. apply (only_then_guarded (id mention)); [|exact Eseen|].
      * unfold process_mention. only_cases.
      * intros _ s1 _. repeat (apply guarded_bind; intros).
        -- apply guarded_add_processed.
        -- apply only_run_guarded, only_sleep_for.
        -- exact IH.
    + exact (IH _ _ _ H).
    + injection H as <- <-. apply guarded_step_refl.
Qed.

Lemma guarded_account_tweets_loop env user two_hours_ago tweets :
  guarded_run (account_tweets_loop env user two_hours_ago tweets).
Proof.
  induction tweets as [|tweet rest IH]; intros s r s' H.
  - injection H as <- <-. apply guarded_step_refl.
  - simpl in H. unfold bind at 1, get_bot at 1 in H.
    destruct (bool_decide (id tweet ∈ processed_tweets (bot s))) eqn:Eseen;
      [exact (IH _ _ _ H)|].
    apply bool_decide_eq_false in Eseen.
    destruct (created_at tweet) as [| |at_];
      try (injection H as <- <-; apply guarded_step_refl).
    destruct (at_ <=? two_hours_ago).
    { revert s r s' H Eseen. intros s r s' H _. revert s r s' H.
      apply guarded_bind; [apply only_run_guarded, only_logger | intros; exact IH]. }
    revert r s' H. apply (only_then_guarded (id tweet)); [|exact Eseen|].
    { unfold process_mention. only_cases. }
    intros _ s1 P1. apply (only_then_guarded (id tweet)); [|rewrite P1; exact Eseen|].
    { only_cases. }
    intros _ s2 _. repeat (apply guarded_bind; intros).
    + apply guarded_add_processed.
    + apply only_run_guarded, only_sleep_for.
    + exact IH.
Qed.

Lemma guarded_from_bind {A B} (m : M A) (k : A -> M B) s :
  guarded_from s m -> (forall a, guarded_run (k a)) -> guarded_from s (bind m k).
Proof.
  intros Hm Hk r s' H. apply bind_inv in H as [(a & s1 & H1 & H2)|[_ H1]].
  - eapply guarded_step_trans; [eapply Hm; exact H1 | eapply Hk; exact H2].
  - eapply Hm; exact H1.
Qed.

(** The part of [process_hashtags] that looks at the metrics of a tweet
    whose id is not in the set. *)
Lemma guarded_likes_check env tweet processed_count (metrics : option (option Z)) s :
  id tweet ∉ processed_tweets (bot s) ->
  guarded_from s
    (match metrics with
     | None => ret processed_count
     | Some likes =>
         let like_count := match likes with Some n => n | None => 0 end in
         logger INFO ;;
         if Config.MIN_LIKES_THRESHOLD <=? like_count then
           logger INFO ;;
           process_mention env tweet ;;
           add_processed (id tweet) ;;
           ret (processed_count + 1)
         else logger INFO ;; ret processed_count
     end).
Proof.
  intros Eseen. destruct metrics as [likes|]; [|apply only_run_guarded, only_ret].
  cbv zeta.
  apply (only_then_guarded (id tweet)); [apply only_logger | exact Eseen|].
  intros _ s1 P1. destruct (_ <=? _).
  - apply (only_then_guarded (id tweet)); [apply only_logger | rewrite P1; exact Eseen|].
    intros _ s2 P2. apply (only_then_guarded (id tweet));
      [unfold process_mention; only_cases | rewrite P2, P1; exact Eseen|].
    intros _ s3 _. apply guarded_bind;
      [apply guarded_add_processed | intros; apply only_run_guarded, only_ret].
  - apply guarded_bind; [apply only_run_guarded, only_logger|].
    intros; apply only_run_guarded, only_ret.
Qed.

Lemma guarded_hashtag_tweets_loop env tweets :
  forall processed_count, guarded_run (hashtag_tweets_loop env processed_count tweets).
Proof.
  induction tweets as [|tweet rest IH]; intros processed_count s r s' H.
  - injection H as <- <-. apply guarded_step_refl.
  - simpl in H. unfold bind at 1, get_bot at 1 in H.
    destruct (bool_decide (id tweet ∈ processed_tweets (bot s))) eqn:Eseen;
      [exact (IH _ _ _ _ H)|].
    apply bool_decide_eq_false in Eseen.
    destruct (from_monitored tweet) as [[|]|];
      [exact (IH _ _ _ _ H) | | injection H as <- <-; apply guarded_step_refl].
    revert r s' H. apply (only_then_guarded (id tweet)); [|exact Eseen|].
    { only_cases. }
    intros _ s1 P1. apply (only_then_guarded (id tweet)); [|rewrite P1; exact Eseen|].
    { only_cases. }
    intros metrics s2 P2. apply guarded_from_bind.
    + apply guarded_likes_check. rewrite P2, P1. exact Eseen.
    + intros count. destruct (3 <=? count).
      * apply only_run_guarded, only_ret.
      * apply guarded_bind; [apply only_run_guarded, only_sleep_for | intros; apply IH].
Qed.

Lemma guarded_check_account env user : guarded_run (check_account env user).
Proof.
  unfold check_account.
  apply guarded_bind; [apply only_run_guarded, only_logger | intros _].
  apply guarded_bind; [apply only_run_guarded, only_acquire | intros _].
  apply guarded_bind; [apply only_run_guarded; only_cases | intros tweets].
  destruct tweets as [|t ts]; [apply only_run_guarded, only_logger|].
  apply guarded_bind; [apply only_run_guarded, only_now | intros current_time].
  apply guarded_bind; [apply guarded_account_tweets_loop | intros _].
  apply only_run_guarded, only_sleep_for.
Qed.

Lemma guarded_catch {A} (m handler : M A) :
  guarded_run m -> guarded_run handler -> guarded_run (catch m handler).
Proof.
  intros Hm Hh s r s'. unfold catch. destruct (m s) as [[a|] s1] eqn:E.
  - intros [= <- <-]. exact (Hm _ _ _ E).
  - intros H. eapply guarded_step_trans; [exact (Hm _ _ _ E) | exact (Hh _ _ _ H)].
Qed.

Lemma guarded_accounts_loop env users : guarded_run (accounts_loop env users).
Proof.
  induction users as [|user rest IH]; simpl.
  - apply only_run_guarded, only_ret.
  - apply guarded_bind; [|intros; exact IH].
    apply guarded_catch; [apply guarded_check_account|].
    apply only_run_guarded. only_cases.
Qed.

Lemma guarded_hashtags_loop env tags : guarded_run (hashtags_loop env tags).
Proof.
  induction tags as [|hashtag rest IH]; simpl.
  - apply only_run_guarded, only_ret.
  - apply guarded_bind; [apply only_run_guarded, only_logger | intros _].
    apply guarded_bind; [apply only_run_guarded, only_acquire | intros _].
    apply guarded_bind; [apply only_run_guarded; only_cases | intros tweets].
    apply guarded_bind; [apply only_run_guarded, only_logger | intros _].
    apply guarded_bind; [apply guarded_hashtag_tweets_loop | intros _].
    apply guarded_bind; [apply only_run_guarded, only_sleep_for | intros _].
    exact IH.
Qed.

Lemma guarded_finish k : guarded_run (t <- now ;; modify (set_last k t)).
Proof. apply only_run_guarded. only_cases. Qed.

Lemma guarded_task_body env k : guarded_run (task_body env k).
Proof.
  destruct k; simpl.
  - unfold mentions_body.
    apply guarded_bind; [apply only_run_guarded, only_acquire | intros _].
    apply guarded_bind; [apply only_run_guarded, only_get_mentions | intros fetched].
    apply guarded_bind; [apply only_run_guarded, only_logger | intros _].
    apply guarded_bind; [apply guarded_mentions_loop | intros _].
    apply guarded_finish.
  - unfold accounts_body.
    apply guarded_bind; [apply only_run_guarded, only_logger | intros _].
    apply guarded_bind; [apply guarded_accounts_loop | intros _].
    apply guarded_finish.
  - unfold hashtags_body.
    apply guarded_bind; [apply only_run_guarded, only_logger | intros _].
    apply guarded_bind; [apply guarded_hashtags_loop | intros _].
    apply guarded_finish.
Qed.

(** While an id is in the dedup set no task replies to the item or
    retweets it, and no task removes an id from the set. *)
Lemma no_task_handles_a_seen_id env k s r s' :
  process_task env k s = (r, s') ->
  exists events,
    trace (world s') = trace (world s) ++ events
    /\ processed_tweets (bot s) ⊆ processed_tweets (bot s')
    /\ forall i, In i (handled_ids events) -> i ∉ processed_tweets (bot s).
Proof.
  intros H.
  assert (G : guarded_step s s').
  { destruct (Z.lt_ge_cases
                (clock (world s) - lookup_task k (last_processed_time (bot s)))
                (min_interval k)) as [Hlt|Hge].
    - rewrite (process_task_skips env k s Hlt) in H. injection H as <- <-.
      exists [EvLog INFO]. split; [reflexivity|].
      split; [intros x Hx; exact Hx | constructor].
    - rewrite (process_task_runs env k s Hge) in H.
      exact (guarded_task_body env k _ _ _ H). }
  destruct G as (evs & T & P & F). exists evs. split; [exact T|]. split; [exact P|].
  intros i Hi. rewrite Forall_forall in F. apply F, list_elem_of_In, Hi.
Qed.

(** *** The dedup set and its eviction *)

Lemma kept_iff current_time tweet_id :
  kept current_time tweet_id = true
  <-> exists v, float_of_id tweet_id = Some v /\ current_time - v < 3600.
Proof.
  unfold kept. destruct (float_of_id tweet_id) as [v|].
  - rewrite Z.ltb_lt. split; [intros H; exists v; auto | intros (v' & [= <-] & H); exact H].
  - split; [discriminate | intros (v & [=] & _)].
Qed.

(** The eviction drops exactly the ids whose numeric value is at least an
    hour behind the clock; it knows nothing of when an id was added. *)
Lemma cleanup_drops_by_id_value s s' :
  cleanup_processed_tweets s = (Ret tt, s') ->
  world s' = world s
  /\ forall i, i ∈ processed_tweets (bot s')
       <-> i ∈ processed_tweets (bot s)
           /\ exists v, float_of_id i = Some v /\ clock (world s) - v < 3600.
Proof.
  unfold cleanup_processed_tweets, bind, now, get_bot, modify, raise. cbv beta.
  destruct (forallb _ _); [|discriminate].
  intros [= <-]. split; [reflexivity|]. intros i. simpl.
  rewrite elem_of_filter, kept_iff. tauto.
Qed.

(** C6 at an id of the platform and at a small id.  The id
    1871234567890123456 is added at the clock 1700000000; two hours later
    the eviction keeps it (its value is ahead of every clock), so it never
    becomes eligible again.  The id 1001 is added at the same clock; one
    second later the eviction drops it (its value is far behind the clock),
    so it is eligible again within the hour. *)
Theorem cleanup_ignores_the_time_of_insertion :
  let added (i : string) := snd (add_processed i fresh_state) in
  let at_clock (t : Z) (s : State) := mkState (bot s) (mkWorld t []) in
  "1871234567890123456"%string ∈ processed_tweets (bot (added "1871234567890123456"%string))
  /\ cleanup_processed_tweets (at_clock (1700000000 + 7200) (added "1871234567890123456"%string))
     = (Ret tt, at_clock (1700000000 + 7200) (added "1871234567890123456"%string))
  /\ "1001"%string ∈ processed_tweets (bot (added "1001"%string))
  /\ cleanup_processed_tweets (at_clock (1700000000 + 1) (added "1001"%string))
     = (Ret tt, at_clock (1700000000 + 1) fresh_state).
Proof.
  cbv zeta. split; [vm_compute; set_solver|]. split; [vm_compute; reflexivity|].
  split; [vm_compute; set_solver|]. vm_compute; reflexivity.
Qed.

(** An id that is no number makes the eviction raise; the main loop then
    sleeps [ERROR_DELAY] and the set is as it was. *)
Example cleanup_raises_on_other_ids :
  let s := snd (add_processed "abc" fresh_state) in
  cleanup_processed_tweets s = (Raised, s).
Proof. vm_compute. reflexivity. Qed.

End BotFacts.

(** ** The order of the deque of a limiter *)

Module RateLimiterOrderFacts.
Import RateLimiter RateLimiterFacts RateLimiterOrder.

Lemma sorted_snoc (l : list Z) (x : Z) :
  StronglySorted Z.le l -> Forall (fun r => r <= x) l -> StronglySorted Z.le (l ++ [x]).
Proof.
  induction 1 as [|a l Hl IH Ha]; intros Hx; simpl.
  - repeat constructor.
  - inversion Hx as [|? ? Hax Hlx]; subst. constructor; [apply IH; exact Hlx|].
    apply Forall_app. split; [exact Ha | repeat constructor; exact Hax].
Qed.

Lemma sorted_app_r (l1 l2 : list Z) :
  StronglySorted Z.le (l1 ++ l2) -> StronglySorted Z.le l2.
Proof.
  induction l1 as [|a l1 IH]; simpl; [trivial|].
  intros H. inversion H; subst. apply IH. assumption.
Qed.

(** In a sorted deque the loop leaves only entries inside the window. *)
Lemma popleft_expired_inside now w q :
  StronglySorted Z.le q ->
  Forall (fun r => now - w < r) (popleft_expired now w q).
Proof.
  induction 1 as [|r q Hq IH Hr]; simpl; [constructor|].
  destruct (Z.leb_spec r (now - w)) as [Hle|Hgt]; [exact IH|].
  constructor; [exact Hgt|].
  eapply Forall_impl; [exact Hr|]. simpl. intros x Hx. lia.
Qed.

Lemma later_than_all bound l :
  Forall (fun r => bound < r) l -> later_than bound l = length l.
Proof.
  unfold later_than. induction 1 as [|e l He _ IH]; simpl; [reflexivity|].
  destruct (Z.ltb_spec bound e); [simpl; rewrite IH; reflexivity | lia].
Qed.

Lemma Forall_le_app_r (b : Z) (l1 l2 : list Z) :
  Forall (fun r => r <= b) (l1 ++ l2) -> Forall (fun r => r <= b) l2.
Proof. intros H. apply Forall_app in H. tauto. Qed.

(** One call from a state that satisfies both invariants. *)
Lemma acquire_step_ordered c w rl clk log gap lag :
  0 < c -> 0 < w -> 0 <= gap -> 0 <= lag ->
  Inv c w rl clk log -> Ordered c rl clk log ->
  exists rl' slept recorded,
    acquire rl (clk + gap) lag = Some (rl', slept, recorded)
    /\ 0 <= slept <= w
    /\ (Z.of_nat (later_than (clk + gap - w) log) < c -> slept = 0)
    /\ Inv c w rl' recorded (log ++ [recorded])
    /\ Ordered c rl' recorded (log ++ [recorded]).
Proof.
  intros Hc Hw Hgap Hlag HI [Hsorted Hpast Hlen].
  destruct (acquire_step c w rl clk log gap lag Hc Hgap Hlag HI)
    as (rl' & slept & recorded & Hacq & Hrec & Hs & Hreq & HI').
  exists rl', slept, recorded. split; [exact Hacq|].
  destruct HI as [Hcap Hwin (gone & Hlog & Hgone) Hk Hbud].
  pose proof (Hk (clk + gap) ltac:(lia)) as Hq.
  destruct (popleft_expired_split (clk + gap) w (requests rl)) as (exp & Hsplit & Hexp).
  assert (Hreq_sorted : StronglySorted Z.le (requests rl))
    by (rewrite Hlog in Hsorted; exact (sorted_app_r _ _ Hsorted)).
  assert (Hreq_past : Forall (fun r => r <= clk) (requests rl))
    by (rewrite Hlog in Hpast; exact (Forall_le_app_r _ _ _ Hpast)).
  pose proof (popleft_expired_inside (clk + gap) w _ Hreq_sorted) as Hinside.
  assert (Hq_past : Forall (fun r => r <= clk) (popleft_expired (clk + gap) w (requests rl)))
    by (rewrite Hsplit in Hreq_past; exact (Forall_le_app_r _ _ _ Hreq_past)).
  assert (Hcount : later_than (clk + gap - w) log
                   = length (popleft_expired (clk + gap) w (requests rl))).
  { rewrite Hlog, Hsplit at 1. rewrite !later_than_app.
    rewrite (later_than_none _ gone), (later_than_none _ exp), (later_than_all _ _ Hinside);
      [lia | exact Hexp |].
    eapply Forall_le_weaken; [|exact Hgone]. lia. }
  unfold acquire in Hacq. rewrite Hcap, Hwin in Hacq.
  set (q := popleft_expired (clk + gap) w (requests rl)) in *.
  destruct (Z.leb_spec c (Z.of_nat (length q))) as [Hfull|Hfree].
  - destruct q as [|r0 tl] eqn:Eq; [simpl in Hfull; lia|].
    injection Hacq as <- <- <-.
    pose proof (Forall_inv Hq_past) as Hr0. simpl in Hr0.
    split; [destruct (Z.ltb_spec 0 (r0 + w - (clk + gap))); lia|].
    split; [intros Hlt; rewrite Hcount in Hlt; lia|].
    split; [exact HI'|].
    constructor.
    + apply sorted_snoc; [exact Hsorted|].
      eapply Forall_le_weaken; [|exact Hpast].
      destruct (Z.ltb_spec 0 (r0 + w - (clk + gap))); lia.
    + apply Forall_app. split; [|repeat constructor; lia].
      eapply Forall_le_weaken; [|exact Hpast].
      destruct (Z.ltb_spec 0 (r0 + w - (clk + gap))); lia.
    + cbn [requests length]. rewrite length_app. simpl length in *. lia.
  - injection Hacq as <- <- <-.
    split; [lia|]. split; [reflexivity|]. split; [exact HI'|].
    constructor.
    + apply sorted_snoc; [exact Hsorted|].
      eapply Forall_le_weaken; [|exact Hpast]. lia.
    + apply Forall_app. split; [|repeat constructor; lia].
      eapply Forall_le_weaken; [|exact Hpast]. lia.
    + cbn [requests]. rewrite length_app. simpl length. lia.
Qed.

Lemma run_ordered c w sched :
  0 < c -> 0 < w -> monotone sched ->
  forall rl clk log, Inv c w rl clk log -> Ordered c rl clk log ->
  exists rl' clk' log',
    run rl clk sched log = Some (rl', clk', log')
    /\ Inv c w rl' clk' log' /\ Ordered c rl' clk' log'.
Proof.
  intros Hc Hw Hm. induction Hm as [|[gap lag] rest [Hg Hl] _ IH];
    intros rl clk log HI HO; simpl in *.
  - exists rl, clk, log. split; [reflexivity|]. split; assumption.
  - destruct (acquire_step_ordered c w rl clk log gap lag Hc Hw Hg Hl HI HO)
      as (rl1 & slept & rec & Hacq & _ & _ & HI1 & HO1).
    rewrite Hacq. exact (IH _ _ _ HI1 HO1).
Qed.

Lemma Ordered_init c w clk : 0 < c -> Ordered c (init c w) clk [].
Proof. intros Hc. constructor; simpl; [constructor | constructor | lia]. Qed.

Lemma later_than_window now w log :
  Forall (fun r => r <= now) log ->
  later_than (now - w) log = admitted_in_window (now - w) w log.
Proof.
  unfold later_than, admitted_in_window, in_window.
  induction 1 as [|e l He _ IH]; simpl; [reflexivity|].
  destruct (Z.ltb_spec (now - w) e); simpl; [|exact IH].
  destruct (Z.leb_spec e (now - w + w)); simpl; [rewrite IH; reflexivity | lia].
Qed.

(** X1. On a limiter of capacity [c > 0] used by one caller after the
    other, the recorded instants are in the order of the clock and none is
    ahead of it; the deque is the end of that history (the loop has only
    dropped from its front) and never holds more than [c + 1] entries. *)
Theorem deque_is_ordered_and_bounded (c w clock0 : Z) (sched : list (Z * Z)) :
  0 < c -> 0 < w -> monotone sched ->
  exists rl clk admitted,
    run (init c w) clock0 sched [] = Some (rl, clk, admitted)
    /\ StronglySorted Z.le admitted
    /\ Forall (fun r => r <= clk) admitted
    /\ (exists gone, admitted = gone ++ requests rl)
    /\ Z.of_nat (length (requests rl)) <= c + 1.
Proof.
  intros Hc Hw Hm.
  destruct (run_ordered c w sched Hc Hw Hm (init c w) clock0 []
              (Inv_init c w clock0 Hc) (Ordered_init c w clock0 Hc))
    as (rl & clk & admitted & Hrun & HI & [Hs Hp Hl]).
  exists rl, clk, admitted. split; [exact Hrun|]. split; [exact Hs|].
  split; [exact Hp|]. split; [|exact Hl].
  destruct (inv_log _ _ _ _ _ HI) as (gone & Hlog & _). exists gone. exact Hlog.
Qed.

(** Four calls on a limiter of capacity 2: the deque holds three entries. *)
Lemma deque_is_ordered_and_bounded_witness :
  0 < 2 /\ 0 < 10 /\ monotone [(0, 0); (0, 0); (1, 0); (20, 0)]
  /\ run (init 2 10) 0 [(0, 0); (0, 0); (1, 0)] [] = Some (mk 2 10 [0; 0; 10], 10, [0; 0; 10])
  /\ exists rl clk admitted,
    run (init 2 10) 0 [(0, 0); (0, 0); (1, 0); (20, 0)] [] = Some (rl, clk, admitted)
    /\ StronglySorted Z.le admitted
    /\ Forall (fun r => r <= clk) admitted
    /\ (exists gone, admitted = gone ++ requests rl)
    /\ Z.of_nat (length (requests rl)) <= 2 + 1.
Proof.
  assert (Hm : monotone [(0, 0); (0, 0); (1, 0); (20, 0)]).
  { repeat constructor; simpl; lia. }
  split; [lia|]. split; [lia|]. split; [exact Hm|]. split; [reflexivity|].
  apply (deque_is_ordered_and_bounded 2 10 0 _); [lia | lia | exact Hm].
Defined.

(** X2. From any state such a limiter reaches, one more call sleeps at most
    the length of the window, and does not sleep at all when fewer than [c]
    recorded instants lie in the window that ends at its first reading of
    the clock. *)
Theorem acquire_sleeps_at_most_the_window (c w clock0 : Z) (sched : list (Z * Z)) :
  0 < c -> 0 < w -> monotone sched ->
  exists rl clk admitted,
    run (init c w) clock0 sched [] = Some (rl, clk, admitted)
    /\ forall gap lag, 0 <= gap -> 0 <= lag ->
        exists rl' slept recorded,
          acquire rl (clk + gap) lag = Some (rl', slept, recorded)
          /\ 0 <= slept <= w
          /\ (Z.of_nat (admitted_in_window (clk + gap - w) w admitted) < c -> slept = 0).
Proof.
  intros Hc Hw Hm.
  destruct (run_ordered c w sched Hc Hw Hm (init c w) clock0 []
              (Inv_init c w clock0 Hc) (Ordered_init c w clock0 Hc))
    as (rl & clk & admitted & Hrun & HI & HO).
  exists rl, clk, admitted. split; [exact Hrun|]. intros gap lag Hg Hl.
  destruct (acquire_step_ordered c w rl clk admitted gap lag Hc Hw Hg Hl HI HO)
    as (rl' & slept & rec & Hacq & Hs & Hfree & _).
  exists rl', slept, rec. split; [exact Hacq|]. split; [exact Hs|].
  intros Hcount. apply Hfree. rewrite later_than_window; [exact Hcount|].
  eapply Forall_le_weaken; [|exact (ord_past _ _ _ _ HO)]. lia.
Qed.

(** Capacity 2, window 10: after two calls at the clock 0 a call at 3
    sleeps 7, a call at 10 does not sleep. *)
Lemma acquire_sleeps_at_most_the_window_witness :
  0 < 2 /\ 0 < 10 /\ monotone [(0, 0); (0, 0)]
  /\ acquire (mk 2 10 [0; 0]) 3 0 = Some (mk 2 10 [0; 0; 10], 7, 10)
  /\ acquire (mk 2 10 [0; 0]) 10 0 = Some (mk 2 10 [10], 0, 10)
  /\ exists rl clk admitted,
    run (init 2 10) 0 [(0, 0); (0, 0)] [] = Some (rl, clk, admitted)
    /\ forall gap lag, 0 <= gap -> 0 <= lag ->
        exists rl' slept recorded,
          acquire rl (clk + gap) lag = Some (rl', slept, recorded)
          /\ 0 <= slept <= 10
          /\ (Z.of_nat (admitted_in_window (clk + gap - 10) 10 admitted) < 2 -> slept = 0).
Proof.
  assert (Hm : monotone [(0, 0); (0, 0)]) by (repeat constructor; simpl; lia).
  split; [lia|]. split; [lia|]. split; [exact Hm|].
  split; [reflexivity|]. split; [reflexivity|].
  apply (acquire_sleeps_at_most_the_window 2 10 0 _); [lia | lia | exact Hm].
Defined.

End RateLimiterOrderFacts.

(** ** twitter_client.py: retries and the methods built on them *)

Module GatewayFacts.
Import Runtime TwitterClient TwitterClientFacts Gateway.


Lemma slept_total_app l1 l2 :
  slept_total (l1 ++ l2) = slept_total l1 + slept_total l2.
Proof.
  induction l1 as [|e l1 IH]; [reflexivity|].
  destruct e; simpl; rewrite ?IH; lia.
Qed.

(** One execution of the body of [_make_request], by its outcome. *)
Lemma make_request_body transport fuel method endpoint retry_count w :
  _make_request transport (S fuel) method endpoint retry_count w
  = match (match method with
           | UNSUPPORTED => Failed
           | _ => classify (transport method endpoint w)
           end) with
    | Ok payload => Some (payload, record (EvHttp method endpoint) w)
    | RateLimited reset =>
        let w1 := record (EvHttp method endpoint) w in
        _make_request transport fuel method endpoint 0
          (sleep (Z.max (match reset with
                         | Some epoch => epoch
                         | None => clock w1 + 900
                         end - clock w1) 60) (log WARNING w1))
    | Failed =>
        let w1 := mkWorld (clock w) (trace w ++ failed_attempt method endpoint) in
        if retry_count <? Config.MAX_RETRIES
        then _make_request transport fuel method endpoint (retry_count + 1)
               (mkWorld (clock w + 2 ^ retry_count)
                        (trace w ++ retried method endpoint retry_count))
        else Some (JNull, w1)
    end.
Proof.
  unfold retried.
  destruct method; cbn [_make_request failed_attempt];
    try destruct (classify _); cbv zeta;
    unfold sleep, advance, log, record; cbn [clock trace];
    rewrite <- ?app_assoc; reflexivity.
Qed.

(** Whatever a call does, its calls to the platform are of its own method
    and endpoint, an unsupported method makes none, and the clock moves by
    the sleeps alone. *)
Lemma make_request_calls transport fuel method endpoint :
  forall retry_count w v w',
    _make_request transport fuel method endpoint retry_count w = Some (v, w') ->
    exists evs, trace w' = trace w ++ evs
                /\ Forall (at_most_call method endpoint) evs
                /\ clock w' = clock w + slept_total evs.
Proof.
  assert (Hfail : Forall (at_most_call method endpoint)
                    (failed_attempt method endpoint)).
  { destruct method; repeat constructor; discriminate. }
  induction fuel as [|fuel IH]; intros rc w v w' H; [discriminate H|].
  rewrite make_request_body in H.
  destruct (match method with UNSUPPORTED => Failed | _ => _ end) eqn:E.
  - injection H as <- <-. exists [EvHttp method endpoint].
    split; [reflexivity|]. split; [|simpl; lia].
    repeat constructor. destruct method; discriminate.
  - cbv zeta in H. destruct (IH _ _ _ _ H) as (evs & T & F & C).
    eexists (EvHttp method endpoint :: EvLog WARNING :: EvSleep _ :: evs).
    split; [|split].
    + rewrite T. simpl. rewrite <- !app_assoc. reflexivity.
    + repeat constructor; auto. destruct method; discriminate.
    + rewrite C. simpl. lia.
  - cbv zeta in H. destruct (rc <? Config.MAX_RETRIES).
    + destruct (IH _ _ _ _ H) as (evs & T & F & C).
      exists (retried method endpoint rc ++ evs). split; [|split].
      * rewrite T. cbn [trace]. rewrite <- app_assoc. reflexivity.
      * apply Forall_app. split; [|exact F]. unfold retried.
        apply Forall_app. split; [exact Hfail|]. repeat constructor.
      * rewrite C. cbn [clock]. unfold retried.
        rewrite !slept_total_app.
        assert (slept_total (failed_attempt method endpoint) = 0)
          by (destruct method; reflexivity).
        replace (slept_total [EvLog INFO; EvSleep (2 ^ rc)]) with (2 ^ rc)
          by (simpl; lia).
        lia.
    + injection H as <- <-. exists (failed_attempt method endpoint).
      split; [reflexivity|]. split; [exact Hfail|].
      cbn [clock]. destruct method; simpl; lia.
Qed.

(** A truthy result is the payload of the last event, a call that
    succeeded. *)
Lemma make_request_truthy transport fuel method endpoint :
  forall retry_count w v w',
    _make_request transport fuel method endpoint retry_count w = Some (v, w') ->
    truthy v = true ->
    exists before, trace w' = before ++ [EvHttp method endpoint].
Proof.
  induction fuel as [|fuel IH]; intros rc w v w' H Hv; [discriminate H|].
  rewrite make_request_body in H.
  destruct (match method with UNSUPPORTED => Failed | _ => _ end) eqn:E.
  - injection H as <- <-. exists (trace w). reflexivity.
  - cbv zeta in H. exact (IH _ _ _ _ H Hv).
  - cbv zeta in H. destruct (rc <? Config.MAX_RETRIES).
    + exact (IH _ _ _ _ H Hv).
    + injection H as <- <-. discriminate Hv.
Qed.

(** A method that is neither GET nor POST gives [None]. *)
Lemma make_request_unsupported transport fuel endpoint :
  forall retry_count w v w',
    _make_request transport fuel UNSUPPORTED endpoint retry_count w = Some (v, w') ->
    v = JNull.
Proof.
  induction fuel as [|fuel IH]; intros rc w v w' H; [discriminate H|].
  rewrite make_request_body in H. cbv zeta in H.
  destruct (rc <? Config.MAX_RETRIES).
  - exact (IH _ _ _ _ H).
  - injection H as <- <-. reflexivity.
Qed.






(** *** The methods that need the user id *)

(** What [get_user_id] does to the world, and what it leaves in the
    client when it returns a truthy id. *)
Lemma get_user_id_effects transport fuel c w r c1 w1 :
  get_user_id transport fuel c w = Some (r, c1, w1) ->
  (exists evs, trace w1 = trace w ++ evs
               /\ Forall (at_most_call GET "/users/me") evs)
  /\ (forall uid, r = Ret uid -> truthy uid = true -> user_id c1 = uid).
Proof.
  unfold get_user_id. destruct (truthy (user_id c)) eqn:Ec.
  - intros H. injection H as <- <- <-. split.
    + exists []. rewrite app_nil_r. split; [reflexivity | constructor].
    + intros uid Hr _. injection Hr as <-. reflexivity.
  - destruct (_make_request _ _ _ _ _ _) as [[response w']|] eqn:R;
      [|discriminate].
    destruct (make_request_calls _ _ _ _ _ _ _ _ R) as (evs & T & F & _).
    intros H. split.
    + exists evs. destruct (extract_user_id response) as [[v|]|];
        injection H as <- <- <-; split; assumption.
    + intros uid Hr Hu. destruct (extract_user_id response) as [[v|]|];
        injection H as <- <- <-; try discriminate Hr.
      * injection Hr as <-. reflexivity.
      * injection Hr as <-. discriminate Hu.
Qed.

Lemma no_call_is_any_call endpoint method' endpoint' evs :
  Forall (at_most_call UNSUPPORTED endpoint) evs ->
  Forall (at_most_call method' endpoint') evs.
Proof.
  apply List.Forall_impl. intros [] H; simpl in *; try exact I.
  destruct H as (-> & _ & H). congruence.
Qed.

(** The requests of [unretweet] and [unlike_tweet]. *)
Lemma unsupported_request transport fuel endpoint w1 r w2 :
  match _make_request transport fuel UNSUPPORTED endpoint 0 w1 with
  | None => None
  | Some (response, w2) => Some (has_data response, w2)
  end = Some (r, w2) ->
  r = Ret false
  /\ exists evs, trace w2 = trace w1 ++ evs
                 /\ Forall (at_most_call GET "/users/me") evs.
Proof.
  destruct (_make_request _ _ _ _ _ _) as [[response w']|] eqn:R; [|discriminate].
  intros H. injection H as <- <-.
  rewrite (make_request_unsupported _ _ _ _ _ _ _ R).
  split; [reflexivity|].
  destruct (make_request_calls _ _ _ _ _ _ _ _ R) as (evs & T & F & _).
  exists evs. split; [exact T|]. exact (no_call_is_any_call _ _ _ _ F).
Qed.

(** A wrapped request that gives [False] without reaching the platform
    does so for the whole method. *)
Lemma with_user_id_unsupported py_format transport fuel c w request b c' w' :
  (forall uid w1 r w2, request uid w1 = Some (r, w2) ->
     r = Ret false
     /\ exists evs, trace w2 = trace w1 ++ evs
                    /\ Forall (at_most_call GET "/users/me") evs) ->
  with_user_id py_format transport fuel c w request = Some (b, c', w') ->
  b = false
  /\ exists evs, trace w' = trace w ++ evs
                 /\ Forall (at_most_call GET "/users/me") evs.
Proof.
  intros Hreq. unfold with_user_id.
  destruct (get_user_id transport fuel c w) as [[[r c1] w1]|] eqn:G;
    [|discriminate].
  destruct (get_user_id_effects _ _ _ _ _ _ _ G) as ((evs & T & F) & _).
  destruct r as [uid|].
  - destruct (truthy uid).
    + destruct (request (py_format uid) w1) as [[r w2]|] eqn:Q; [|discriminate].
      destruct (Hreq _ _ _ _ Q) as (-> & evs2 & T2 & F2).
      intros H. injection H as <- <- <-. split; [reflexivity|].
      exists (evs ++ evs2). rewrite T2, T, app_assoc. split; [reflexivity|].
      apply Forall_app. split; assumption.
    + intros H. injection H as <- <- <-. split; [reflexivity|].
      exists evs. split; assumption.
  - intros H. injection H as <- <- <-. split; [reflexivity|].
    exists (evs ++ [EvLog ERROR]). cbn [log record trace].
    rewrite T, app_assoc. split; [reflexivity|].
    apply Forall_app. split; [exact F | repeat constructor].
Qed.

(** X5. [unretweet] and [unlike_tweet] pass the method DELETE, which
    [_make_request] does not support: whenever they return, the result is
    [False], and the only calls to the platform they can have made are the
    GETs of [/users/me] that look the user id up; no other endpoint is ever
    contacted. *)
Theorem unretweet_and_unlike_tweet_never_reach_the_platform
    (py_format : Json -> string) (transport : Transport) (fuel : nat)
    (c : Client) (w : World) (tweet_id : string)
    (b : bool) (c' : Client) (w' : World) :
  unretweet py_format transport fuel c w tweet_id = Some (b, c', w')
  \/ unlike_tweet py_format transport fuel c w tweet_id = Some (b, c', w') ->
  b = false
  /\ exists evs, trace w' = trace w ++ evs
                 /\ Forall (at_most_call GET "/users/me") evs.
Proof.
  intros [H|H]; revert H; apply with_user_id_unsupported;
    intros uid w1 r w2; apply unsupported_request.
Qed.

Lemma unretweet_and_unlike_tweet_never_reach_the_platform_witness :
  unretweet format_str id_7 4 (mkClient JNull) (mkWorld 0 []) "99"
  = Some (false, mkClient (JStr "7"),
          mkWorld 7 (four_failures UNSUPPORTED "/users/7/retweets/99"
                       [EvHttp GET "/users/me"]))
  /\ (false = false
      /\ exists evs,
           four_failures UNSUPPORTED "/users/7/retweets/99" [EvHttp GET "/users/me"]
           = [] ++ evs
           /\ Forall (at_most_call GET "/users/me") evs).
Proof.
  split; [vm_compute; reflexivity|].
  apply (unretweet_and_unlike_tweet_never_reach_the_platform
           format_str id_7 4 (mkClient JNull) (mkWorld 0 []) "99"
           false (mkClient (JStr "7"))
           (mkWorld 7 (four_failures UNSUPPORTED "/users/7/retweets/99"
                         [EvHttp GET "/users/me"]))).
  left. vm_compute. reflexivity.
Defined.

(** The requests of [retweet] and [like_tweet]. *)
Lemma post_request_true transport fuel endpoint w1 w2
    (outcome : Json -> World -> Result bool * World) (after : list Event) :
  (forall response w, fst (outcome response w) = Ret true ->
     truthy response = true
     /\ trace (snd (outcome response w)) = trace w ++ after) ->
  match _make_request transport fuel POST endpoint 0 w1 with
  | None => None
  | Some (response, w2) => Some (outcome response w2)
  end = Some (Ret true, w2) ->
  exists before, trace w2 = before ++ EvHttp POST endpoint :: after.
Proof.
  intros Hout.
  destruct (_make_request _ _ _ _ _ _) as [[response w']|] eqn:R; [|discriminate].
  intros H. injection H as H.
  destruct (Hout response w') as (Ht & Ha); [rewrite H; reflexivity|].
  rewrite H in Ha. cbn [snd] in Ha.
  destruct (make_request_truthy _ _ _ _ _ _ _ _ R Ht) as (before & T).
  exists before. rewrite Ha, T, <- app_assoc. reflexivity.
Qed.

Lemma with_user_id_true py_format transport fuel c w request c' w' :
  with_user_id py_format transport fuel c w request = Some (true, c', w') ->
  truthy (user_id c') = true
  /\ exists w1, request (py_format (user_id c')) w1 = Some (Ret true, w').
Proof.
  unfold with_user_id.
  destruct (get_user_id transport fuel c w) as [[[r c1] w1]|] eqn:G;
    [|discriminate].
  destruct (get_user_id_effects _ _ _ _ _ _ _ G) as (_ & Hc).
  destruct r as [uid|]; [|discriminate].
  destruct (truthy uid) eqn:Hu; [|discriminate].
  destruct (request (py_format uid) w1) as [[[b|] w2]|] eqn:Q; try discriminate.
  intros H. injection H as -> <- <-.
  rewrite (Hc uid eq_refl Hu). split; [exact Hu|].
  exists w1. exact Q.
Qed.

Lemma retweet_outcome_true response w :
  fst (retweet_outcome response w) = Ret true ->
  truthy response = true
  /\ trace (snd (retweet_outcome response w)) = trace w ++ [EvLog INFO].
Proof.
  unfold retweet_outcome. destruct (truthy response); [|discriminate].
  destruct (py_in "data" response) as [[|]|]; try discriminate.
  - intros _. split; reflexivity.
  - destruct (py_in "errors" response) as [[|]|]; discriminate.
Qed.

Lemma has_data_true response (w : World) :
  fst (has_data response, w) = Ret true ->
  truthy response = true /\ trace (snd (has_data response, w)) = trace w ++ [].
Proof.
  cbn [fst snd]. unfold has_data. destruct (truthy response); [|discriminate].
  intros _. rewrite app_nil_r. split; reflexivity.
Qed.

(** X6. [create_tweet], [retweet] and [like_tweet] answer [True] only for
    an action that went through: the last call to the platform is then the
    POST of the action, the one whose payload had the key [data] (followed
    by the INFO line of [retweet]); for [retweet] and [like_tweet] the
    client holds a truthy user id and the endpoint is made from it. *)
Theorem true_means_the_post_went_through
    (py_format : Json -> string) (transport : Transport) (fuel : nat)
    (c : Client) (w : World) (tweet_id : string) (c' : Client) (w' : World) :
  (create_tweet transport fuel w = Some (true, w') ->
   exists before, trace w' = before ++ [EvHttp POST "/tweets"])
  /\ (retweet py_format transport fuel c w tweet_id = Some (true, c', w') ->
      truthy (user_id c') = true
      /\ exists before,
           trace w' = before ++ [EvHttp POST ("/users/" +:+ py_format (user_id c')
                                                +:+ "/retweets");
                                 EvLog INFO])
  /\ (like_tweet py_format transport fuel c w tweet_id = Some (true, c', w') ->
      truthy (user_id c') = true
      /\ exists before,
           trace w' = before ++ [EvHttp POST ("/users/" +:+ py_format (user_id c')
                                                +:+ "/likes")]).
Proof.
  split; [|split].
  - unfold create_tweet.
    destruct (_make_request _ _ _ _ _ _) as [[response w1]|] eqn:R; [|discriminate].
    destruct (has_data response) as [[|]|] eqn:Hd; try discriminate.
    intros [= <-]. apply (make_request_truthy _ _ _ _ _ _ _ _ R).
    unfold has_data in Hd. destruct (truthy response); [reflexivity | discriminate].
  - intros H. apply with_user_id_true in H. destruct H as (Hu & w1 & Q).
    split; [exact Hu|].
    exact (post_request_true _ _ _ _ _ retweet_outcome [EvLog INFO]
             retweet_outcome_true Q).
  - intros H. apply with_user_id_true in H. destruct H as (Hu & w1 & Q).
    split; [exact Hu|].
    exact (post_request_true _ _ _ _ _ (fun r w => (has_data r, w)) []
             has_data_true Q).
Qed.

Lemma true_means_the_post_went_through_witness :
  (exists before, [EvHttp POST "/tweets"] = before ++ [EvHttp POST "/tweets"])
  /\ (truthy (JStr "7") = true
      /\ exists before,
           [EvHttp GET "/users/me"; EvHttp POST "/users/7/retweets"; EvLog INFO]
           = before ++ [EvHttp POST "/users/7/retweets"; EvLog INFO])
  /\ (truthy (JStr "7") = true
      /\ exists before,
           [EvHttp GET "/users/me"; EvHttp POST "/users/7/likes"]
           = before ++ [EvHttp POST "/users/7/likes"]).
Proof.
  split; [|split].
  - apply (proj1 (true_means_the_post_went_through
                    format_str id_7 1 (mkClient JNull) (mkWorld 0 []) "99"
                    (mkClient JNull) (mkWorld 0 [EvHttp POST "/tweets"]))).
    vm_compute. reflexivity.
  - apply (proj1 (proj2 (true_means_the_post_went_through
                    format_str id_7 1 (mkClient JNull) (mkWorld 0 []) "99"
                    (mkClient (JStr "7"))
                    (mkWorld 0 [EvHttp GET "/users/me";
                                EvHttp POST "/users/7/retweets"; EvLog INFO])))).
    vm_compute. reflexivity.
  - apply (proj2 (proj2 (true_means_the_post_went_through
                    format_str id_7 1 (mkClient JNull) (mkWorld 0 []) "99"
                    (mkClient (JStr "7"))
                    (mkWorld 0 [EvHttp GET "/users/me";
                                EvHttp POST "/users/7/likes"])))).
    vm_compute. reflexivity.
Defined.

(** *** The lookups *)

(** X7. [get_user_id_by_username], [is_user_verified], [get_tweet_metrics]
    and [get_tweet_thread] do not tell a failed request from an absent
    field: when every attempt of the GET fails, each returns its default
    ([None], or [False] for the verification) after the four attempts and
    seven seconds of [_make_request], without an error line of its own. *)
Theorem lookups_answer_the_default_when_requests_fail
    (transport : Transport) (fuel : nat) (arg : string) (w : World) :
  (forall endpoint w0, classify (transport GET endpoint w0) = Failed) ->
  (4 <= fuel)%nat ->
  let after endpoint := mkWorld (clock w + 7) (four_failures GET endpoint (trace w)) in
  get_user_id_by_username transport fuel arg w
  = Some (JNull, after ("/users/by/username/" +:+ arg))
  /\ is_user_verified transport fuel arg w
     = Some (JBool false, after ("/users/" +:+ arg))
  /\ get_tweet_metrics transport fuel arg w
     = Some (JNull, after ("/tweets/" +:+ arg))
  /\ get_tweet_thread transport fuel arg w
     = Some (JNull, after ("/tweets/" +:+ arg)).
Proof.
  intros Hfail Hfuel after.
  assert (L : forall endpoint field default,
             lookup_field transport fuel endpoint field default w
             = Some (default, after endpoint)).
  { intros endpoint field default. unfold lookup_field.
    destruct (four_failures_then_none transport GET endpoint w fuel)
      as (w' & R & T & C); [right; intros; apply Hfail | exact Hfuel |].
    rewrite R. cbn. destruct w' as [k t]. cbn in T, C. subst. reflexivity. }
  repeat split; apply L.
Qed.

Lemma lookups_answer_the_default_when_requests_fail_witness :
  get_user_id_by_username unreachable 4 "ada" (mkWorld 0 [])
  = Some (JNull, mkWorld (0 + 7)
                   (four_failures GET ("/users/by/username/" +:+ "ada") []))
  /\ is_user_verified unreachable 4 "ada" (mkWorld 0 [])
     = Some (JBool false, mkWorld (0 + 7) (four_failures GET ("/users/" +:+ "ada") []))
  /\ get_tweet_metrics unreachable 4 "ada" (mkWorld 0 [])
     = Some (JNull, mkWorld (0 + 7) (four_failures GET ("/tweets/" +:+ "ada") []))
  /\ get_tweet_thread unreachable 4 "ada" (mkWorld 0 [])
     = Some (JNull, mkWorld (0 + 7) (four_failures GET ("/tweets/" +:+ "ada") [])).
Proof.
  apply (lookups_answer_the_default_when_requests_fail
           unreachable 4 "ada" (mkWorld 0 [])).
  - intros endpoint w0. reflexivity.
  - lia.
Defined.

End GatewayFacts.

(** ** ai_client.py: the shape of a reply and the polling *)

Module RepliesFacts.
Import Runtime AIClient AIClientFacts Replies.

Lemma truncate_length (cleaned : str) : (length (truncate cleaned) <= 280)%nat.
Proof.
  unfold truncate, Config.TWEET_MAX_LENGTH.
  destruct (Z.ltb_spec 280 (Z.of_nat (length cleaned))); [|lia].
  rewrite length_app, length_take.
  change (length (utf8 "...")) with 3%nat. lia.
Qed.

Lemma first_text_length nd ws contents reply :
  first_text nd ws contents = Some reply -> (length reply <= 280)%nat.
Proof.
  induction contents as [|c rest IH]; [discriminate|]. cbn [first_text].
  destruct (String.eqb (ctype c) "text"); [|exact IH].
  intros [= <-]. apply truncate_length.
Qed.

(** X8. Whatever the backend answers and whatever the Unicode tables are,
    a reply that [get_response] returns has at most [TWEET_MAX_LENGTH] = 280
    code points. *)
Theorem get_response_reply_fits_a_tweet
    (unicode_Nd unicode_White : N -> bool) (b : Backend) (fuel : nat) (reply : str) :
  get_response unicode_Nd unicode_White b fuel = Some (Some reply) ->
  Z.of_nat (length reply) <= Config.TWEET_MAX_LENGTH.
Proof.
  unfold get_response, Config.TWEET_MAX_LENGTH.
  destruct (create_raises b); [discriminate|].
  destruct (_wait_for_run fuel (polls b) 0) as [[|]|]; try discriminate.
  destruct (messages b) as [[|m rest]|]; try discriminate.
  destruct (String.eqb (role m) "assistant"); [|discriminate].
  intros [= H]. apply first_text_length in H. lia.
Qed.

Lemma get_response_reply_fits_a_tweet_witness :
  Z.of_nat (length (truncate (clean_response (fun _ => false) (fun _ => false)
                                (repeat 97%N 300))))
  <= Config.TWEET_MAX_LENGTH.
Proof.
  apply (get_response_reply_fits_a_tweet (fun _ => false) (fun _ => false)
           (mkBackend false third_poll_completes
              (Ret [mkMessage "assistant" [mkContent "text" (repeat 97%N 300)]]))
           3).
  vm_compute. reflexivity.
Defined.

(** One execution of the body of the loop. *)
Lemma wait_for_run_pending fuel polls i :
  pending (polls i) = true ->
  _wait_for_run (S fuel) polls i = _wait_for_run fuel polls (S i).
Proof.
  cbn [_wait_for_run]. unfold pending, terminal.
  destruct (polls i) as [|s]; [discriminate|].
  destruct (String.eqb s "completed"); [discriminate|].
  destruct (String.eqb s "failed" || String.eqb s "expired"
            || String.eqb s "cancelled"); [discriminate|].
  destruct (String.eqb s "requires_action"); [discriminate|]. reflexivity.
Qed.

Lemma wait_for_run_terminal fuel polls i :
  pending (polls i) = false ->
  _wait_for_run (S fuel) polls i = Some (completed (polls i)).
Proof.
  cbn [_wait_for_run]. unfold pending, terminal, completed.
  destruct (polls i) as [|s]; [reflexivity|].
  destruct (String.eqb s "completed"); [reflexivity|].
  destruct (String.eqb s "failed" || String.eqb s "expired"
            || String.eqb s "cancelled"); [reflexivity|].
  destruct (String.eqb s "requires_action"); [reflexivity | discriminate].
Qed.

(** X9. [_wait_for_run] polls until the first poll that raises or shows a
    status among completed, failed, expired, cancelled and requires_action.
    When that is the poll number [n] (counting from 0), [n] polls are not
    enough, [n + 1] are, and the run is returned exactly when the status of
    that poll is completed. *)
Theorem wait_for_run_stops_at_the_first_terminal_poll
    (polls : nat -> Poll) (n : nat) :
  (forall j, (j < n)%nat -> pending (polls j) = true) ->
  pending (polls n) = false ->
  forall fuel,
    _wait_for_run fuel polls 0
    = if (fuel <=? n)%nat then None else Some (completed (polls n)).
Proof.
  intros Hpending Hstop.
  assert (G : forall k fuel i, (i + k = n)%nat ->
            _wait_for_run fuel polls i
            = if (fuel <=? k)%nat then None else Some (completed (polls n))).
  { induction k as [|k IH]; intros fuel i Hi.
    - destruct fuel as [|fuel]; [reflexivity|].
      replace i with n by lia. apply wait_for_run_terminal, Hstop.
    - destruct fuel as [|fuel]; [reflexivity|].
      rewrite wait_for_run_pending by (apply Hpending; lia).
      rewrite (IH fuel (S i)) by lia. reflexivity. }
  intros fuel. apply G. lia.
Qed.

Lemma wait_for_run_stops_at_the_first_terminal_poll_witness :
  _wait_for_run 2 third_poll_completes 0 = None
  /\ _wait_for_run 3 third_poll_completes 0 = Some true.
Proof.
  assert (H : forall fuel,
            _wait_for_run fuel third_poll_completes 0
            = if (fuel <=? 2)%nat then None
              else Some (completed (third_poll_completes 2))).
  { apply (wait_for_run_stops_at_the_first_terminal_poll third_poll_completes 2).
    - intros [|[|j]] Hj; [reflexivity | reflexivity | lia].
    - reflexivity. }
  split; [exact (H 2%nat) | exact (H 3%nat)].
Defined.

(** X10. The polling has no timeout: while every poll shows a status that
    is none of the five above (queued, in_progress, ...), [_wait_for_run]
    does not return, however many polls it is given, and neither does
    [get_response] once the thread and the run are created. *)
Theorem get_response_never_returns_while_the_run_is_pending
    (unicode_Nd unicode_White : N -> bool) (b : Backend) :
  create_raises b = false ->
  (forall j, pending (polls b j) = true) ->
  forall fuel,
    _wait_for_run fuel (polls b) 0 = None
    /\ get_response unicode_Nd unicode_White b fuel = None.
Proof.
  intros Hcreate Hpending.
  assert (G : forall fuel i, _wait_for_run fuel (polls b) i = None).
  { induction fuel as [|fuel IH]; intros i; [reflexivity|].
    rewrite wait_for_run_pending by apply Hpending. apply IH. }
  intros fuel. split; [apply G|].
  unfold get_response. rewrite Hcreate, G. reflexivity.
Qed.

Lemma get_response_never_returns_while_the_run_is_pending_witness :
  _wait_for_run 1000 in_progress 0 = None
  /\ get_response (fun _ => false) (fun _ => false)
       (mkBackend false in_progress (Ret [])) 1000 = None.
Proof.
  apply (get_response_never_returns_while_the_run_is_pending
           (fun _ => false) (fun _ => false) (mkBackend false in_progress (Ret []))).
  - reflexivity.
  - intros j. reflexivity.
Defined.

(** *** Whitespace in a cleaned reply *)

Section Whitespace.

Variables unicode_Nd unicode_White : N -> bool.

Lemma space_is_space : is_space unicode_White 32 = true.
Proof. reflexivity. Qed.

(** [\s+] matches the longest run of whitespace at the start of the text,
    if there is one. *)
Lemma match_whitespace s :
  match_here unicode_Nd unicode_White whitespace s
  = if (run_length unicode_Nd unicode_White Space s <? 1)%nat then None
    else Some ([], skipn (run_length unicode_Nd unicode_White Space s) s).
Proof.
  unfold whitespace, spaces. cbn [match_here quant cls captured].
  destruct (run_length unicode_Nd unicode_White Space s) as [|n] eqn:E;
    cbn [backtrack]; [reflexivity|].
  destruct (S n <? 1)%nat eqn:E1; [apply Nat.ltb_lt in E1; lia|]. reflexivity.
Qed.

Lemma run_length_stops s :
  starts_without_space unicode_White (skipn (run_length unicode_Nd unicode_White Space s) s).
Proof.
  induction s as [|x s IH]; [exact I|]. cbn [run_length member].
  destruct (is_space unicode_White x) eqn:E; [exact IH | exact E].
Qed.

Lemma sub_whitespace_spaced fuel :
  forall s b,
    (length s <= fuel)%nat ->
    (b = true -> starts_without_space unicode_White s) ->
    spaced unicode_White b
      (sub_from unicode_Nd unicode_White fuel whitespace (Lit [32%N]) s) = true.
Proof.
  induction fuel as [|fuel IH]; intros s b Hlen Hb.
  - destruct s; [reflexivity | simpl in Hlen; lia].
  - destruct s as [|x s]; [reflexivity|].
    cbn [sub_from]. rewrite match_whitespace. cbn [run_length member].
    destruct (is_space unicode_White x) eqn:E.
    + destruct b; [specialize (Hb eq_refl); simpl in Hb; congruence|].
      change (S ?n <? 1)%nat with false. cbn [expand app skipn].
      cbn [Replies.spaced]. rewrite space_is_space. cbn [N.eqb Pos.eqb negb andb].
      apply IH.
      * rewrite length_skipn. simpl in Hlen. lia.
      * intros _. apply run_length_stops.
    + cbn [Nat.ltb Nat.leb]. cbn [Replies.spaced]. rewrite E.
      apply IH; [simpl in Hlen; lia | discriminate].
Qed.

Lemma spaced_tidy s : forall b, spaced unicode_White b s = true -> tidy unicode_White s.
Proof.
  induction s as [|x s IH]; intros b H.
  - split; [intros c []|]. intros [|? ?] x y rest; discriminate.
  - cbn [Replies.spaced] in H. destruct (is_space unicode_White x) eqn:E.
    + apply andb_prop in H as [H Hs]. apply andb_prop in H as [Hx _].
      apply N.eqb_eq in Hx. destruct (IH _ Hs) as [I1 I2]. split.
      * intros c [<-|Hc] Hsp; [exact Hx | exact (I1 c Hc Hsp)].
      * intros [|z before] x' y rest Heq Hsp.
        -- injection Heq as <- ->. cbn [Replies.spaced] in Hs.
           destruct (is_space unicode_White y); [|reflexivity].
           rewrite andb_false_r in Hs. discriminate.
        -- injection Heq as _ ->. exact (I2 _ _ _ _ eq_refl Hsp).
    + destruct (IH _ H) as [I1 I2]. split.
      * intros c [<-|Hc] Hsp; [congruence | exact (I1 c Hc Hsp)].
      * intros [|z before] x' y rest Heq Hsp.
        -- injection Heq as <- ->. congruence.
        -- injection Heq as _ ->. exact (I2 _ _ _ _ eq_refl Hsp).
Qed.

Lemma tidy_suffix a s : tidy unicode_White (a ++ s) -> tidy unicode_White s.
Proof.
  intros [I1 I2]. split.
  - intros c Hc. apply I1, in_or_app. right. exact Hc.
  - intros before x y rest ->. apply (I2 (a ++ before) x y rest).
    rewrite <- app_assoc. reflexivity.
Qed.

Lemma tidy_rev s : tidy unicode_White s -> tidy unicode_White (rev s).
Proof.
  intros [I1 I2]. split.
  - intros c Hc. apply I1, in_rev. exact Hc.
  - intros before x y rest Heq Hx.
    destruct (is_space unicode_White y) eqn:Ey; [|reflexivity].
    assert (Hs : s = rev rest ++ y :: x :: rev before).
    { rewrite <- (rev_involutive s), Heq, rev_app_distr. cbn [rev].
      rewrite <- !app_assoc. reflexivity. }
    rewrite (I2 _ _ _ _ Hs Ey) in Hx. discriminate.
Qed.

Lemma lstrip_suffix s : exists a, s = a ++ lstrip unicode_White s.
Proof.
  induction s as [|x s [a IH]]; [exists []; reflexivity|]. cbn [lstrip].
  destruct (is_space unicode_White x).
  - exists (x :: a). cbn. rewrite <- IH. reflexivity.
  - exists []. reflexivity.
Qed.

Lemma lstrip_starts s : starts_without_space unicode_White (lstrip unicode_White s).
Proof.
  induction s as [|x s IH]; [exact I|]. cbn [lstrip].
  destruct (is_space unicode_White x) eqn:E; [exact IH | exact E].
Qed.

Lemma strip_normalised s : tidy unicode_White s -> normalised unicode_White (strip unicode_White s).
Proof.
  intros Ht. unfold strip.
  pose proof (lstrip_starts s) as Sl.
  destruct (lstrip_suffix s) as [a Ha].
  remember (lstrip unicode_White s) as l eqn:El.
  pose proof (lstrip_starts (rev l)) as Sr.
  destruct (lstrip_suffix (rev l)) as [a' Ha'].
  remember (lstrip unicode_White (rev l)) as r eqn:Er.
  assert (Hl : tidy unicode_White l).
  { apply (tidy_suffix a). rewrite <- Ha. exact Ht. }
  assert (Hr : tidy unicode_White r).
  { apply (tidy_suffix a'). rewrite <- Ha'. apply tidy_rev, Hl. }
  destruct (tidy_rev _ Hr) as [I1 I2].
  constructor; [exact I1 | exact I2 | |].
  - intros x rest Heq.
    assert (Hrl : r = rev rest ++ [x]).
    { rewrite <- (rev_involutive r), Heq. reflexivity. }
    assert (Hll : l = x :: rev (a' ++ rev rest)).
    { rewrite <- (rev_involutive l), Ha', Hrl, app_assoc, rev_app_distr.
      reflexivity. }
    rewrite Hll in Sl. exact Sl.
  - intros before x Heq.
    assert (Hrl : r = x :: rev before).
    { rewrite <- (rev_involutive r), Heq, rev_app_distr. reflexivity. }
    rewrite Hrl in Sr. exact Sr.
Qed.

Lemma re_sub_whitespace_tidy s :
  tidy unicode_White (re_sub unicode_Nd unicode_White whitespace (Lit [32%N]) s).
Proof.
  apply (spaced_tidy _ false). unfold re_sub.
  apply sub_whitespace_spaced; [lia | discriminate].
Qed.

End Whitespace.

(** X11. Whatever the text and the Unicode tables, the result of
    [clean_response] has its whitespace normalised: every whitespace code
    point in it is the space U+0020, no two of them are adjacent, and the
    text neither begins nor ends with one. *)
Theorem clean_response_normalises_whitespace
    (unicode_Nd unicode_White : N -> bool) (text : str) :
  normalised unicode_White (clean_response unicode_Nd unicode_White text).
Proof.
  unfold clean_response. destruct text as [|x text].
  - constructor.
    + intros c [].
    + intros [|? ?] x y rest; discriminate.
    + discriminate.
    + intros [|? ?] x; discriminate.
  - cbv zeta. apply strip_normalised, re_sub_whitespace_tidy.
Qed.

End RepliesFacts.

(** ** main.py: what every run of the scheduler respects *)

Module RunsFacts.
Import Runtime Bot BotFacts Runs.

Section Frame.

Variable env : Env.
Variable R : State -> State -> Prop.

Hypothesis R_refl : forall s, R s s.
Hypothesis R_trans : forall s1 s2 s3, R s1 s2 -> R s2 s3 -> R s1 s3.
Hypothesis R_logger : forall l, respects R (logger l).
Hypothesis R_call : forall A e (answer : World -> A), respects R (call env e answer).
Hypothesis R_sleep_for : forall d, 0 <= d -> respects R (sleep_for env d).
Hypothesis R_acquire : forall l, respects R (acquire env l).
Hypothesis R_add_processed : forall i, respects R (add_processed i).
Hypothesis R_set_last : forall k t, respects R (modify (set_last k t)).
Hypothesis R_set_processor :
  forall f, respects R (modify (fun b => set_processor (f b) b)).

Lemma respects_ret {A} (a : A) : respects R (ret a).
Proof. intros s r s' [= <- <-]. apply R_refl. Qed.

Lemma respects_raise {A} : respects R (@raise A).
Proof. intros s r s' [= <- <-]. apply R_refl. Qed.

Lemma respects_get_bot : respects R get_bot.
Proof. intros s r s' [= <- <-]. apply R_refl. Qed.

Lemma respects_now : respects R now.
Proof. intros s r s' [= <- <-]. apply R_refl. Qed.

Lemma respects_bind {A B} (m : M A) (k : A -> M B) :
  respects R m -> (forall a, respects R (k a)) -> respects R (bind m k).
Proof.
  intros Hm Hk s r s' H. apply bind_inv in H as [(a & s1 & H1 & H2)|[_ H1]].
  - eapply R_trans; [exact (Hm _ _ _ H1) | exact (Hk _ _ _ _ H2)].
  - exact (Hm _ _ _ H1).
Qed.

Lemma respects_catch {A} (m handler : M A) :
  respects R m -> respects R handler -> respects R (catch m handler).
Proof.
  intros Hm Hh s r s'. unfold catch. destruct (m s) as [[a|] s1] eqn:E.
  - intros [= <- <-]. exact (Hm _ _ _ E).
  - intros H. eapply R_trans; [exact (Hm _ _ _ E) | exact (Hh _ _ _ H)].
Qed.

Ltac frame_with known :=
  repeat first
    [ progress (intros)
    | match goal with
      | |- respects R (bind _ _) => apply respects_bind
      | |- respects R (catch _ _) => apply respects_catch
      | |- respects R (ret _) => apply respects_ret
      | |- respects R raise => apply respects_raise
      | |- respects R get_bot => apply respects_get_bot
      | |- respects R now => apply respects_now
      | |- respects R (logger _) => apply R_logger
      | |- respects R (call _ _ _) => apply R_call
      | |- respects R (acquire _ _) => apply R_acquire
      | |- respects R (add_processed _) => apply R_add_processed
      | |- respects R (modify (set_last _ _)) => apply R_set_last
      | |- respects R (modify _) => apply R_set_processor
      | |- respects R (sleep_for _ _) => apply R_sleep_for; lia
      | IH : forall _, respects R _ |- _ => apply IH
      | IH : respects R ?m |- respects R ?m => exact IH
      | |- respects R (if ?c then _ else _) => destruct c
      | |- respects R (match ?x with _ => _ end) => destruct x
      end
    | known ].

Ltac frame := frame_with fail.

Lemma respects_finish k : respects R (t <- now ;; modify (set_last k t)).
Proof. frame. Qed.

Lemma respects_process_mention t : respects R (process_mention env t).
Proof. unfold process_mention. frame. Qed.

Lemma respects_initialize : respects R (initialize env).
Proof. unfold initialize. frame. Qed.

Lemma respects_filter_recent now_ limit fetched :
  respects R (filter_recent now_ limit fetched).
Proof. induction fetched as [|mention rest IH]; cbn [filter_recent]; frame. Qed.

Lemma respects_get_mentions : respects R (get_mentions env).
Proof.
  unfold get_mentions.
  frame_with ltac:(first [apply respects_initialize | apply respects_filter_recent]).
Qed.

Lemma respects_mentions_loop items : respects R (mentions_loop env items).
Proof.
  induction items as [|mention rest IH]; cbn [mentions_loop];
    frame_with ltac:(apply respects_process_mention).
Qed.

Lemma respects_mentions_body : respects R (mentions_body env).
Proof.
  unfold mentions_body.
  frame_with ltac:(first [apply respects_get_mentions | apply respects_mentions_loop]).
Qed.

Lemma respects_account_tweets_loop user two_hours_ago tweets :
  respects R (account_tweets_loop env user two_hours_ago tweets).
Proof.
  induction tweets as [|tweet rest IH]; cbn [account_tweets_loop];
    frame_with ltac:(apply respects_process_mention).
Qed.

Lemma respects_check_account user : respects R (check_account env user).
Proof.
  unfold check_account. frame_with ltac:(apply respects_account_tweets_loop).
Qed.

Lemma respects_accounts_loop users : respects R (accounts_loop env users).
Proof.
  induction users as [|user rest IH]; cbn [accounts_loop];
    frame_with ltac:(apply respects_check_account).
Qed.

Lemma respects_accounts_body : respects R (accounts_body env).
Proof. unfold accounts_body. frame_with ltac:(apply respects_accounts_loop). Qed.

Lemma respects_hashtag_tweets_loop tweets :
  forall processed_count,
    respects R (hashtag_tweets_loop env processed_count tweets).
Proof.
  induction tweets as [|tweet rest IH]; intros processed_count;
    cbn [hashtag_tweets_loop]; frame_with ltac:(apply respects_process_mention).
Qed.

Lemma respects_hashtags_loop tags : respects R (hashtags_loop env tags).
Proof.
  induction tags as [|hashtag rest IH]; cbn [hashtags_loop];
    frame_with ltac:(apply respects_hashtag_tweets_loop).
Qed.

Lemma respects_hashtags_body : respects R (hashtags_body env).
Proof. unfold hashtags_body. frame_with ltac:(apply respects_hashtags_loop). Qed.

Lemma respects_process_task k : respects R (process_task env k).
Proof.
  destruct k; cbn [process_task];
    [unfold process_mentions | unfold process_accounts | unfold process_hashtags];
    (apply respects_bind; [apply respects_now | intros t]);
    (apply respects_bind; [apply respects_get_bot | intros b]);
    (match goal with |- respects R (if ?c then _ else _) => destruct c end);
    first [apply R_logger | apply respects_mentions_body
          | apply respects_accounts_body | apply respects_hashtags_body].
Qed.

Lemma respects_should_process k : respects R (should_process k).
Proof. unfold should_process. frame. Qed.

Lemma respects_tick_task k : respects R (tick_task env k).
Proof.
  unfold tick_task.
  apply respects_bind; [apply respects_should_process | intros [|]];
    [|apply respects_ret].
  apply respects_bind; [apply R_logger | intros _].
  apply respects_bind; [apply respects_process_task | intros _].
  apply respects_finish.
Qed.

(** The [try] block of an iteration and the iteration, given that the
    eviction respects the relation too. *)
Lemma respects_iteration :
  respects R cleanup_processed_tweets ->
  respects R (tick_task env mentions ;;
              tick_task env accounts ;;
              tick_task env hashtags ;;
              cleanup_processed_tweets ;;
              logger INFO ;;
              sleep_for env 60).
Proof.
  intros Hcleanup.
  frame_with ltac:(first [apply respects_tick_task | exact Hcleanup]).
Qed.

Lemma respects_tick :
  respects R cleanup_processed_tweets -> respects R (tick env).
Proof.
  intros Hcleanup. unfold tick.
  apply respects_catch; [apply respects_iteration, Hcleanup|].
  apply respects_bind; [apply R_logger | intros _].
  apply R_sleep_for. unfold Config.ERROR_DELAY. lia.
Qed.

End Frame.

(** *** The clock *)

Lemma acquire_shape rl now_ lag rl' slept recorded :
  RateLimiter.acquire rl now_ lag = Some (rl', slept, recorded) ->
  recorded = now_ + slept + lag /\ 0 <= slept
  /\ RateLimiter.requests_per_window rl' = RateLimiter.requests_per_window rl
  /\ RateLimiter.window_seconds rl' = RateLimiter.window_seconds rl.
Proof.
  unfold RateLimiter.acquire.
  destruct (_ <=? _).
  - destruct (RateLimiter.popleft_expired _ _ _) as [|r0 q]; [discriminate|].
    intros [= <- <- <-]. cbn.
    destruct (Z.ltb_spec 0 (r0 + RateLimiter.window_seconds rl - now_));
      repeat split; lia.
  - intros [= <- <- <-]. cbn. repeat split; lia.
Qed.

Lemma acquire_raises rl now_ lag :
  RateLimiter.acquire rl now_ lag = None ->
  RateLimiter.requests_per_window rl <= 0.
Proof.
  unfold RateLimiter.acquire.
  destruct (Z.leb_spec (RateLimiter.requests_per_window rl)
              (Z.of_nat (length (RateLimiter.popleft_expired now_
                                   (RateLimiter.window_seconds rl)
                                   (RateLimiter.requests rl))))) as [H|H];
    [|discriminate].
  destruct (RateLimiter.popleft_expired _ _ _); [|discriminate].
  intros _. simpl in H. lia.
Qed.

Lemma clock_le_logger l : respects clock_le (logger l).
Proof. intros s r s' [= <- <-]. unfold clock_le. simpl. lia. Qed.

Lemma clock_le_call env A e (answer : World -> A) :
  respects clock_le (call env e answer).
Proof. intros s r s' [= <- <-]. unfold clock_le. simpl. lia. Qed.

Lemma clock_le_sleep_for env d : 0 <= d -> respects clock_le (sleep_for env d).
Proof. intros Hd s r s' [= <- <-]. unfold clock_le. simpl. lia. Qed.

Lemma clock_le_acquire env l : respects clock_le (acquire env l).
Proof.
  intros s r s'. unfold acquire.
  destruct (RateLimiter.acquire _ _ _) as [[[rl slept] recorded]|] eqn:E.
  - intros [= <- <-]. apply acquire_shape in E as (-> & Hs & _).
    unfold clock_le. simpl. lia.
  - intros [= <- <-]. unfold clock_le. lia.
Qed.

Lemma clock_le_modify f : respects clock_le (modify f).
Proof. intros s r s' [= <- <-]. unfold clock_le. simpl. lia. Qed.

Lemma clock_le_cleanup : respects clock_le cleanup_processed_tweets.
Proof.
  intros s r s'. unfold cleanup_processed_tweets, bind, now, get_bot, modify, raise.
  cbv beta. destruct (forallb _ _); intros [= <- <-]; unfold clock_le; simpl; lia.
Qed.

Ltac clock_le_frame :=
  unfold clock_le; try (intros; lia);
  first [ apply clock_le_logger | apply clock_le_call | apply clock_le_sleep_for
        | apply clock_le_acquire | apply clock_le_cleanup
        | intros; apply clock_le_modify ].







(** *** A processor that cannot learn its user id *)

Lemma idle_step_refl s : idle_step s s.
Proof.
  do 4 (split; [reflexivity|]). split; [lia|].
  exists []. rewrite app_nil_r. split; [reflexivity | constructor].
Qed.

Lemma idle_step_trans s1 s2 s3 : idle_step s1 s2 -> idle_step s2 s3 -> idle_step s1 s3.
Proof.
  intros (P1 & L1 & S1 & C1 & K1 & e1 & T1 & F1) (P2 & L2 & S2 & C2 & K2 & e2 & T2 & F2).
  split; [congruence|]. split; [congruence|]. split; [congruence|].
  split; [congruence|]. split; [lia|].
  exists (e1 ++ e2). rewrite T2, T1, app_assoc. split; [reflexivity|].
  apply Forall_app. split; assumption.
Qed.

Lemma starved_idle s s' : starved s -> idle_step s s' -> starved s'.
Proof.
  intros (Hu & Hc & Hd) (P & L & _ & C & K & _).
  unfold starved. rewrite P, L, C. split; [exact Hu|]. split; [exact Hc | lia].
Qed.

(** The mentions task of a starved bot raises at the lookup of the user
    id. *)
Lemma mentions_body_starved env s :
  (forall w, tc_get_user_id env w = Raised) ->
  starved s ->
  exists s', mentions_body env s = (Raised, s') /\ idle_step s s'.
Proof.
  intros Hraise (Hu & Hc & Hd).
  unfold mentions_body. unfold bind at 1. unfold acquire.
  destruct (RateLimiter.acquire _ _ _) as [[[rl slept] recorded]|] eqn:E;
    [|apply acquire_raises in E; cbn [get_limiter] in E; lia].
  apply acquire_shape in E as (Hrec & Hs & Hcap & _).
  unfold bind at 1. unfold get_mentions. unfold bind at 1.
  unfold initialize. unfold bind at 1, get_bot at 1.
  cbn [bot world set_limiter processor].
  rewrite Hu. unfold bind at 1, call at 1. cbv zeta. cbn [bot world].
  rewrite Hraise. unfold raise.
  eexists. split; [reflexivity|].
  unfold idle_step, advance, record.
  cbn [bot world set_limiter processor last_processed_time processed_tweets
       mentions_limiter clock trace].
  do 4 (split; [first [reflexivity | exact Hcap]|]).
  split; [lia|].
  destruct (0 <? slept).
  - exists [EvLog INFO; EvSleep slept; EvGetUserId]. cbn.
    rewrite <- !app_assoc. split; [reflexivity | repeat constructor].
  - exists [EvGetUserId]. split; [reflexivity | repeat constructor].
Qed.

Lemma tick_starved env s :
  (forall w, tc_get_user_id env w = Raised) ->
  starved s ->
  exists s', tick env s = (Ret tt, s') /\ idle_step s s'.
Proof.
  intros Hraise Hs.
  assert (Hlog : idle_step s (mkState (bot s) (log INFO (world s)))).
  { do 4 (split; [reflexivity|]). split; [simpl; lia|].
    exists [EvLog INFO]. split; [reflexivity | repeat constructor]. }
  pose proof (starved_idle _ _ Hs Hlog) as Hs1.
  destruct (mentions_body_starved env _ Hraise Hs1) as (s2 & Hbody & Hidle).
  assert (Htask : tick_task env mentions s = (Raised, s2)).
  { destruct Hs as (_ & _ & Hd). destruct Hs1 as (_ & _ & Hd1).
    unfold tick_task, should_process, bind at 1, bind at 1, bind at 1, now at 1,
      get_bot at 1.
    cbn [lookup_task check_intervals of_mentions]. cbn [lookup_task] in Hd.
    destruct (Z.ltb_spec (clock (world s)
                          - of_mentions (last_processed_time (bot s))) 180)
      as [Hlt|_]; [lia|].
    unfold ret, bind at 1, logger at 1, outside at 1.
    unfold bind at 1.
    rewrite (process_task_runs env mentions _ Hd1). cbn [task_body].
    rewrite Hbody. reflexivity. }
  unfold tick, catch. unfold bind at 1. rewrite Htask.
  unfold bind, logger, outside, sleep_for. eexists. split; [reflexivity|].
  eapply idle_step_trans; [exact Hlog|].
  eapply idle_step_trans; [exact Hidle|].
  unfold idle_step, sleep, log, advance, record. cbn [bot world clock trace].
  do 4 (split; [reflexivity|]). split; [unfold Config.ERROR_DELAY; lia|].
  exists [EvLog ERROR; EvSleep Config.ERROR_DELAY].
  rewrite <- app_assoc. split; [reflexivity | repeat constructor].
Qed.

(** X13. When the lookup of the user id raises (the processor has no user
    id yet, the mentions task is due and its limiter has a budget), every
    iteration of [main] ends in the mentions task: the accounts and the
    hashtags tasks are never reached, nothing is fetched, handled or
    stamped, and the bot does nothing but log, sleep and look the user id
    up again, for as many iterations as one likes. *)
Theorem accounts_and_hashtags_starve_without_user_id
    (env : Env) (n : nat) (s : State) :
  (forall w, tc_get_user_id env w = Raised) ->
  starved s ->
  exists s',
    main env n s = (Ret tt, s')
    /\ starved s'
    /\ last_processed_time (bot s') = last_processed_time (bot s)
    /\ processed_tweets (bot s') = processed_tweets (bot s)
    /\ exists evs, trace (world s') = trace (world s) ++ evs
                   /\ Forall only_waits evs.
Proof.
  intros Hraise. revert s.
  assert (H : forall s, starved s ->
            exists s', main env n s = (Ret tt, s') /\ idle_step s s').
  { induction n as [|n IH]; intros s Hs.
    - exists s. split; [reflexivity | apply idle_step_refl].
    - destruct (tick_starved env s Hraise Hs) as (s1 & Ht & H1).
      destruct (IH s1 (starved_idle _ _ Hs H1)) as (s' & Hm & H2).
      exists s'. split; [|exact (idle_step_trans _ _ _ H1 H2)].
      cbn [main]. unfold bind. rewrite Ht. exact Hm. }
  intros s Hs. destruct (H s Hs) as (s' & Hm & Hidle).
  exists s'. split; [exact Hm|]. split; [exact (starved_idle _ _ Hs Hidle)|].
  destruct Hidle as (_ & L & P & _ & _ & E). auto.
Qed.

Lemma accounts_and_hashtags_starve_without_user_id_witness :
  starved fresh_state
  /\ exists s',
       main no_user_id 3 fresh_state = (Ret tt, s')
       /\ starved s'
       /\ last_processed_time (bot s') = last_processed_time (bot fresh_state)
       /\ processed_tweets (bot s') = processed_tweets (bot fresh_state)
       /\ exists evs, trace (world s') = trace (world fresh_state) ++ evs
                      /\ Forall only_waits evs.
Proof.
  assert (Hs : starved fresh_state).
  { unfold starved. cbn. split; [reflexivity|]. split; lia. }
  split; [exact Hs|].
  apply (accounts_and_hashtags_starve_without_user_id no_user_id 3 fresh_state).
  - intros w. reflexivity.
  - exact Hs.
Defined.

(** *** An id in the dedup set that is no number *)
















(** *** The replies of the hashtags task *)











(** *** The age of what the accounts task handles *)

Lemma acts_refl P s : acts P s s.
Proof. exists []. rewrite app_nil_r. split; [reflexivity | constructor]. Qed.

Lemma acts_trans P s1 s2 s3 : acts P s1 s2 -> acts P s2 s3 -> acts P s1 s3.
Proof.
  intros (e1 & T1 & F1) (e2 & T2 & F2). exists (e1 ++ e2).
  rewrite T2, T1, app_assoc. split; [reflexivity|].
  apply Forall_app. split; assumption.
Qed.


Lemma acts_logger P l : respects (acts P) (logger l).
Proof.
  intros s r s' [= <- <-]. exists [EvLog l]. split; [reflexivity|].
  repeat constructor.
Qed.

Lemma acts_sleep_for P env d : respects (acts P) (sleep_for env d).
Proof.
  intros s r s' [= <- <-]. exists [EvSleep d]. split; [reflexivity|].
  repeat constructor.
Qed.

Lemma acts_call P env A e (answer : World -> A) :
  acts_only_on P e -> respects (acts P) (call env e answer).
Proof.
  intros He s r s' [= <- <-]. exists [e]. split; [reflexivity|].
  repeat constructor. exact He.
Qed.

Lemma acts_acquire P env l : respects (acts P) (acquire env l).
Proof.
  intros s r s'. unfold acquire.
  destruct (RateLimiter.acquire _ _ _) as [[[rl slept] recorded]|];
    intros [= <- <-]; [|apply acts_refl].
  cbn [world trace]. destruct (0 <? slept).
  - exists [EvLog INFO; EvSleep slept]. cbn. rewrite <- app_assoc.
    split; [reflexivity | repeat constructor].
  - exists []. rewrite app_nil_r. split; [reflexivity | constructor].
Qed.

Lemma acts_modify P f : respects (acts P) (modify f).
Proof.
  intros s r s' [= <- <-]. exists []. cbn [world]. rewrite app_nil_r.
  split; [reflexivity | constructor].
Qed.









(** *** mention_processor.py: what [get_mentions] returns *)

(** The loop only logs: it leaves the bot and the clock as they are. *)
Lemma filter_recent_logs now_ limit fetched :
  forall s r s',
    filter_recent now_ limit fetched s = (r, s') ->
    bot s' = bot s /\ clock (world s') = clock (world s)
    /\ exists evs, trace (world s') = trace (world s) ++ evs
                   /\ Forall (fun e => e = EvLog INFO) evs.
Proof.
  induction fetched as [|mention rest IH]; cbn [filter_recent]; intros s r s' H.
  - injection H as <- <-. do 2 (split; [reflexivity|]).
    exists []. rewrite app_nil_r. split; [reflexivity | constructor].
  - destruct (created_at mention) as [| |at_].
    + exact (IH _ _ _ H).
    + injection H as <- <-. do 2 (split; [reflexivity|]).
      exists []. rewrite app_nil_r. split; [reflexivity | constructor].
    + destruct (_ <=? _).
      * apply bind_inv in H as [(l & s1 & H1 & H2)|[_ H1]];
          [injection H2 as <- <-|]; exact (IH _ _ _ H1).
      * apply bind_inv in H as [([] & s1 & H1 & H2)|[_ [=]]].
        injection H1 as <-. destruct (IH _ _ _ H2) as (B & C & evs & T & F).
        split; [exact B|]. split; [exact C|].
        exists (EvLog INFO :: evs). split.
        -- rewrite T. cbn. rewrite <- app_assoc. reflexivity.
        -- constructor; [reflexivity | exact F].
Qed.

Lemma filter_recent_raises now_ limit fetched mention :
  In mention fetched -> created_at mention = BadDate ->
  forall s, exists s', filter_recent now_ limit fetched s = (Raised, s').
Proof.
  intros Hin Hbad. induction fetched as [|m rest IH]; [destruct Hin|].
  intros s. cbn [filter_recent].
  destruct Hin as [->|Hin]; [rewrite Hbad; exists s; reflexivity|].
  destruct (created_at m) as [| |at_].
  - apply IH, Hin.
  - exists s. reflexivity.
  - destruct (_ <=? _).
    + destruct (IH Hin s) as (s' & E). exists s'. unfold bind. rewrite E. reflexivity.
    + unfold bind at 1, logger, outside. apply IH, Hin.
Qed.

Lemma filter_recent_returns now_ limit fetched :
  Forall readable fetched ->
  forall s, exists s',
    filter_recent now_ limit fetched s
    = (Ret (List.filter (within now_ limit) fetched), s').
Proof.
  induction 1 as [|m rest Hm _ IH]; intros s; [exists s; reflexivity|].
  cbn [filter_recent List.filter]. unfold within at 1. unfold readable in Hm.
  destruct (created_at m) as [| |at_]; [apply IH | congruence |].
  destruct (_ <=? _).
  - destruct (IH s) as (s' & E). exists s'. unfold bind. rewrite E. reflexivity.
  - unfold bind at 1, logger, outside. apply IH.
Qed.

(** [get_mentions] of a processor that knows its user id, up to the loop
    over what was fetched. *)
Lemma get_mentions_initialized env s :
  truthy (p_user_id (processor (bot s))) = true ->
  get_mentions env s
  = catch
      (fetched <- call env EvGetMentions (tc_get_mentions env) ;;
       match fetched with
       | [] => ret []
       | _ =>
           t <- now ;;
           filtered <- filter_recent t (mention_age_limit_minutes (processor (bot s)))
                         fetched ;;
           match filtered with
           | [] => ret []
           | first :: _ =>
               logger INFO ;;
               modify (fun b =>
                 set_processor
                   (mkProcessor (p_user_id (processor b)) (JStr (id first))
                      (mention_age_limit_minutes (processor b))) b) ;;
               ret filtered
           end
       end)
      (logger ERROR ;; ret []) s.
Proof.
  intros Hu. unfold get_mentions, initialize.
  unfold bind at 1, bind at 1, get_bot at 1. rewrite Hu.
  unfold ret at 1. unfold bind at 1, get_bot at 1. rewrite Hu. reflexivity.
Qed.

(** X17. [fromisoformat] raises inside the [try] of [get_mentions]: when
    one of the fetched mentions has a [created_at] that is no ISO date, the
    processor (which knows its user id) returns no mention at all, also not
    the readable ones fetched with it; it logs the error and keeps
    [last_mention_id] as it was. *)
Theorem one_unreadable_date_discards_all_mentions
    (env : Env) (s : State) (mention : Tweet) :
  truthy (p_user_id (processor (bot s))) = true ->
  In mention (tc_get_mentions env (world s)) ->
  created_at mention = BadDate ->
  exists s' evs,
    get_mentions env s = (Ret [], s')
    /\ bot s' = bot s
    /\ trace (world s') = trace (world s) ++ EvGetMentions :: evs ++ [EvLog ERROR]
    /\ Forall (fun e => e = EvLog INFO) evs.
Proof.
  intros Hu Hin Hbad. rewrite (get_mentions_initialized env s Hu).
  unfold catch, bind at 1, call at 1. cbv zeta. cbn [world bot].
  destruct (tc_get_mentions env (world s)) as [|m0 ms] eqn:Ef; [destruct Hin|].
  unfold bind at 1, now at 1.
  match goal with
  | |- context [bind (filter_recent ?t ?l (m0 :: ms)) _ ?st] =>
      destruct (filter_recent_raises t l (m0 :: ms) mention Hin Hbad st) as (s1 & E);
      pose proof (filter_recent_logs t l (m0 :: ms) st _ _ E)
        as (B & _ & evs & T & F)
  end.
  unfold bind at 1. rewrite E.
  unfold bind, logger, outside, ret. eexists. exists evs.
  split; [reflexivity|]. cbn [bot world] in *.
  split; [exact B|]. split; [|exact F].
  unfold log, record. cbn [trace]. rewrite T. cbn [trace advance record].
  rewrite <- !app_assoc. reflexivity.
Qed.

Lemma one_unreadable_date_discards_all_mentions_witness :
  exists s' evs,
    get_mentions garbled initialized_state = (Ret [], s')
    /\ bot s' = bot initialized_state
    /\ trace (world s')
       = trace (world initialized_state) ++ EvGetMentions :: evs ++ [EvLog ERROR]
    /\ Forall (fun e => e = EvLog INFO) evs.
Proof.
  apply (one_unreadable_date_discards_all_mentions garbled initialized_state
           (mkTweet "1002" BadDate (Name "bob"))).
  - reflexivity.
  - right. left. reflexivity.
  - reflexivity.
Defined.

(** X18. When every fetched mention has a readable date (or none), the
    processor returns, in the order of the platform, exactly the mentions
    that have a [created_at] not older than its age limit at the instant
    the fetch returned; mentions without [created_at] are dropped.
    [last_mention_id] becomes the id of the first mention returned, and
    stays as it was when none is returned. *)
Theorem get_mentions_returns_the_recent_ones_in_order (env : Env) (s : State) :
  truthy (p_user_id (processor (bot s))) = true ->
  Forall readable (tc_get_mentions env (world s)) ->
  let fetched_at :=
    clock (world s) + Z.of_N (elapse env (record EvGetMentions (world s))) in
  let recent :=
    List.filter (within fetched_at (mention_age_limit_minutes (processor (bot s))))
      (tc_get_mentions env (world s)) in
  exists s',
    get_mentions env s = (Ret recent, s')
    /\ clock (world s') = fetched_at
    /\ last_mention_id (processor (bot s'))
       = match recent with
         | [] => last_mention_id (processor (bot s))
         | first :: _ => JStr (id first)
         end.
Proof.
  intros Hu Hread fetched_at recent.
  rewrite (get_mentions_initialized env s Hu).
  unfold catch, bind at 1, call at 1. cbv zeta. cbn [world bot].
  subst recent.
  destruct (tc_get_mentions env (world s)) as [|m0 ms] eqn:Ef.
  { eexists. split; [reflexivity|]. split; reflexivity. }
  unfold bind at 1, now at 1.
  match goal with
  | |- context [bind (filter_recent ?t ?l (m0 :: ms)) _ ?st] =>
      destruct (filter_recent_returns t l (m0 :: ms) Hread st) as (s1 & E);
      pose proof (filter_recent_logs t l (m0 :: ms) st _ _ E) as (B & C & _)
  end.
  unfold bind at 1. rewrite E. cbn [world clock advance record] in *.
  fold fetched_at in E |- *.
  destruct (List.filter _ (m0 :: ms)) as [|first others].
  - eexists. split; [reflexivity|]. split; [exact C|]. rewrite B. reflexivity.
  - unfold bind, logger, outside, modify, ret. eexists. split; [reflexivity|].
    split; [exact C | reflexivity].
Qed.

Lemma get_mentions_returns_the_recent_ones_in_order_witness :
  exists s',
    get_mentions busy initialized_state
    = (Ret [mkTweet "1001" (Date 1699999990) (Name "ann");
            mkTweet "1002" (Date 1699999980) (Name "bob");
            mkTweet "1003" (Date 1699999400) (Name "cat");
            mkTweet "1004" (Date 1699999995) (Name "dan")], s')
    /\ clock (world s') = 1700000001
    /\ last_mention_id (processor (bot s')) = JStr "1001".
Proof.
  apply (get_mentions_returns_the_recent_ones_in_order busy initialized_state).
  - reflexivity.
  - repeat constructor; discriminate.
Defined.

(** X19. [initialize] stores whatever [get_user_id] returns and asks for
    the latest mention even when that is no user id; [get_mentions] then
    logs the error and returns no mention without asking the platform for
    mentions, and the processor is as uninitialised as before, so that the
    next call does the same. *)
Theorem get_mentions_without_user_id_fetches_nothing
    (env : Env) (s : State) (uid : Json) :
  truthy (p_user_id (processor (bot s))) = false ->
  tc_get_user_id env (world s) = Ret uid ->
  truthy uid = false ->
  exists s',
    get_mentions env s = (Ret [], s')
    /\ trace (world s')
       = trace (world s) ++ [EvGetUserId; EvLatestMentionId; EvLog ERROR]
    /\ truthy (p_user_id (processor (bot s'))) = false.
Proof.
  intros Hu Hget Hfalsy. unfold get_mentions, initialize.
  unfold bind at 1, bind at 1, get_bot at 1. rewrite Hu.
  unfold bind at 1, call at 1. cbv zeta. rewrite Hget.
  unfold bind at 1, call at 1. cbv zeta. unfold modify at 1.
  unfold bind at 1, get_bot at 1. cbn [bot world set_processor processor p_user_id].
  rewrite Hfalsy. cbn [negb].
  unfold bind, logger, outside, ret. eexists. split; [reflexivity|].
  cbn [bot world processor p_user_id set_processor]. split; [|exact Hfalsy].
  unfold log, advance, record. cbn [trace]. rewrite <- !app_assoc. reflexivity.
Qed.

Lemma get_mentions_without_user_id_fetches_nothing_witness :
  exists s',
    get_mentions anonymous fresh_state = (Ret [], s')
    /\ trace (world s')
       = trace (world fresh_state) ++ [EvGetUserId; EvLatestMentionId; EvLog ERROR]
    /\ truthy (p_user_id (processor (bot s'))) = false.
Proof.
  apply (get_mentions_without_user_id_fetches_nothing anonymous fresh_state JNull);
    reflexivity.
Defined.

(** *** The dedup set during an iteration *)

Lemma bind_assoc {A B C} (m : M A) (k : A -> M B) (h : B -> M C) s :
  bind (bind m k) h s = bind m (fun a => bind (k a) h) s.
Proof. unfold bind. destruct (m s) as [[a|] s1]; reflexivity. Qed.

Lemma guarded_process_task env k : guarded_run (process_task env k).
Proof.
  intros s r s' H.
  destruct (Z.lt_ge_cases
              (clock (world s) - lookup_task k (last_processed_time (bot s)))
              (min_interval k)) as [Hlt|Hge].
  - rewrite (process_task_skips env k s Hlt) in H. injection H as <- <-.
    exact (only_run_guarded _ (only_logger None INFO) s _ _ eq_refl).
  - rewrite (process_task_runs env k s Hge) in H.
    exact (guarded_task_body env k _ _ _ H).
Qed.

Lemma guarded_tick_task env k : guarded_run (tick_task env k).
Proof.
  unfold tick_task.
  apply guarded_bind;
    [apply only_run_guarded; unfold should_process; only_cases | intros [|]];
    [|apply only_run_guarded, only_ret].
  apply guarded_bind; [apply only_run_guarded, only_logger | intros _].
  apply guarded_bind; [apply guarded_process_task | intros _].
  apply guarded_finish.
Qed.

(** The end of the [try] block: the eviction, the log and the sleep. *)
Lemma iteration_end env s r s' :
  (cleanup_processed_tweets ;; logger INFO ;; sleep_for env 60) s = (r, s') ->
  exists evs, trace (world s') = trace (world s) ++ evs /\ handled_ids evs = [].
Proof.
  unfold cleanup_processed_tweets, bind, now, get_bot, modify, raise, logger,
    outside, sleep_for. cbv beta.
  destruct (forallb _ _); intros [= <- <-].
  - exists [EvLog INFO; EvSleep 60]. cbn. rewrite <- app_assoc.
    split; reflexivity.
  - exists []. rewrite app_nil_r. split; reflexivity.
Qed.

(** X20. An id that is in the dedup set when an iteration of [main]
    begins is not replied to and not retweeted during that iteration, by
    any of the three tasks, whether the iteration ends well or in the
    error branch. *)
Theorem an_iteration_handles_no_id_of_the_dedup_set
    (env : Env) (s : State) (r : Result unit) (s' : State) :
  tick env s = (r, s') ->
  exists evs,
    trace (world s') = trace (world s) ++ evs
    /\ Forall (fun i => i ∉ processed_tweets (bot s)) (handled_ids evs).
Proof.
  assert (Htasks : guarded_run (tick_task env mentions ;;
                                tick_task env accounts ;;
                                tick_task env hashtags)).
  { apply guarded_bind; [apply guarded_tick_task | intros _].
    apply guarded_bind; [apply guarded_tick_task | intros _].
    apply guarded_tick_task. }
  assert (Hbody : forall r1 s1,
            (tick_task env mentions ;; tick_task env accounts ;;
             tick_task env hashtags ;; cleanup_processed_tweets ;;
             logger INFO ;; sleep_for env 60) s = (r1, s1) ->
            exists evs,
              trace (world s1) = trace (world s) ++ evs
              /\ Forall (fun i => i ∉ processed_tweets (bot s)) (handled_ids evs)).
  { intros r1 s1 H.
    assert (H' : bind (tick_task env mentions ;; tick_task env accounts ;;
                       tick_task env hashtags)
                   (fun _ => cleanup_processed_tweets ;; logger INFO ;;
                             sleep_for env 60) s = (r1, s1)).
    { rewrite !bind_assoc. unfold bind at 1.
      unfold bind at 1 in H. destruct (tick_task env mentions s) as [[[]|] s2];
        [|exact H].
      rewrite !bind_assoc. unfold bind at 1.
      unfold bind at 1 in H. destruct (tick_task env accounts s2) as [[[]|] s3];
        [|exact H].
      exact H. }
    apply bind_inv in H' as [([] & s3 & H1 & H2)|[_ H1]].
    - destruct (Htasks _ _ _ H1) as (e1 & T1 & _ & F1).
      destruct (iteration_end env _ _ _ H2) as (e2 & T2 & F2).
      exists (e1 ++ e2). split; [rewrite T2, T1, app_assoc; reflexivity|].
      rewrite handled_ids_app, F2, app_nil_r. exact F1.
    - destruct (Htasks _ _ _ H1) as (e1 & T1 & _ & F1).
      exists e1. split; [exact T1 | exact F1]. }
  unfold tick, catch.
  match goal with
  | |- match ?body s with _ => _ end = _ -> _ =>
      destruct (body s) as [[[]|] s1] eqn:E
  end.
  - intros [= <- <-]. exact (Hbody _ _ eq_refl).
  - intros [= <- <-]. destruct (Hbody _ _ eq_refl) as (evs & T & F).
    exists (evs ++ [EvLog ERROR; EvSleep Config.ERROR_DELAY]). split.
    + unfold sleep, log, advance, record. cbn [world trace].
      rewrite T, <- !app_assoc. reflexivity.
    + rewrite handled_ids_app. cbn. rewrite app_nil_r. exact F.
Qed.

Lemma an_iteration_handles_no_id_of_the_dedup_set_witness :
  exists evs,
    trace (world (snd (tick busy fresh_state))) = trace (world fresh_state) ++ evs
    /\ Forall (fun i => i ∉ processed_tweets (bot fresh_state)) (handled_ids evs).
Proof.
  apply (an_iteration_handles_no_id_of_the_dedup_set busy fresh_state
           (fst (tick busy fresh_state)) (snd (tick busy fresh_state))).
  apply surjective_pairing.
Defined.

(** *** The gates *)

(** X21. Under the loop of [main] the gates written inside the three task
    methods never skip: the loop calls a task only when the interval of
    [check_intervals] has passed since its last run, that interval is at
    least the one of the method, and nothing moves the clock in between.
    So a block of the loop either logs the skip, or logs, runs the body of
    the task and stamps the time once more; for the hashtags the interval
    in force is the 1800 seconds of [check_intervals]. *)
Theorem the_gates_of_the_task_methods_never_skip_under_main
    (env : Env) (k : Task) (s : State) :
  tick_task env k s
  = (if clock (world s) - lookup_task k (last_processed_time (bot s))
        <? lookup_task k check_intervals
     then logger INFO
     else logger INFO ;; task_body env k ;; t <- now ;; modify (set_last k t)) s.
Proof.
  destruct (Z.ltb_spec (clock (world s) - lookup_task k (last_processed_time (bot s)))
              (lookup_task k check_intervals)) as [Hlt|Hge].
  - rewrite (should_process_false env k s Hlt). reflexivity.
  - unfold tick_task, should_process, bind, now, get_bot, ret, logger, outside.
    apply Z.ltb_ge in Hge as Hb. rewrite Hb.
    rewrite process_task_runs; [reflexivity|].
    pose proof (min_interval_le_check_interval k). cbn [bot world log record clock].
    lia.
Qed.

(** *** The eviction *)

(** X22. When every id of the dedup set is a number, the eviction returns,
    touches nothing but the set, and keeps exactly the ids whose numeric
    value is less than an hour behind the clock, ids ahead of the clock
    included. *)
Theorem cleanup_keeps_the_ids_within_an_hour_of_the_clock (s : State) :
  (forall i, i ∈ processed_tweets (bot s) -> float_of_id i <> None) ->
  exists s',
    cleanup_processed_tweets s = (Ret tt, s')
    /\ world s' = world s
    /\ last_processed_time (bot s') = last_processed_time (bot s)
    /\ forall i, i ∈ processed_tweets (bot s')
         <-> i ∈ processed_tweets (bot s)
             /\ exists v, float_of_id i = Some v /\ clock (world s) - v < 3600.
Proof.
  intros Hnum.
  assert (E : forallb (fun i => match float_of_id i with
                                | Some _ => true
                                | None => false
                                end) (elements (processed_tweets (bot s))) = true).
  { apply forallb_forall. intros i Hi.
    apply list_elem_of_In, elem_of_elements, Hnum in Hi.
    destruct (float_of_id i); [reflexivity | congruence]. }
  assert (R : exists s', cleanup_processed_tweets s = (Ret tt, s')
                         /\ last_processed_time (bot s')
                            = last_processed_time (bot s)).
  { unfold cleanup_processed_tweets, bind, now, get_bot, modify. cbv beta.
    rewrite E. eexists. split; reflexivity. }
  destruct R as (s' & H & L). exists s'. split; [exact H|].
  destruct (cleanup_drops_by_id_value s s' H) as (W & Hset).
  split; [exact W|]. split; [exact L | exact Hset].
Qed.

Lemma cleanup_keeps_the_ids_within_an_hour_of_the_clock_witness :
  exists s',
    cleanup_processed_tweets two_ids = (Ret tt, s')
    /\ world s' = world two_ids
    /\ last_processed_time (bot s') = last_processed_time (bot two_ids)
    /\ forall i, i ∈ processed_tweets (bot s')
         <-> i ∈ processed_tweets (bot two_ids)
             /\ exists v, float_of_id i = Some v
                          /\ clock (world two_ids) - v < 3600.
Proof.
  apply (cleanup_keeps_the_ids_within_an_hour_of_the_clock two_ids).
  intros i Hi. cbn in Hi.
  apply elem_of_union in Hi as [Hi|Hi]; apply elem_of_singleton in Hi; subst i;
    discriminate.
Defined.

(** *** The limiters of the bot *)

Lemma same_budgets_refl s : same_budgets s s.
Proof. intros l. split; reflexivity. Qed.

Lemma same_budgets_trans s1 s2 s3 :
  same_budgets s1 s2 -> same_budgets s2 s3 -> same_budgets s1 s3.
Proof.
  intros H1 H2 l. destruct (H1 l) as [A1 B1]. destruct (H2 l) as [A2 B2].
  split; congruence.
Qed.

Lemma same_budgets_bot s b :
  (forall l, get_limiter l b = get_limiter l (bot s)) ->
  forall w, same_budgets s (mkState b w).
Proof. intros Hb w l. cbn [bot]. rewrite Hb. split; reflexivity. Qed.

Lemma same_budgets_acquire env l : respects same_budgets (acquire env l).
Proof.
  intros s r s'. unfold acquire.
  destruct (RateLimiter.acquire _ _ _) as [[[rl slept] recorded]|] eqn:E;
    intros [= <- <-]; [|apply same_budgets_refl].
  apply acquire_shape in E as (_ & _ & Hc & Hw).
  intros l'. cbn [bot].
  destruct l, l'; cbn [get_limiter set_limiter user_tweets_limiter mentions_limiter
                         search_limiter retweet_limiter] in *;
    split; first [assumption | reflexivity].
Qed.

Ltac same_budgets_frame :=
  first [ apply same_budgets_refl | apply same_budgets_trans
        | apply same_budgets_acquire
        | intros; intros s r s' [= <- <-]; apply same_budgets_bot;
          intros lim; destruct lim; reflexivity ].

Lemma same_budgets_cleanup : respects same_budgets cleanup_processed_tweets.
Proof.
  intros s r s'.
  unfold cleanup_processed_tweets, bind, now, get_bot, modify, raise. cbv beta.
  destruct (forallb _ _); intros [= <- <-]; [|apply same_budgets_refl].
  apply same_budgets_bot. intros l; destruct l; reflexivity.
Qed.

Lemma same_budgets_tick env : respects same_budgets (tick env).
Proof.
  apply respects_tick; try same_budgets_frame. apply same_budgets_cleanup.
Qed.

(** X23. No run of the scheduler changes the budget or the window of a
    limiter, so in a bot made by [TwitterBot.__init__] (budgets 10, 5, 5
    and 3, windows of 900 seconds) the budgets stay positive and [acquire]
    never fails on an empty deque, after any number of iterations. *)
Theorem the_limiters_of_the_bot_keep_their_budgets
    (env : Env) (n : nat) (p : Processor) (w : World) (l : Limiter) :
  let rl := get_limiter l (bot (snd (main env n (mkState (new_bot p) w)))) in
  RateLimiter.requests_per_window rl
  = RateLimiter.requests_per_window (get_limiter l (new_bot p))
  /\ RateLimiter.window_seconds rl = 900
  /\ forall now_ lag, RateLimiter.acquire rl now_ lag <> None.
Proof.
  assert (H : forall s, same_budgets s (snd (main env n s))).
  { induction n as [|n IH]; intros s; [apply same_budgets_refl|].
    cbn [main]. unfold bind.
    destruct (tick env s) as [[[]|] s1] eqn:E.
    - eapply same_budgets_trans; [exact (same_budgets_tick env _ _ _ E) | apply IH].
    - exact (same_budgets_tick env _ _ _ E). }
  cbv zeta. destruct (H (mkState (new_bot p) w) l) as [Hc Hw].
  cbn [bot] in Hc, Hw. split; [exact Hc|]. split.
  - rewrite Hw. destruct l; reflexivity.
  - intros now_ lag Hnone. apply acquire_raises in Hnone.
    rewrite Hc in Hnone. destruct l; cbn in Hnone; lia.
Qed.

(** *** The age of what the mentions task replies to *)

Lemma acts_only_handles P s s' : only_handles None s s' -> acts P s s'.
Proof.
  intros (evs & T & _ & F). exists evs. split; [exact T|].
  clear T. induction evs as [|e evs IH]; [constructor|].
  constructor.
  - destruct e; try exact I; cbn in F;
      apply Forall_cons in F as [[=] _].
  - apply IH. destruct e; cbn in F; try exact F;
      apply Forall_cons in F as [[=] _].
Qed.

Lemma clock_le_get_mentions env : respects clock_le (get_mentions env).
Proof. apply respects_get_mentions; clock_le_frame. Qed.

(** The loop of [process_mentions] replies only to mentions that
    [is_tweet_recent] accepts at an instant not before [c0]. *)
Lemma mentions_loop_acts env c0 items :
  forall s r s',
    c0 <= clock (world s) ->
    mentions_loop env items s = (r, s') ->
    acts (fun t => exists at_, created_at t = Date at_ /\ c0 - at_ <= 5 * 60) s s'.
Proof.
  set (P := fun t => exists at_, created_at t = Date at_ /\ c0 - at_ <= 5 * 60).
  induction items as [|mention rest IH]; intros s r s' Hc H.
  - injection H as <- <-. apply acts_refl.
  - cbn [mentions_loop] in H. unfold bind at 1, get_bot at 1 in H.
    destruct (bool_decide _); [exact (IH _ _ _ Hc H)|].
    unfold bind at 1, now at 1 in H.
    destruct (created_at mention) as [| |at_] eqn:Ec; cbn [is_tweet_recent] in H;
      try (injection H as <- <-; apply acts_refl).
    destruct (Z.leb_spec (clock (world s) - at_) (5 * 60)) as [Hage|Hage];
      [|exact (IH _ _ _ Hc H)].
    apply bind_inv in H as [([] & s1 & H1 & H)|[_ [=]]].
    pose proof (clock_le_call _ _ _ _ _ _ _ H1) as K1.
    apply (acts_call P env _ (EvProcessMention mention)) in H1;
      [|exists at_; split; [exact Ec | lia]].
    apply bind_inv in H as [([] & s2 & H2 & H)|[_ [=]]].
    pose proof (clock_le_modify _ _ _ _ H2) as K2. apply (acts_modify P) in H2.
    apply bind_inv in H as [([] & s3 & H3 & H)|[_ [=]]].
    pose proof (clock_le_sleep_for env 5 ltac:(lia) _ _ _ H3) as K3.
    apply (acts_sleep_for P) in H3.
    apply IH in H; [|unfold clock_le in *; lia].
    exact (acts_trans _ _ _ _ H1 (acts_trans _ _ _ _ H2 (acts_trans _ _ _ _ H3 H))).
Qed.

Lemma acts_processed_events P evs :
  Forall (acts_only_on P) evs -> Forall P (processed_events evs).
Proof.
  induction 1 as [|e evs He _ IH]; [constructor|].
  destruct e; cbn; try exact IH. constructor; [exact He | exact IH].
Qed.

(** X24. Whatever the age limit of the processor, a mention that one run
    of [process_mentions] replies to was created at most five minutes
    before the instant at which the task was called: [is_tweet_recent] is
    applied, with its default of five minutes, to what [get_mentions] has
    let through, so a limit above five minutes (the default is 180) admits
    no older mention to a reply. *)
Theorem mentions_task_replies_only_to_mentions_of_the_last_five_minutes
    (env : Env) (s : State) (r : Result unit) (s' : State) :
  process_mentions env s = (r, s') ->
  exists evs,
    trace (world s') = trace (world s) ++ evs
    /\ Forall (fun t => exists at_, created_at t = Date at_
                                    /\ clock (world s) - at_ <= 5 * 60)
         (processed_events evs).
Proof.
  set (P := fun t => exists at_, created_at t = Date at_
                                 /\ clock (world s) - at_ <= 5 * 60).
  intros H.
  assert (A : acts P s s').
  { unfold process_mentions, bind at 1, now at 1, bind at 1, get_bot at 1 in H.
    destruct (_ <? 180); [exact (acts_logger P _ _ _ _ H)|].
    unfold mentions_body in H.
    apply bind_inv in H as [([] & s1 & H1 & H)|[_ H1]];
      [|exact (acts_acquire P env _ _ _ _ H1)].
    pose proof (clock_le_acquire _ _ _ _ _ H1) as K1.
    apply (acts_acquire P) in H1.
    apply bind_inv in H as [(fetched & s2 & H2 & H)|[_ H2]];
      [|exact (acts_trans _ _ _ _ H1
                 (acts_only_handles P _ _ (only_get_mentions env _ _ _ H2)))].
    pose proof (clock_le_get_mentions _ _ _ _ H2) as K2.
    apply only_get_mentions, (acts_only_handles P) in H2.
    apply bind_inv in H as [([] & s3 & H3 & H)|[_ [=]]].
    pose proof (clock_le_logger _ _ _ _ H3) as K3. apply (acts_logger P) in H3.
    pose proof (acts_trans _ _ _ _ H1 (acts_trans _ _ _ _ H2 H3)) as Hpre.
    apply bind_inv in H as [([] & s4 & H4 & H)|[_ H4]].
    - apply (mentions_loop_acts env (clock (world s))) in H4;
        [|unfold clock_le in *; lia].
      unfold bind, now, modify in H. injection H as <- <-.
      destruct (acts_trans _ _ _ _ Hpre H4) as (evs & T & F).
      exists evs. split; [exact T | exact F].
    - apply (mentions_loop_acts env (clock (world s))) in H4;
        [|unfold clock_le in *; lia].
      exact (acts_trans _ _ _ _ Hpre H4). }
  destruct A as (evs & T & F). exists evs. split; [exact T|].
  apply acts_processed_events, F.
Qed.

Lemma mentions_task_replies_only_to_mentions_of_the_last_five_minutes_witness :
  map id (processed_events
            (trace (world (snd (process_mentions busy initialized_state)))))
  = ["1001"%string; "1002"%string]
  /\ exists evs,
       trace (world (snd (process_mentions busy initialized_state)))
       = trace (world initialized_state) ++ evs
       /\ Forall (fun t => exists at_, created_at t = Date at_
                                       /\ clock (world initialized_state) - at_ <= 5 * 60)
            (processed_events evs).
Proof.
  split; [vm_compute; reflexivity|].
  apply (mentions_task_replies_only_to_mentions_of_the_last_five_minutes
           busy initialized_state
           (fst (process_mentions busy initialized_state))
           (snd (process_mentions busy initialized_state))).
  apply surjective_pairing.
Defined.

End RunsFacts.
